(** * PyFstat grid-based searches: a shallow embedding of
    [pyfstat/grid_based_searches.py]

    Python floats and NumPy [float64] cells are IEEE binary64 numbers; they
    are embedded as Rocq's primitive floats, so that every arithmetic step of
    the source rounds here exactly as it does there.  Python [int]s are [Z].
    Dictionaries are insertion-ordered association lists, structured NumPy
    arrays are records of field names and rows, and the methods that log,
    raise, touch the output file or call the detection-statistic evaluator
    live in a state-and-exception monad. *)

From Stdlib Require Import ZArith Floats Lia Ascii String.
From stdpp Require Import base list strings sorting pretty.

#[local] Open Scope Z_scope.

(** ** Exceptions and log records *)

Inductive value_error : Type :=
| CannotConvertNaN           (* int(float('nan')) *)
| NegativeNumberOfSamples    (* np.linspace with num < 0 *)
| NoFieldOfName (key : string) (* structured array indexed by an unknown field *)
| EmptySequence              (* min([]) , np.argmax of an empty array *)
| CannotParseFmt (f : string)
| ChooseOnlyOne              (* "Please choose only one of [BSGL,BtSG]." *)
| NsegsIncompatible
| InvalidReadingMethod (m : string)
| MustSpecifyTglitchs.

Inductive runtime_error : Type :=
| CouldNotGetValue (key : string)
| LengthsDoNotMatch (ncols nfmt : nat)
| ExpectedFstatMap.

Inductive exn : Type :=
| IndexError
| KeyError (key : string)
| AttributeError (attr : string)
| TypeError
| OverflowError
| ValueError (why : value_error)
| RuntimeError (why : runtime_error)
| IOError (msg : string)
| EvaluatorFailure (code : Z).     (* whatever the evaluator itself raises *)

Inductive logmsg : Type :=
| UsingTupleAsIs (len : nat)
| GeneratingInputDataArray
| GeneratingInputDataArrayFromGrid
| NoOldOutputFile
| OutputOutdatesSfts
| CheckingHeader
| HeaderDoesNotMatch
| HeaderMatches
| LoadingOldData
| DiffersInLength (in_file requested : Z)
| HasLessColumns (in_file requested : Z)
| OldDataMatches (nrows ncols : nat)
| InputGridDiffers
| RunningSearch (npoints : Z)
| SavingData
| DetectionStatisticSetTo (detstat : string)
| SettingUpSearchObject
| WillSaveFstatMaps.

(** ** Binary64 helpers: what [int()], [round()], [float()] and NumPy's
    elementwise predicates do on a double *)

Module Binary64.

Definition of_Z (z : Z) : float :=
  SF2Prim (binary_normalize 53 1024 z 0 false).

(** [int(x)]: truncation towards zero; NaN and the infinities raise. *)
Definition int (x : float) : exn + Z :=
  match Prim2SF x with
  | S754_zero _ => inr 0
  | S754_finite s m e =>
      let a := if 0 <=? e then Z.shiftl (Z.pos m) e
               else Z.shiftr (Z.pos m) (- e) in
      inr (if s then - a else a)
  | S754_infinity _ => inl OverflowError
  | S754_nan => inl (ValueError CannotConvertNaN)
  end.

(** [round(x)]: to the nearest integer, ties to the even one. *)
Definition round (x : float) : exn + Z :=
  match Prim2SF x with
  | S754_zero _ => inr 0
  | S754_finite s m e =>
      let a :=
        if 0 <=? e then Z.shiftl (Z.pos m) e
        else
          let fl := Z.shiftr (Z.pos m) (- e) in
          let r := Z.pos m - Z.shiftl fl (- e) in
          let half := Z.shiftl 1 (- e - 1) in
          if r <? half then fl
          else if half <? r then fl + 1
          else if Z.even fl then fl else fl + 1 in
      inr (if s then - a else a)
  | S754_infinity _ => inl OverflowError
  | S754_nan => inl (ValueError CannotConvertNaN)
  end.

(** [10 ** e] as a tolerance: for [e >= 0] the integer [10 ^ e], converted
    when NumPy multiplies by it; for [e < 0] the double [pow(10.0, e)], the
    one nearest to the exact power. *)
Definition pow10 (e : Z) : float :=
  if 0 <=? e then of_Z (10 ^ e)
  else SF2Prim (SFdiv 53 1024 (S754_finite false 1 0)
                  (S754_finite false (Z.to_pos (10 ^ (- e))) 0)).

Definition isfinite (x : float) : bool := PrimFloat.is_finite x.

End Binary64.

(** ** Structured arrays *)

(** A one-dimensional NumPy array with a structured dtype: the field names,
    in order, and one record per row. *)
Record sarray : Type := SArray {
  names : list string;
  rows : list (list float)
}.

(** ** The state the methods run in *)

(** What a saved output file holds: its modification time, the header lines,
    the column-name line and the table as a reader gets it back. *)
Record stored_file : Type := StoredFile {
  mtime : Z;
  header : list string;
  columns : list string;
  table : list (list float)
}.

Record state : Type := State {
  log : list logmsg;                    (* [logger.info] records, oldest first *)
  det_stat_calls : nat;                 (* calls of [search.get_det_stat] *)
  search_objects : nat;                 (* evaluators constructed *)
  clock : Z;                            (* the time a file written now is stamped with *)
  out_file : option stored_file;        (* the file at [self.out_file], if any *)
  tcw_files : list (list float);        (* per-point F-stat map files written *)
  coord_arrays : option (list (list float));
  total_iterations : option Z;
  input_data : option sarray;
  data : option sarray;
  timingFstatMap : option float
}.

Definition M (A : Type) : Type := state → (exn + A) * state.

#[global] Instance M_ret : MRet M := λ A a s, (inr a, s).
#[global] Instance M_bind : MBind M := λ A B f m s,
  match m s with
  | (inr a, s') => f a s'
  | (inl e, s') => (inl e, s')
  end.

Definition raise {A} (e : exn) : M A := λ s, (inl e, s).
Definition lift {A} (r : exn + A) : M A := λ s, (r, s).
Definition get_state : M state := λ s, (inr s, s).
Definition modify (f : state → state) : M unit := λ s, (inr tt, f s).

Definition with_log (f : list logmsg → list logmsg) (s : state) : state :=
  State (f (log s)) (det_stat_calls s) (search_objects s) (clock s)
    (out_file s) (tcw_files s) (coord_arrays s) (total_iterations s)
    (input_data s) (data s) (timingFstatMap s).
Definition with_det_stat_calls (n : nat) (s : state) : state :=
  State (log s) n (search_objects s) (clock s)
    (out_file s) (tcw_files s) (coord_arrays s) (total_iterations s)
    (input_data s) (data s) (timingFstatMap s).
Definition with_search_objects (n : nat) (s : state) : state :=
  State (log s) (det_stat_calls s) n (clock s)
    (out_file s) (tcw_files s) (coord_arrays s) (total_iterations s)
    (input_data s) (data s) (timingFstatMap s).
Definition with_out_file (f : stored_file) (s : state) : state :=
  State (log s) (det_stat_calls s) (search_objects s) (clock s + 1)
    (Some f) (tcw_files s) (coord_arrays s) (total_iterations s)
    (input_data s) (data s) (timingFstatMap s).
Definition with_tcw_files (l : list (list float)) (s : state) : state :=
  State (log s) (det_stat_calls s) (search_objects s) (clock s)
    (out_file s) l (coord_arrays s) (total_iterations s)
    (input_data s) (data s) (timingFstatMap s).
Definition with_coord_arrays (c : list (list float)) (s : state) : state :=
  State (log s) (det_stat_calls s) (search_objects s) (clock s)
    (out_file s) (tcw_files s) (Some c) (total_iterations s)
    (input_data s) (data s) (timingFstatMap s).
Definition with_total_iterations (n : Z) (s : state) : state :=
  State (log s) (det_stat_calls s) (search_objects s) (clock s)
    (out_file s) (tcw_files s) (coord_arrays s) (Some n)
    (input_data s) (data s) (timingFstatMap s).
Definition with_input_data (a : sarray) (s : state) : state :=
  State (log s) (det_stat_calls s) (search_objects s) (clock s)
    (out_file s) (tcw_files s) (coord_arrays s) (total_iterations s)
    (Some a) (data s) (timingFstatMap s).
Definition with_data (a : sarray) (s : state) : state :=
  State (log s) (det_stat_calls s) (search_objects s) (clock s)
    (out_file s) (tcw_files s) (coord_arrays s) (total_iterations s)
    (input_data s) (Some a) (timingFstatMap s).
Definition with_timingFstatMap (t : float) (s : state) : state :=
  State (log s) (det_stat_calls s) (search_objects s) (clock s)
    (out_file s) (tcw_files s) (coord_arrays s) (total_iterations s)
    (input_data s) (data s) (Some t).

Definition logger_info (m : logmsg) : M unit :=
  modify (with_log (λ l, l ++ [m])).

(** [self.name], raising [AttributeError] while the attribute is unset. *)
Definition getattr {A} (name : string) (proj : state → option A) : M A := λ s,
  match proj s with
  | Some a => (inr a, s)
  | None => (inl (AttributeError name), s)
  end.

(** [for x in l: body], threading an accumulator. *)
Fixpoint for_each {A B} (l : list A) (acc : B) (body : B → A → M B) : M B :=
  match l with
  | [] => mret acc
  | x :: l' => acc' ← body acc x; for_each l' acc' body
  end.

(** ** NumPy functions the module calls *)

Module np.

(** [np.shape(a)[i]]: indexing the shape tuple. *)
Definition tuple_index (shape : list Z) (i : nat) : exn + Z :=
  match shape !! i with
  | Some n => inr n
  | None => inl IndexError
  end.

(** The shape of a one-dimensional structured array is [(nrows,)]. *)
Definition shape (a : sarray) : list Z := [Z.of_nat (length (rows a))].

(** The shape of an object that is not array-like (an iterator, say):
    NumPy wraps it into a zero-dimensional object array. *)
Definition shape_of_object : list Z := [].

Definition arange (num : Z) : list float :=
  map (λ i, Binary64.of_Z (Z.of_nat i)) (seq 0 (Z.to_nat num)).

(** [y[-1] = v]. *)
Definition set_last (y : list float) (v : float) : list float :=
  match y with
  | [] => []
  | _ => <[pred (length y) := v]> y
  end.

(** [np.linspace(start, stop, num=num, endpoint=True)] on scalars. *)
Definition linspace (start stop : float) (num : Z) : exn + list float :=
  if num <? 0 then inl (ValueError NegativeNumberOfSamples)
  else
    let div := num - 1 in
    let delta := (stop - start)%float in
    let y := arange num in
    let y :=
      if 0 <? div then
        let step := (delta / Binary64.of_Z div)%float in
        if (step =? 0)%float
        then map (λ v, (v / Binary64.of_Z div * delta)%float) y
        else map (λ v, (v * step)%float) y
      else map (λ v, (v * delta)%float) y in
    let y := map (λ v, (v + start)%float) y in
    inr (if 1 <? num then set_last y stop else y).

End np.

(** ** GridSearch: axis expansion *)

(** [GridSearch._get_array_from_tuple(x)], with [self.input_arrays]. *)
Definition _get_array_from_tuple (input_arrays : bool) (x : list float)
  : M (list float) :=
  match x with
  | [_] => mret x
  | [x0; x1; x2] =>
      if negb input_arrays then
        n ← lift (Binary64.int ((x1 - x0) / x2)%float);
        lift (np.linspace x0 x1 (n + 1))
      else
        logger_info (UsingTupleAsIs (length x));; mret x
  | _ => logger_info (UsingTupleAsIs (length x));; mret x
  end.

(** ** Python dictionaries and strings *)

(** A [dict] with string keys: an association list in insertion order, each
    key at most once. *)
Module dict.

Definition t (V : Type) : Type := list (string * V).

Fixpoint get {V} (d : t V) (k : string) : option V :=
  match d with
  | [] => None
  | (k', v) :: d' => if String.eqb k' k then Some v else get d' k
  end.

(** [d[k] = v]: overwrite in place, or append a new entry. *)
Fixpoint set {V} (d : t V) (k : string) (v : V) : t V :=
  match d with
  | [] => [(k, v)]
  | (k', v') :: d' =>
      if String.eqb k' k then (k', v) :: d' else (k', v') :: set d' k v
  end.

(** [k in d.keys()]. *)
Definition mem {V} (d : t V) (k : string) : bool :=
  match get d k with Some _ => true | None => false end.

(** [d[k]] as an expression. *)
Definition getitem {V} (d : t V) (k : string) : exn + V :=
  match get d k with Some v => inr v | None => inl (KeyError k) end.

(** [[d[k] for k in keys]]. *)
Fixpoint getitems {V} (d : t V) (keys : list string) : exn + list V :=
  match keys with
  | [] => inr []
  | k :: keys' =>
      match get d k, getitems d keys' with
      | None, _ => inl (KeyError k)
      | Some _, inl e => inl e
      | Some v, inr vs => inr (v :: vs)
      end
  end.

(** [{k: v for k, v in zip(keys, vals)}]. *)
Definition of_zip {V} (keys : list string) (vals : list V) : t V :=
  fold_left (λ d kv, set d kv.1 kv.2) (zip keys vals) [].

End dict.

(** [str] methods and the one regular expression the module uses. *)
Module str.

Definition is_space (c : ascii) : bool := Ascii.eqb c " "%char.

Definition is_digit (c : ascii) : bool :=
  let n := nat_of_ascii c in (48 <=? n)%nat && (n <=? 57)%nat.

Fixpoint lstrip (s : string) : string :=
  match s with
  | String c s' => if is_space c then lstrip s' else s
  | EmptyString => EmptyString
  end.

Fixpoint rstrip (s : string) : string :=
  match s with
  | String c s' =>
      match rstrip s' with
      | EmptyString => if is_space c then EmptyString else String c EmptyString
      | r => String c r
      end
  | EmptyString => EmptyString
  end.

(** [s.strip(" ")]. *)
Definition strip (s : string) : string := rstrip (lstrip s).

(** [s.endswith(c)] for a one-character suffix. *)
Fixpoint endswith (s : string) (c : ascii) : bool :=
  match s with
  | EmptyString => false
  | String a EmptyString => Ascii.eqb a c
  | String _ s' => endswith s' c
  end.

(** [re.findall(r"\d+", s)]: the maximal runs of decimal digits, left to
    right.  [cur] is the run being read, most recent digit first. *)
Fixpoint findall_digits_from (cur : list ascii) (s : string) : list (list ascii) :=
  match s with
  | EmptyString => match cur with [] => [] | _ => [rev cur] end
  | String c s' =>
      if is_digit c then findall_digits_from (c :: cur) s'
      else match cur with
           | [] => findall_digits_from [] s'
           | _ => rev cur :: findall_digits_from [] s'
           end
  end.

Definition findall_digits (s : string) : list (list ascii) :=
  findall_digits_from [] s.

(** [int(ds)] for a run of decimal digits. *)
Definition int_of_digits (ds : list ascii) : Z :=
  fold_left (λ acc c, 10 * acc + (Z.of_nat (nat_of_ascii c) - 48)) ds 0.

(** [int(re.findall(r"\d+", s)[-1])]. *)
Definition last_int (s : string) : exn + Z :=
  match last (findall_digits s) with
  | Some ds => inr (int_of_digits ds)
  | None => inl IndexError
  end.

End str.

(** [l[1:-1]]. *)
Definition slice_1_m1 {A} (l : list A) : list A := removelast (tail l).

(** ** NumPy set and comparison routines *)

Module npset.

Definition str_le (x y : string) : Prop := Is_true (String.leb x y).

(** [np.setxor1d(a, b)]: the sorted, unique values that are in exactly one
    of the two inputs. *)
Definition setxor1d (a b : list string) : list string :=
  merge_sort str_le
    (remove_dups (filter (λ x, x ∉ b) a ++ filter (λ x, x ∉ a) b)).

(** One element of [np.isclose(x, y, rtol, atol)]. *)
Definition isclose (rtol atol x y : float) : bool :=
  ((abs (x - y) <=? atol + rtol * abs y)%float && Binary64.isfinite y)
  || (x =? y)%float.

(** [np.allclose(a, b, rtol, atol)] on two columns of equal length. *)
Definition allclose (a b : list float) (rtol atol : float) : bool :=
  forallb (λ xy, isclose rtol atol xy.1 xy.2) (zip a b).

(** [np.nan_to_num(a)] on an array with a structured dtype: only arrays of
    an inexact dtype are changed, so that [a] comes back as it is, NaN and
    infinite cells included. *)
Definition nan_to_num (a : sarray) : sarray := a.

(** [np.argmax] on a column of doubles: the first index of the largest
    value, a NaN counting as largest; an empty column raises. *)
Fixpoint argmax_from (mp : float) (best i : nat) (l : list float) : nat :=
  match l with
  | [] => best
  | x :: l' =>
      if PrimFloat.is_nan mp then best
      else if negb (x <=? mp)%float then argmax_from x i (S i) l'
      else argmax_from mp best (S i) l'
  end.

Definition argmax (l : list float) : exn + nat :=
  match l with
  | [] => inl (ValueError EmptySequence)
  | x :: l' => inr (argmax_from x 0%nat 1%nat l')
  end.

End npset.

(** Fields and cells of a structured array. *)
Module sa.

Definition index_of (key : string) (ns : list string) : option nat :=
  fst <$> list_find (λ k, k = key) ns.

(** [a[key]]: the column view of a field. *)
Definition field (a : sarray) (key : string) : exn + list float :=
  match index_of key (names a) with
  | Some k => inr (map (λ r, default 0%float (r !! k)) (rows a))
  | None => inl (ValueError (NoFieldOfName key))
  end.

(** [a[key][n] = v]. *)
Definition set_cell (a : sarray) (key : string) (n : nat) (v : float)
  : exn + sarray :=
  match index_of key (names a) with
  | Some k =>
      match rows a !! n with
      | Some r => inr (SArray (names a) (<[n := <[k := v]> r]> (rows a)))
      | None => inl IndexError
      end
  | None => inl (ValueError (NoFieldOfName key))
  end.

(** [a[key][n]] as an expression. *)
Definition cell (a : sarray) (key : string) (n : nat) : exn + float :=
  match field a key with
  | inr col => match col !! n with Some v => inr v | None => inl IndexError end
  | inl e => inl e
  end.

(** [np.zeros(n, dtype)] with the given field names, all [float]. *)
Definition zeros (n : nat) (ns : list string) : sarray :=
  SArray ns (replicate n (replicate (length ns) 0%float)).

(** [len(a)] and [len(a.dtype)]. *)
Definition len (a : sarray) : nat := length (rows a).
Definition ncols (a : sarray) : nat := length (names a).

End sa.

(** ** The detection-statistic evaluator (an external collaborator) *)

(** [lalpulsar]'s transient window range, as far as the module reads it. *)
Record window_range : Type := WindowRange {
  t0 : Z; dt0 : Z; tau : Z; dtau : Z
}.

(** The evaluator's F-statistic map over (start time, duration):
    [get_maxF_idx()] and the maximum-posterior estimates. *)
Record fstat_map : Type := FstatMapObj {
  get_maxF_idx : Z * Z;
  t0_MP : float;
  tau_MP : float
}.

(** The attributes the evaluator exposes after one [get_det_stat] call. *)
Record outputs : Type := Outputs {
  returned : float;                    (* the value [get_det_stat] returns *)
  twoF : float;
  twoFX : list float;
  windowRange : option window_range;
  maxTwoF : float;
  twoFXatMaxTwoF : list float;
  FstatMap : option fstat_map;
  timing : option float                (* [timingFstatMap], when present *)
}.

Record evaluator : Type := Evaluator {
  singleFstats : bool;
  detector_names : list string;
  numDetectors : nat;
  has_twoFXatMaxTwoF : bool;
  (** [get_det_stat(params=thisCand)] *)
  get_det_stat : dict.t float → Z + outputs;
  (** [get_det_stat( *vals)], the positional convention of the glitch search *)
  get_det_stat_positional : list float → Z + outputs;
  (** [self.search.minStartTime], [self.search.maxStartTime]: the GPS times
      the evaluator has settled on *)
  search_minStartTime : option Z;
  search_maxStartTime : option Z
}.

(** ** Constructor arguments and search objects *)

Inductive variant : Type :=
| GridSearch | TransientGridSearch | SearchOverGridFile | GridGlitchSearch.

(** What [np.genfromtxt] hands back for a grid file: a zero-dimensional
    record when the file has a single data row, a one-dimensional array
    otherwise. *)
Inductive loaded_grid : Type :=
| Grid0d (fields : list string) (row : list float)
| Grid1d (a : sarray).

(** The keyword arguments of the four constructors; [@utils.initializer]
    binds each of them onto the instance, where the constructor may then
    assign them again. *)
Record init_args : Type := InitArgs {
  F0s : list float; F1s : list float; F2s : list float;
  Alphas : list float; Deltas : list float;
  delta_F0s : list float; delta_F1s : list float;
  tglitchs : option (list float);
  sftfilepattern : option string;
  nsegs : Z;
  arg_singleFstats : bool;
  BSGL : bool;
  BtSG : bool;
  minCoverFreq : option float;
  maxCoverFreq : option float;
  input_arrays : bool;
  transientWindowType : option string;
  outputTransientFstatMap : bool;
  outputAtoms : bool;
  clean : bool;
  reading_method : string;
  (** the grid file as the chosen reader returns it, or the I/O error it raises *)
  gridfile : string + loaded_grid;
  minStartTime : option Z;
  maxStartTime : option Z
}.

(** A search object once its constructor has returned. *)
Record search_object : Type := SearchObject {
  kind : variant;
  args : init_args;
  search_keys : list string;
  axes : dict.t (list float);           (* [self.F0], [self.F1], ... *)
  grid : option sarray;
  detstat : string;
  search : evaluator;
  output_keys : list string;
  output_file_header : list string
}.

(** Python truthiness of an optional string. *)
Definition truthy (o : option string) : bool :=
  match o with
  | Some s => negb (String.eqb s "")
  | None => false
  end.

(** Code of the package that lives outside this module: [BaseSearchClass]
    attributes and methods, [pyfstat.utils] functions, the evaluator classes
    of [pyfstat.core], and what the file system reports. *)
Record helpers : Type := Helpers {
  default_search_keys : list string;
  fmt_doppler : string;
  fmt_detstat : string;
  get_doppler_params_output_format : list string → string → dict.t string;
  pprint_init_params_dict : init_args → list string;
  get_output_file_header : init_args → list string;
  read_parameters_dict_lines_from_file_header : list string → list string;
  (** what a reader gets back of the line [np.savetxt] writes for one row
      under the formats [fmt], or the exception the formatting
      [" ".join(fmt) % tuple(row)] raises *)
  savetxt_row : list string → list float → exn + list float;
  (** the evaluator a search class builds, or the error its constructor raises *)
  make_search : variant → init_args → option (dict.t (list float)) → Z + evaluator;
  (** [os.path.getmtime] over [_get_list_of_matching_sfts()] *)
  matching_sft_mtimes : list Z;
  PULSAR_MAX_SPINS : nat
}.

(** ** Comparison tolerances *)

(** A tolerance as the source writes it: the integer [0] or [10 ** e]. *)
Inductive tolerance : Type :=
| Tol0
| TolPow10 (e : Z).

Definition tolerance_value (t : tolerance) : float :=
  match t with
  | Tol0 => 0%float
  | TolPow10 e => Binary64.pow10 e
  end.

(** The loop of [_get_tolerance_from_savetxt_fmt] over [fmt.items()]. *)
Fixpoint tolerances_of (fmt : dict.t string)
    (rtol atol : dict.t tolerance) : exn + dict.t tolerance * dict.t tolerance :=
  match fmt with
  | [] => inr (rtol, atol)
  | (key, f) :: fmt' =>
      if str.endswith f "d" then
        tolerances_of fmt' (dict.set rtol key Tol0) (dict.set atol key Tol0)
      else if str.endswith f "g" then
        match str.last_int f with
        | inr precision =>
            tolerances_of fmt' (dict.set rtol key (TolPow10 (1 - precision)))
                               (dict.set atol key Tol0)
        | inl e => inl e
        end
      else if str.endswith f "f" then
        match str.last_int f with
        | inr decimals =>
            tolerances_of fmt' (dict.set rtol key Tol0)
                               (dict.set atol key (TolPow10 (- decimals)))
        | inl e => inl e
        end
      else inl (ValueError (CannotParseFmt f))
  end.

(** ** The search classes *)

(** [itertools.product( *arrays)]: the last axis varies fastest. *)
Fixpoint product (arrays : list (list float)) : list (list float) :=
  match arrays with
  | [] => [[]]
  | a :: rest => x ← a; (λ r, x :: r) <$> product rest
  end.

(** [min(l)] on a list of time stamps. *)
Definition py_min (l : list Z) : exn + Z :=
  match l with
  | [] => inl (ValueError EmptySequence)
  | x :: l' => inr (fold_left Z.min l' x)
  end.

(** [np.min] and [np.max] of a column; a NaN propagates. *)
Definition np_min (l : list float) : exn + float :=
  match l with
  | [] => inl (ValueError EmptySequence)
  | x :: l' =>
      inr (fold_left (λ m y, if PrimFloat.is_nan m then m
                             else if negb (m <=? y)%float then y else m) l' x)
  end.
Definition np_max (l : list float) : exn + float :=
  match l with
  | [] => inl (ValueError EmptySequence)
  | x :: l' =>
      inr (fold_left (λ m y, if PrimFloat.is_nan m then m
                             else if negb (y <=? m)%float then y else m) l' x)
  end.

(** [l[i]] on a list. *)
Definition list_index {A} (l : list A) (i : nat) : exn + A :=
  match l !! i with Some a => inr a | None => inl IndexError end.

(** [enumerate(l)]. *)
Definition enumerate {A} (l : list A) : list (nat * A) := imap (λ i a, (i, a)) l.

(** What [run] iterates over: the generator of [itertools.product] or the
    input data array. *)
Inductive iterable : Type :=
| Generator (points : list (list float))
| Array (a : sarray).

Definition iter (it : iterable) : list (list float) :=
  match it with Generator pts => pts | Array a => rows a end.

Definition np_shape (it : iterable) : list Z :=
  match it with Generator _ => np.shape_of_object | Array a => np.shape a end.

(** The array arguments a constructor of the given class binds: the
    attribute [name] of the instance, [AttributeError] if there is none. *)
Definition arg_array (k : variant) (a : init_args) (name : string)
  : exn + list float :=
  let no := inl (AttributeError name) in
  let gridded := match k with SearchOverGridFile => false | _ => true end in
  let glitch := match k with GridGlitchSearch => true | _ => false end in
  if String.eqb name "F0s" then if gridded then inr (F0s a) else no
  else if String.eqb name "F1s" then if gridded then inr (F1s a) else no
  else if String.eqb name "F2s" then if gridded then inr (F2s a) else no
  else if String.eqb name "Alphas" then if gridded then inr (Alphas a) else no
  else if String.eqb name "Deltas" then if gridded then inr (Deltas a) else no
  else if String.eqb name "delta_F0s" then if glitch then inr (delta_F0s a) else no
  else if String.eqb name "delta_F1s" then if glitch then inr (delta_F1s a) else no
  else if String.eqb name "tglitchs" then
    match glitch, tglitchs a with true, Some l => inr l | _, _ => no end
  else no.

Definition is_transient_kind (k : variant) : bool :=
  match k with TransientGridSearch | SearchOverGridFile => true | _ => false end.

Section Methods.

Variable U : helpers.

(** *** Output schema *)

Definition twoF_keys (ev : evaluator) : list string :=
  if singleFstats ev then map (λ IFO, "twoF" +:+ IFO) (detector_names ev) else [].

(** [_set_output_keys] of [GridSearch] (also [GridGlitchSearch]) and of
    [TransientGridSearch] (also [SearchOverGridFile]). *)
Definition _set_output_keys (k : variant) (a : init_args)
    (search_keys : list string) (detstat : string) (ev : evaluator)
  : list string :=
  if is_transient_kind k then
    search_keys ++ ["twoF"] ++ twoF_keys ev
      ++ (if truthy (transientWindowType a) then ["maxTwoF"] else [])
      ++ (if has_twoFXatMaxTwoF ev
          then map (λ IFO, "twoF" +:+ IFO +:+ "atMaxTwoF") (detector_names ev)
          else [])
      ++ (if bool_decide (detstat ∈ ["twoF"; "maxTwoF"]) then [] else [detstat])
      ++ (if truthy (transientWindowType a)
          then ["t0_ML"; "tau_ML"] ++ (if BtSG a then ["t0_MP"; "tau_MP"] else [])
          else [])
  else
    search_keys ++ ["twoF"] ++ twoF_keys ev
      ++ (if BSGL a then [detstat] else []).

(** *** Output formats *)

Definition set_keys (d : dict.t string) (keys : list string) (f : string)
  : dict.t string :=
  fold_left (λ d k, dict.set d k f) keys d.

Definition _get_savetxt_fmt_dict (self : search_object) : dict.t string :=
  let ev := search self in
  let a := args self in
  let d := get_doppler_params_output_format U (output_keys self) (fmt_doppler U) in
  match kind self with
  | GridSearch =>
      let d := dict.set d "twoF" (fmt_detstat U) in
      let d := set_keys d (twoF_keys ev) (fmt_detstat U) in
      if BSGL a then dict.set d "log10BSGL" (fmt_detstat U) else d
  | TransientGridSearch | SearchOverGridFile =>
      let d := dict.set d "twoF" (fmt_detstat U) in
      let d := set_keys d (twoF_keys ev) (fmt_detstat U) in
      let d := dict.set d "maxTwoF" (fmt_detstat U) in
      let d := if has_twoFXatMaxTwoF ev
               then set_keys d (map (λ IFO, "twoF" +:+ IFO +:+ "atMaxTwoF")
                                    (detector_names ev)) (fmt_detstat U)
               else d in
      let d := if negb (String.eqb (detstat self) "maxTwoF")
               then dict.set d (detstat self) (fmt_detstat U) else d in
      let d := dict.set (dict.set d "t0_ML" "%d") "tau_ML" "%d" in
      if BtSG a then dict.set (dict.set d "t0_MP" "%d") "tau_MP" "%d" else d
  | GridGlitchSearch =>
      let d := dict.set d "delta_F0" (fmt_doppler U) in
      let d := dict.set d "delta_F1" (fmt_doppler U) in
      let d := dict.set d "tglitch" "%d" in
      dict.set d (detstat self) (fmt_detstat U)
  end.

(** [[fmt_dict[key] for key in self.output_keys]]. *)
Definition _get_savetxt_fmt_list (self : search_object) : exn + list string :=
  dict.getitems (_get_savetxt_fmt_dict self) (output_keys self).

Definition _get_tolerance_from_savetxt_fmt (self : search_object)
  : exn + dict.t tolerance * dict.t tolerance :=
  tolerances_of (_get_savetxt_fmt_dict self) [] [].

(** *** Construction *)

(** [for k in keys: setattr(self, k, np.atleast_1d(getattr(self, k + "s")))]. *)
Fixpoint bind_axes (k : variant) (a : init_args) (keys : list string)
    (axes : dict.t (list float)) : exn + dict.t (list float) :=
  match keys with
  | [] => inr axes
  | key :: keys' =>
      match arg_array k a (key +:+ "s") with
      | inr x => bind_axes k a keys' (dict.set axes key x)
      | inl e => inl e
      end
  end.

(** [_get_search_ranges] of the gridded classes. *)
Definition _get_search_ranges (k : variant) (a : init_args)
    (search_keys : list string) : exn + option (dict.t (list float)) :=
  match minCoverFreq a, maxCoverFreq a with
  | Some _, Some _ => inr None
  | _, _ =>
      match bind_axes k a search_keys [] with
      | inr d => inr (Some d)
      | inl e => inl e
      end
  end.

(** [_get_search_ranges] of [SearchOverGridFile]: the span of each column. *)
Fixpoint grid_spans (g : sarray) (keys : list string)
    (d : dict.t (list float)) : exn + dict.t (list float) :=
  match keys with
  | [] => inr d
  | key :: keys' =>
      match sa.field g key with
      | inr col =>
          match np_min col, np_max col with
          | inr lo, inr hi => grid_spans g keys' (dict.set d key [lo; hi])
          | inl e, _ | _, inl e => inl e
          end
      | inl e => inl e
      end
  end.

Definition _get_search_ranges_from_grid (a : init_args) (g : sarray)
    (search_keys : list string) : exn + option (dict.t (list float)) :=
  match minCoverFreq a, maxCoverFreq a with
  | Some _, Some _ => inr None
  | _, _ =>
      match grid_spans g search_keys [] with
      | inr d => inr (Some d)
      | inl e => inl e
      end
  end.

(** [self.minStartTime = lo; self.maxStartTime = hi]. *)
Definition set_start_times (a : init_args) (lo hi : option Z) : init_args :=
  InitArgs (F0s a) (F1s a) (F2s a) (Alphas a) (Deltas a) (delta_F0s a)
    (delta_F1s a) (tglitchs a) (sftfilepattern a) (nsegs a)
    (arg_singleFstats a) (BSGL a) (BtSG a) (minCoverFreq a) (maxCoverFreq a)
    (input_arrays a) (transientWindowType a) (outputTransientFstatMap a)
    (outputAtoms a) (clean a) (reading_method a) (gridfile a) lo hi.

(** [_initiate_search_object]: the evaluator is built here and nowhere
    else, from the attributes as they are then.  The method of [GridSearch]
    and the one of [TransientGridSearch], which [SearchOverGridFile]
    inherits, then overwrite [self.minStartTime] and [self.maxStartTime]
    with the evaluator's; the one of [GridGlitchSearch] does not.  The
    attributes come back with the evaluator. *)
Definition _initiate_search_object (k : variant) (a : init_args)
    (ranges : exn + option (dict.t (list float)))
  : M (evaluator * init_args) :=
  logger_info SettingUpSearchObject;;
  search_ranges ← lift ranges;
  match make_search U k a search_ranges with
  | inr ev =>
      modify (λ s, with_search_objects (S (search_objects s)) s);;
      mret (ev,
            match k with
            | GridGlitchSearch => a
            | _ => set_start_times a (search_minStartTime ev)
                     (search_maxStartTime ev)
            end)
  | inl code => raise (EvaluatorFailure code)
  end.

(** [GridSearch.__init__]. *)
Definition GridSearch__init__ (a : init_args) : M search_object :=
  axes ← lift (bind_axes GridSearch a (default_search_keys U) []);
  let search_keys := default_search_keys U in
  let detstat := if BSGL a then "log10BSGL" else "twoF" in
  logger_info (DetectionStatisticSetTo detstat);;
  built ← _initiate_search_object GridSearch a
            (_get_search_ranges GridSearch a search_keys);
  let ev := built.1 in
  let a' := built.2 in
  mret (SearchObject GridSearch a' search_keys axes None detstat ev
          (_set_output_keys GridSearch a' search_keys detstat ev)
          (get_output_file_header U a')).

(** [self.nsegs = 1]. *)
Definition set_nsegs (a : init_args) (n : Z) : init_args :=
  InitArgs (F0s a) (F1s a) (F2s a) (Alphas a) (Deltas a) (delta_F0s a)
    (delta_F1s a) (tglitchs a) (sftfilepattern a) n (arg_singleFstats a)
    (BSGL a) (BtSG a) (minCoverFreq a) (maxCoverFreq a) (input_arrays a)
    (transientWindowType a) (outputTransientFstatMap a) (outputAtoms a)
    (clean a) (reading_method a) (gridfile a) (minStartTime a)
    (maxStartTime a).

(** [self.BSGL = False; self.input_arrays = False]. *)
Definition clear_BSGL_input_arrays (a : init_args) : init_args :=
  InitArgs (F0s a) (F1s a) (F2s a) (Alphas a) (Deltas a) (delta_F0s a)
    (delta_F1s a) (tglitchs a) (sftfilepattern a) (nsegs a)
    (arg_singleFstats a) false (BtSG a) (minCoverFreq a) (maxCoverFreq a)
    false (transientWindowType a) (outputTransientFstatMap a)
    (outputAtoms a) (clean a) (reading_method a) (gridfile a)
    (minStartTime a) (maxStartTime a).

(** [TransientGridSearch.__init__]. *)
Definition TransientGridSearch__init__ (a0 : init_args) : M search_object :=
  let a := set_nsegs a0 1 in
  axes ← lift (bind_axes TransientGridSearch a (default_search_keys U) []);
  let search_keys := default_search_keys U in
  if BSGL a && BtSG a then raise (ValueError ChooseOnlyOne)
  else
    let detstat := if BSGL a then "log10BSGL"
                   else if BtSG a then "lnBtSG" else "maxTwoF" in
    logger_info (DetectionStatisticSetTo detstat);;
    built ← _initiate_search_object TransientGridSearch a
              (_get_search_ranges TransientGridSearch a search_keys);
    let ev := built.1 in
    let a' := built.2 in
    let self := SearchObject TransientGridSearch a' search_keys axes None
                  detstat ev
                  (_set_output_keys TransientGridSearch a' search_keys detstat ev)
                  (get_output_file_header U a') in
    (if outputTransientFstatMap a' then logger_info WillSaveFstatMaps
     else mret tt);;
    mret self.

(** [_translate_keys_from_cfsv2]. *)
Definition cfsv2_translation : dict.t string :=
  fold_left (λ d k, dict.set d ("f" +:+ pretty (S k) +:+ "dot")
                               ("F" +:+ pretty (S k)))
    (seq 0 (PULSAR_MAX_SPINS U - 1))
    [("freq", "F0"); ("alpha", "Alpha"); ("delta", "Delta")].

Definition _translate_keys_from_cfsv2 (keylist : list string) : list string :=
  map (λ key, default key (dict.get cfsv2_translation key)) keylist.

(** [_read_grid_with_numpy]: [len] of a zero-dimensional array raises.
    The two readers are taken as functions of the grid file: what they
    report to the logger on their way is not recorded in the state. *)
Definition _read_grid_with_numpy (a : init_args) : exn + sarray :=
  match gridfile a with
  | inl msg => inl (IOError msg)
  | inr (Grid0d _ _) => inl TypeError
  | inr (Grid1d g) =>
      if (sa.len g =? 0)%nat then inl (IOError "Got 0-length grid.")
      else inr (SArray (_translate_keys_from_cfsv2 (names g)) (rows g))
  end.

(** [_read_grid_with_pandas]: the frame is converted row by row, so the
    array is always one-dimensional. *)
Definition _read_grid_with_pandas (a : init_args) : exn + sarray :=
  match gridfile a with
  | inl msg => inl (IOError msg)
  | inr loaded =>
      let g := match loaded with
               | Grid0d fields row => SArray fields [row]
               | Grid1d g => g
               end in
      if (sa.len g =? 0)%nat then inl (IOError "Got 0-length grid.")
      else inr (SArray (_translate_keys_from_cfsv2 (names g)) (rows g))
  end.

(** [SearchOverGridFile.__init__]. *)
Definition SearchOverGridFile__init__ (a : init_args) : M search_object :=
  if (1 <? nsegs a) && bool_decide (transientWindowType a ≠ None)
  then raise (ValueError NsegsIncompatible)
  else
    g ← (if String.eqb (reading_method a) "numpy"
         then lift (_read_grid_with_numpy a)
         else if String.eqb (reading_method a) "pandas"
         then lift (_read_grid_with_pandas a)
         else raise (ValueError (InvalidReadingMethod (reading_method a))));
    let search_keys := names g in
    if BSGL a && BtSG a then raise (ValueError ChooseOnlyOne)
    else
      let detstat := if BSGL a then "log10BSGL"
                     else if BtSG a then "lnBtSG"
                     else if bool_decide (transientWindowType a ≠ None)
                     then "maxTwoF" else "twoF" in
      logger_info (DetectionStatisticSetTo detstat);;
      built ← _initiate_search_object SearchOverGridFile a
                (_get_search_ranges_from_grid a g search_keys);
      let ev := built.1 in
      let a' := built.2 in
      let self := SearchObject SearchOverGridFile a' search_keys [] (Some g)
                    detstat ev
                    (_set_output_keys SearchOverGridFile a' search_keys detstat ev)
                    (get_output_file_header U a') in
      (if outputTransientFstatMap a' then logger_info WillSaveFstatMaps
       else mret tt);;
      mret self.

(** [GridGlitchSearch.__init__]. *)
Definition GridGlitchSearch__init__ (a0 : init_args) : M search_object :=
  let a := clear_BSGL_input_arrays a0 in
  match tglitchs a with
  | None => raise (ValueError MustSpecifyTglitchs)
  | Some _ =>
      let search_keys :=
        default_search_keys U ++ ["delta_F0"; "delta_F1"; "tglitch"] in
      axes ← lift (bind_axes GridGlitchSearch a search_keys []);
      let detstat := "twoF" in
      built ← _initiate_search_object GridGlitchSearch a
                (_get_search_ranges GridGlitchSearch a search_keys);
      let ev := built.1 in
      let a' := built.2 in
      mret (SearchObject GridGlitchSearch a' search_keys axes None detstat ev
              (_set_output_keys GridGlitchSearch a' search_keys detstat ev)
              (get_output_file_header U a'))
  end.

(** *** The input grid *)

(** The loop of [_get_input_data_array] that expands every axis. *)
Definition expand_axes (self : search_object) : M (list (list float)) :=
  for_each (search_keys self) []
    (λ acc sl,
       x ← lift (match dict.get (axes self) sl with
                 | Some x => inr x
                 | None => inl (AttributeError sl)
                 end);
       ca ← _get_array_from_tuple (input_arrays (args self)) x;
       mret (acc ++ [ca])).

(** [_get_input_data_array], of [GridSearch] and, overridden, of
    [SearchOverGridFile]. *)
Definition _get_input_data_array (self : search_object) : M unit :=
  match kind self with
  | SearchOverGridFile =>
      logger_info GeneratingInputDataArrayFromGrid;;
      match grid self with
      | Some g =>
          modify (with_coord_arrays (rows g));;
          modify (with_total_iterations (Z.of_nat (sa.len g)));;
          if negb (clean (args self)) then modify (with_input_data g)
          else mret tt
      | None => raise (AttributeError "grid")
      end
  | _ =>
      logger_info GeneratingInputDataArray;;
      coord_arrays ← expand_axes self;
      modify (with_coord_arrays coord_arrays);;
      modify (with_total_iterations
                (fold_left Z.mul (map (λ ca, Z.of_nat (length ca)) coord_arrays) 1));;
      if negb (clean (args self))
      then modify (with_input_data (SArray (search_keys self) (product coord_arrays)))
      else mret tt
  end.

(** *** Cache validation *)

(** The list comprehension over [self.search_keys] at the end of
    [check_old_data_is_okay_to_use]. *)
Fixpoint column_matches (old_data input : sarray)
    (rtol atol : dict.t tolerance) (keys : list string) : exn + list bool :=
  match keys with
  | [] => inr []
  | key :: keys' =>
      match sa.field old_data key, sa.field input key,
            dict.getitem rtol key, dict.getitem atol key with
      | inr old, inr new, inr r, inr a =>
          match column_matches old_data input rtol atol keys' with
          | inr ms =>
              inr (npset.allclose old new (tolerance_value r) (tolerance_value a) :: ms)
          | inl e => inl e
          end
      | inl e, _, _, _ | _, inl e, _, _ | _, _, inl e, _ | _, _, _, inl e => inl e
      end
  end.

(** The second half of [check_old_data_is_okay_to_use], from "Loading old
    data" on: the stored table against the current input grid. *)
Definition compare_with_old_data (self : search_object) (f : stored_file)
  : M (option sarray) :=
  logger_info LoadingOldData;;
  let old_data := SArray (columns f) (table f) in
  input ← getattr "input_data" input_data;
  if negb (sa.len old_data =? sa.len input)%nat then
    n_old ← lift (np.tuple_index (np.shape old_data) 0);
    n_new ← lift (np.tuple_index (np.shape input) 0);
    logger_info (DiffersInLength n_old n_new);;
    mret None
  else if (sa.ncols old_data <? sa.ncols input)%nat then
    c_old ← lift (np.tuple_index (np.shape old_data) 1);
    c_new ← lift (np.tuple_index (np.shape input) 1);
    logger_info (HasLessColumns c_old c_new);;
    mret None
  else
    tols ← lift (_get_tolerance_from_savetxt_fmt self);
    matches ← lift (column_matches old_data input tols.1 tols.2
                      (search_keys self));
    if forallb id matches then
      logger_info (OldDataMatches (sa.len old_data) (sa.ncols old_data));;
      mret (Some old_data)
    else
      logger_info InputGridDiffers;; mret None.

(** The two fingerprints the header check compares. *)
Definition old_params_dict_str_list (f : stored_file) : list string :=
  read_parameters_dict_lines_from_file_header U (header f).

Definition new_params_dict_str_list (self : search_object) : list string :=
  map str.strip (slice_1_m1 (pprint_init_params_dict U (args self))).

(** [check_old_data_is_okay_to_use]: [Some old_data] when the stored table
    is reused, [None] for the [False] the method returns otherwise. *)
Definition check_old_data_is_okay_to_use (self : search_object)
  : M (option sarray) :=
  if clean (args self) then mret None
  else
    s ← get_state;
    match out_file s with
    | None => logger_info NoOldOutputFile;; mret None
    | Some f =>
        outdated ← match sftfilepattern (args self) with
                   | Some _ =>
                       oldest_sft ← lift (py_min (matching_sft_mtimes U));
                       mret (mtime f <? oldest_sft)
                   | None => mret false
                   end;
        if (outdated : bool) then logger_info OutputOutdatesSfts;; mret None
        else
          logger_info CheckingHeader;;
          let unmatched :=
            npset.setxor1d (old_params_dict_str_list f)
                           (new_params_dict_str_list self) in
          if (0 <? length unmatched)%nat
          then logger_info HeaderDoesNotMatch;; mret None
          else
            logger_info HeaderMatches;;
            compare_with_old_data self f
    end.

(** *** Filling one row *)

(** One call of the evaluator, counted. *)
Definition call_evaluator (r : Z + outputs) : M outputs :=
  modify (λ s, with_det_stat_calls (S (det_stat_calls s)) s);;
  match r with
  | inr out => mret out
  | inl code => raise (EvaluatorFailure code)
  end.

(** [for X, IFO in enumerate(names): thisCand[key(IFO)] = values[X]]. *)
Definition set_per_detector (thisCand : dict.t float) (names : list string)
    (key : string → string) (values : list float) : M (dict.t float) :=
  for_each (enumerate names) thisCand
    (λ c XI, v ← lift (list_index values XI.1); mret (dict.set c (key XI.2) v)).

(** The loop over [self.output_keys] that closes the dict-based paths. *)
Definition store_candidate (self : search_object) (thisCand : dict.t float)
    (data : sarray) (n : nat) : M sarray :=
  for_each (output_keys self) data
    (λ d key,
       if dict.mem thisCand key then
         v ← lift (dict.getitem thisCand key);
         lift (sa.set_cell d key n v)
       else raise (RuntimeError (CouldNotGetValue key))).

(** [GridSearch._get_single_cand_results]. *)
Definition GridSearch_get_single_cand_results (self : search_object)
    (data : sarray) (n : nat) (vals : list float) : M sarray :=
  let thisCand := dict.of_zip (search_keys self) vals in
  out ← call_evaluator (get_det_stat (search self) thisCand);
  let thisCand := dict.set thisCand "twoF" (twoF out) in
  thisCand ← (if singleFstats (search self)
              then set_per_detector thisCand (detector_names (search self))
                     (λ IFO, "twoF" +:+ IFO) (twoFX out)
              else mret thisCand);
  let thisCand := if negb (String.eqb (detstat self) "twoF")
                  then dict.set thisCand (detstat self) (returned out)
                  else thisCand in
  store_candidate self thisCand data n.

(** [get_transient_fstat_map_filename] on a dict: the five values that
    name the file. *)
Definition get_transient_fstat_map_filename (param_point : dict.t float)
  : exn + list float :=
  dict.getitems param_point ["F0"; "Alpha"; "Delta"; "F1"; "F2"].

(** [TransientGridSearch._get_single_cand_results]. *)
Definition TransientGridSearch_get_single_cand_results (self : search_object)
    (data : sarray) (n : nat) (vals : list float) : M sarray :=
  let thisCand := dict.of_zip (search_keys self) vals in
  out ← call_evaluator (get_det_stat (search self) thisCand);
  t ← getattr "timingFstatMap" timingFstatMap;
  modify (with_timingFstatMap (t + default 0%float (timing out))%float);;
  let thisCand := dict.set thisCand "twoF" (twoF out) in
  thisCand ← (if singleFstats (search self)
              then set_per_detector thisCand (detector_names (search self))
                     (λ IFO, "twoF" +:+ IFO) (twoFX out)
              else mret thisCand);
  thisCand ← match windowRange out with
             | Some _ =>
                 let c := dict.set thisCand "maxTwoF" (maxTwoF out) in
                 if has_twoFXatMaxTwoF (search self)
                 then set_per_detector c (detector_names (search self))
                        (λ IFO, "twoF" +:+ IFO +:+ "atMaxTwoF") (twoFXatMaxTwoF out)
                 else mret c
             | None => mret thisCand
             end;
  let thisCand := if bool_decide (detstat self ∈ ["twoF"; "maxTwoF"])
                  then thisCand
                  else dict.set thisCand (detstat self) (returned out) in
  thisCand ← (if truthy (transientWindowType (args self)) then
                match FstatMap out with
                | None => raise (RuntimeError ExpectedFstatMap)
                | Some fmap =>
                    (if outputTransientFstatMap (args self) then
                       tCWfile ← lift (get_transient_fstat_map_filename thisCand);
                       modify (λ s, with_tcw_files (tcw_files s ++ [tCWfile]) s)
                     else mret tt);;
                    let maxidx := get_maxF_idx fmap in
                    match windowRange out with
                    | None => raise (AttributeError "t0")
                    | Some w =>
                        let c := dict.set thisCand "t0_ML"
                                   (Binary64.of_Z (t0 w + maxidx.1 * dt0 w)) in
                        let c := dict.set c "tau_ML"
                                   (Binary64.of_Z (tau w + maxidx.2 * dtau w)) in
                        mret (if BtSG (args self)
                              then dict.set (dict.set c "t0_MP" (t0_MP fmap))
                                     "tau_MP" (tau_MP fmap)
                              else c)
                    end
                end
              else mret thisCand);
  store_candidate self thisCand data n.

(** [GridGlitchSearch._get_single_cand_results]: the values are placed by
    position. *)
Definition GridGlitchSearch_get_single_cand_results (self : search_object)
    (data : sarray) (n : nat) (vals : list float) : M sarray :=
  let thisCand := vals in
  out ← call_evaluator (get_det_stat_positional (search self) vals);
  let thisCand := thisCand ++ [twoF out] in
  let thisCand := if singleFstats (search self)
                  then thisCand ++ take (numDetectors (search self)) (twoFX out)
                  else thisCand in
  let thisCand := if negb (String.eqb (detstat self) "twoF")
                  then thisCand ++ [returned out] else thisCand in
  for_each (enumerate (output_keys self)) data
    (λ d kkey,
       v ← lift (list_index thisCand kkey.1);
       lift (sa.set_cell d kkey.2 n v)).

(** [self._get_single_cand_results], resolved by the class of [self]. *)
Definition _get_single_cand_results (self : search_object)
  : sarray → nat → list float → M sarray :=
  match kind self with
  | GridSearch => GridSearch_get_single_cand_results self
  | TransientGridSearch | SearchOverGridFile =>
      TransientGridSearch_get_single_cand_results self
  | GridGlitchSearch => GridGlitchSearch_get_single_cand_results self
  end.

(** *** Saving and running *)

(** The loop of [np.savetxt] over the rows: the lines written, as a reader
    gets them back, and the exception that ended the loop, if one did. *)
Fixpoint savetxt_rows (fmt : list string) (X : list (list float))
    (written : list (list float)) : list (list float) * option exn :=
  match X with
  | [] => (written, None)
  | row :: X' =>
      match savetxt_row U fmt row with
      | inr line => savetxt_rows fmt X' (written ++ [line])
      | inl e => (written, Some e)
      end
  end.

(** [np.savetxt(self.out_file, X, header=header, fmt=fmt)] with one format
    per column: the file is opened for writing, which empties it, the header
    is written and then the rows, one by one.  When the formatting of a row
    raises, the call ends there and the file keeps the header and the rows
    written before. *)
Definition savetxt (hdr columns fmt : list string) (X : sarray) : M unit :=
  λ s,
    let w := savetxt_rows fmt (rows X) [] in
    let s' := with_out_file (StoredFile (clock s) hdr columns w.1) s in
    match w.2 with
    | None => (inr tt, s')
    | Some e => (inl e, s')
    end.

(** [save_array_to_disk]. *)
Definition save_array_to_disk (self : search_object) : M unit :=
  logger_info SavingData;;
  outfmt ← lift (_get_savetxt_fmt_list self);
  d ← getattr "data" data;
  let Ncols := sa.ncols d in
  if negb (length outfmt =? Ncols)%nat
  then raise (RuntimeError (LengthsDoNotMatch Ncols (length outfmt)))
  else savetxt (output_file_header self) (output_keys self) outfmt
         (npset.nan_to_num d).

(** [for n, vals in enumerate(iterable): data = ...]. *)
Definition search_loop (self : search_object) (it : iterable) (data : sarray)
  : M sarray :=
  for_each (enumerate (iter it)) data
    (λ d nvals, _get_single_cand_results self d nvals.1 nvals.2).

(** [GridSearch.run(return_data)], which [GridGlitchSearch] inherits:
    [Some data] when the data set is returned, [None] otherwise. *)
Definition run (self : search_object) (return_data : bool)
  : M (option sarray) :=
  _get_input_data_array self;;
  first ← (if clean (args self) then
             cs ← getattr "coord_arrays" coord_arrays;
             mret (Generator (product cs), None)
           else
             old_data ← check_old_data_is_okay_to_use self;
             input ← getattr "input_data" input_data;
             mret (Array input, old_data));
  match first.2 with
  | Some old_data => modify (with_data old_data);; mret None
  | None =>
      let iterable := first.1 in
      n ← lift (np.tuple_index (np_shape iterable) 0);
      logger_info (RunningSearch n);;
      input ← getattr "input_data" input_data;
      let data := sa.zeros (sa.len input) (output_keys self) in
      data ← search_loop self iterable data;
      if return_data then mret (Some data)
      else modify (with_data data);; save_array_to_disk self;; mret None
  end.

(** *** The maximum over the grid *)

(** [{key: self.data[key][idx] for key in self.output_keys}]. *)
Fixpoint row_dict (d : sarray) (idx : nat) (keys : list string)
    (acc : dict.t float) : exn + dict.t float :=
  match keys with
  | [] => inr acc
  | key :: keys' =>
      match sa.cell d key idx with
      | inr v => row_dict d idx keys' (dict.set acc key v)
      | inl e => inl e
      end
  end.

Definition max_of_column (self : search_object) (column : string)
  : M (dict.t float) :=
  d ← getattr "data" data;
  col ← lift (sa.field d column);
  idx ← lift (npset.argmax col);
  lift (row_dict d idx (output_keys self) []).

Definition get_max_det_stat (self : search_object) : M (dict.t float) :=
  max_of_column self (detstat self).

Definition get_max_twoF (self : search_object) : M (dict.t float) :=
  max_of_column self "twoF".

End Methods.

(** ** [utils.runlalsuite]: translating parameter names *)

(** [d.pop(k)]: the value and the dict without the entry; [KeyError] when
    there is none. *)
Fixpoint pop {V} (d : dict.t V) (k : string) : exn + V * dict.t V :=
  match d with
  | [] => inl (KeyError k)
  | (k', v) :: d' =>
      if String.eqb k' k then inr (v, d')
      else match pop d' k with
           | inr (w, d'') => inr (w, (k', v) :: d'')
           | inl e => inl e
           end
  end.

(** [d.update(other)]. *)
Definition update {V} (d other : dict.t V) : dict.t V :=
  fold_left (λ acc kv, dict.set acc kv.1 kv.2) other d.

(** The dict [translation] of [translate_keys_to_lal]; [max_spins] is
    [lalpulsar.PULSAR_MAX_SPINS]. *)
Definition lal_translation (max_spins : nat) : dict.t string :=
  let translation := [("F0", "Freq")] in
  let translation :=
    update translation
      (map (λ k, ("F" +:+ pretty (k + 1)%nat, "f" +:+ pretty (k + 1)%nat +:+ "dot"))
         (seq 0 (max_spins - 1))) in
  update translation
    [("phi", "phi0"); ("tref", "refTime"); ("asini", "orbitasini");
     ("period", "orbitPeriod"); ("tp", "orbitTp"); ("argp", "orbitArgp");
     ("ecc", "orbitEcc"); ("transient_tstart", "transient-t0Epoch");
     ("transient_duration", "transient-tau")].

(** [for key in keys_to_translate:
       translated_dict[translation[key]] = translated_dict.pop(key)]. *)
Fixpoint translate_keys {V} (translation : dict.t string)
    (keys_to_translate : list string) (translated_dict : dict.t V)
  : exn + dict.t V :=
  match keys_to_translate with
  | [] => inr translated_dict
  | key :: keys =>
      match pop translated_dict key with
      | inl e => inl e
      | inr (v, d) =>
          match dict.getitem translation key with
          | inl e => inl e
          | inr t => translate_keys translation keys (dict.set d t v)
          end
      end
  end.

(** [translate_keys_to_lal(dictionary)]. *)
Definition translate_keys_to_lal (max_spins : nat) {V} (dictionary : dict.t V)
  : exn + dict.t V :=
  let translation := lal_translation max_spins in
  let keys_to_translate :=
    filter (λ key, dict.mem translation key = true) dictionary.*1 in
  translate_keys translation keys_to_translate dictionary.

(** ** [utils.sft]: the command line in the comment of an SFT *)

Module sft.

(** [s.startswith(p)]. *)
Fixpoint startswith (p s : string) : bool :=
  match p, s with
  | EmptyString, _ => true
  | String a p', String b s' => Ascii.eqb a b && startswith p' s'
  | String _ _, EmptyString => false
  end.

(** [sub in s]. *)
Fixpoint contains (sub s : string) : bool :=
  startswith sub s
  || match s with
     | String _ s' => contains sub s'
     | EmptyString => false
     end.

(** [s.split("\n")]: the pieces between the line feeds, one more than there
    are line feeds. *)
Fixpoint split_lines (s : string) : list string :=
  match s with
  | EmptyString => [EmptyString]
  | String c s' =>
      if Ascii.eqb c "010"%char then EmptyString :: split_lines s'
      else match split_lines s' with
           | line :: lines => String c line :: lines
           | [] => [String c EmptyString]
           end
  end.

(** [next((line for line in lines if cond(line)), default)]. *)
Fixpoint next_where (cond : string → bool) (lines : list string)
    (default : string) : string :=
  match lines with
  | [] => default
  | line :: lines' => if cond line then line else next_where cond lines' default
  end.

Definition names_executable (line : string) : bool :=
  contains "lalpulsar" line || contains "lalapps" line.

(** [get_commandline_from_SFTDescriptor(descriptor)], on the [comment]
    attribute of the descriptor, [None] when there is none. *)
Definition get_commandline_from_SFTDescriptor (comment : option string)
  : string :=
  match comment with
  | None => ""
  | Some comment =>
      let comment_lines := split_lines comment in
      next_where names_executable comment_lines ""
  end.

End sft.

(** ** [utils.runlalsuite]: the covering band *)

Module runlalsuite.

(** What the functions of the module raise. *)
Inductive error : Type :=
| InvalidCoverFreqPair (minCoverFreq maxCoverFreq : float)
| CannotDealWithGlitchParameters
| LibraryFailure (code : Z).

(** [lalpulsar.PulsarSpinRange]. *)
Record PulsarSpinRange : Type := SpinRange {
  fkdot : list float;
  fkdotBand : list float;
  refTime : Z
}.

(** [get_covering_band]; [CWSignalCoveringBand] is lalpulsar's
    [XLALCWSignalCoveringBand], which gives the pair or fails with a code. *)
Definition get_covering_band
    (CWSignalCoveringBand :
       Z → Z → PulsarSpinRange → float → float → float → Z + float * float)
    (tref tstart tend : Z) (fkdot fkdotBand : list float)
    (maxOrbitAsini minOrbitPeriod maxOrbitEcc : float)
  : error + float * float :=
  let psr := SpinRange fkdot fkdotBand tref in
  match CWSignalCoveringBand tstart tend psr maxOrbitAsini minOrbitPeriod
          maxOrbitEcc with
  | inl code => inl (LibraryFailure code)
  | inr (minCoverFreq, maxCoverFreq) =>
      if PrimFloat.is_nan minCoverFreq
         || PrimFloat.is_nan maxCoverFreq
         || (minCoverFreq <=? 0)%float
         || (maxCoverFreq <=? 0)%float
         || (maxCoverFreq <? minCoverFreq)%float
      then inl (InvalidCoverFreqPair minCoverFreq maxCoverFreq)
      else inr (minCoverFreq, maxCoverFreq)
  end.

End runlalsuite.

(** ** [utils.runlalsuite]: the loudest candidate *)

Module loudest.

(** The values the options of the command line take. *)
Inductive pyvalue : Type :=
| PNone
| PInt (z : Z)
| PFloat (x : float)
| PStr (s : string).

(** [bool(v)]. *)
Definition truth (v : pyvalue) : bool :=
  match v with
  | PNone => false
  | PInt z => negb (z =? 0)
  | PFloat x => negb (x =? 0)%float
  | PStr s => negb (String.eqb s "")
  end.

(** What the function does besides returning: its two log records and the
    command it runs. *)
Inductive event : Type :=
| RunningCFSv2 (max_params : dict.t pyvalue)
| ReportsStandardTwoF
| Ran (cmd : string).

(** [sep.join(l)]. *)
Fixpoint join (sep : string) (l : list string) : string :=
  match l with
  | [] => ""
  | [x] => x
  | x :: l' => x +:+ sep +:+ join sep l'
  end.

Definition quote : string := String "034"%char "".

(** [generate_loudest_file]; [str_of] is Python's [format] of a value,
    [path_join] is [os.path.join] and [run_commandline] the function of
    [utils.cli], which may fail with a code. *)
Definition generate_loudest_file
    (str_of : pyvalue → string) (path_join : string → string → string)
    (run_commandline : string → Z + unit)
    (max_params : dict.t pyvalue) (tref : pyvalue)
    (outdir label sftfilepattern : string)
    (minStartTime maxStartTime transientWindowType earth_ephem sun_ephem
       : pyvalue)
  : list event * (runlalsuite.error + string) :=
  let log := [RunningCFSv2 max_params] in
  if existsb (λ key, dict.mem max_params key) ["delta_F0"; "delta_F1"; "tglitch"]
  then (log, inl runlalsuite.CannotDealWithGlitchParameters)
  else
    let log := if truth transientWindowType then log ++ [ReportsStandardTwoF]
               else log in
    let loudest_file := path_join outdir (label +:+ ".loudest") in
    let cmd := "lalpulsar_ComputeFstatistic_v2" in
    let CFSv2_params :=
      [("DataFiles", PStr (quote +:+ sftfilepattern +:+ quote));
       ("outputLoudest", PStr loudest_file);
       ("refTime", tref)] in
    let CFSv2_params := update CFSv2_params max_params in
    let opt_params :=
      [("minStartTime", minStartTime);
       ("maxStartTime", maxStartTime);
       ("transient-WindowType", transientWindowType);
       ("ephemEarth", earth_ephem);
       ("ephemSun", sun_ephem)] in
    let CFSv2_params :=
      update CFSv2_params (filter (λ kv, truth kv.2 = true) opt_params) in
    let cmd :=
      cmd +:+ " "
      +:+ join " " (map (λ kv, "--" +:+ kv.1 +:+ "=" +:+ str_of kv.2)
                      CFSv2_params) in
    match run_commandline cmd with
    | inl code => (log ++ [Ran cmd], inl (runlalsuite.LibraryFailure code))
    | inr _ => (log ++ [Ran cmd], inr loudest_file)
    end.

End loudest.

(** ** GridSearch: the loudest candidate *)

(** [if key in d.keys(): d.pop(key)]. *)
Definition discard {V} (d : dict.t V) (key : string) : exn + dict.t V :=
  if dict.mem d key then
    match pop d key with
    | inr (_, d') => inr d'
    | inl e => inl e
    end
  else inr d.

(** [generate_loudest]: [translate_keys_to_lal] is the method of the base
    class and [generate_loudest_file] the function of [utils] applied to the
    attributes of the search; the name it returns is what is stored in
    [self.loudest_file]. *)
Definition generate_loudest
    (translate_keys_to_lal : dict.t float → exn + dict.t float)
    (generate_loudest_file : dict.t float → M string)
    (self : search_object) : M string :=
  max_params ← get_max_twoF self;
  max_params ← lift (discard max_params "twoF");
  max_params ← for_each [detstat self; "t0_ML"; "tau_ML"; "t0_MP"; "tau_MP"]
                 max_params (λ d key, lift (discard d key));
  max_params ← lift (translate_keys_to_lal max_params);
  generate_loudest_file max_params.

(** * Vocabulary of the statements *)

(** The last character of [s], if any, is a decimal digit. *)
Fixpoint ends_with_digit (s : string) : bool :=
  match s with
  | EmptyString => false
  | String c EmptyString => str.is_digit c
  | String _ s' => ends_with_digit s'
  end.

(** [f] is [pre ++ digits ++ conv]: a conversion [conv] with the number [P]
    written right before it.  In [%.16g] that number is the precision; in
    [%8g], where no precision is written, it is the field width. *)
Definition ends_in_number (f : string) (conv : ascii) (P : Z) : Prop :=
  ∃ (pre : string) (ds : list ascii),
    f = pre +:+ string_of_list_ascii ds +:+ String conv EmptyString
    ∧ ends_with_digit pre = false
    ∧ ds ≠ []
    ∧ Forall (λ c, str.is_digit c = true) ds
    ∧ P = str.int_of_digits ds.

(** The rule for one column: what its format gives as [(rtol, atol)]. *)
Inductive tolerance_rule (f : string) : tolerance → tolerance → Prop :=
| rule_integer :
    str.endswith f "d" = true → tolerance_rule f Tol0 Tol0
| rule_significant (P : Z) :
    ends_in_number f "g" P → tolerance_rule f (TolPow10 (1 - P)) Tol0
| rule_fixed (D : Z) :
    ends_in_number f "f" D → tolerance_rule f Tol0 (TolPow10 (- D)).

(** A format the rule gives a tolerance for. *)
Definition supported (f : string) : Prop := ∃ x y, tolerance_rule f x y.

(** A format that ends in none of [d], [g], [f]. *)
Definition unsupported (f : string) : Prop :=
  str.endswith f "d" = false ∧ str.endswith f "g" = false
  ∧ str.endswith f "f" = false.

(** ** A concrete setting

    An environment in the package's usual configuration: the five Doppler
    parameters as search keys, sixteen significant digits for them and nine
    for the detection statistic, a reader that gets back the doubles that
    were written, and an evaluator that returns one constant. *)
Module demo.

Definition doppler_keys : list string := ["F0"; "F1"; "F2"; "Alpha"; "Delta"].

Definition doppler_format (keys : list string) (f : string) : dict.t string :=
  fold_left (λ d k, if bool_decide (k ∈ keys) then dict.set d k f else d)
    doppler_keys [].

Definition constant_outputs (c : float) : outputs :=
  Outputs c c [] None 0%float [] None None.

Definition constant_evaluator (c : float) : evaluator :=
  Evaluator false [] 0 false
    (λ _, inr (constant_outputs c)) (λ _, inr (constant_outputs c))
    None None.

Definition params_lines : list string :=
  ["{"; "  'Alphas': [0.5],"; "  'F0s': [10.0, 10.002, 0.001],"; "}"].

Definition env (c : float) : helpers :=
  Helpers doppler_keys "%.16g" "%.9g" doppler_format
    (λ _, params_lines) (λ _, params_lines)
    (λ h, map str.strip (slice_1_m1 h))
    (λ _ row, inr row)
    (λ _ _ _, inr (constant_evaluator c))
    [50] 7.

(** [F0s = (10.0, 10.002, 0.001)], [Alphas = [0.5]], the other axes fixed
    at zero. *)
Definition grid_args (clean BSGL BtSG : bool) : init_args :=
  InitArgs [10%float; 0x1.4010624dd2f1bp+3%float; 0x1.0624dd2f1a9fcp-10%float]
    [0%float] [0%float] [0.5%float] [0%float] [] [] None (Some "*.sft") 1
    false BSGL BtSG None None false None false false clean "numpy" (inl "")
    None None.

Definition initial_state : state :=
  State [] 0 0 100 None [] None None None None None.

(** The [GridSearch] object its constructor builds from [grid_args]. *)
Definition grid_search (c : float) : search_object :=
  let a := grid_args false false false in
  SearchObject GridSearch a doppler_keys
    [("F0", F0s a); ("F1", F1s a); ("F2", F2s a);
     ("Alpha", Alphas a); ("Delta", Deltas a)]
    None "twoF" (constant_evaluator c)
    (doppler_keys ++ ["twoF"]) params_lines.

(** The same arguments with a two-point grid file in the external naming
    convention. *)
Definition gridfile_args (BSGL BtSG : bool) : init_args :=
  InitArgs [] [] [] [] [] [] [] None (Some "*.sft") 1
    false BSGL BtSG None None false None false false false "numpy"
    (inr (Grid1d (SArray ["freq"; "alpha"; "delta"; "f1dot"; "f2dot"]
                    [[10%float; 0.5%float; 0%float; 0%float; 0%float];
                     [11%float; 0.5%float; 0%float; 0%float; 0%float]])))
    None None.

(** A transient search with a rectangular window and the Bayes factor
    [lnBtSG] as detection statistic; at every point the evaluator reports the
    window range [t0 = 1000, dt0 = 10, tau = 20, dtau = 5], the maximum of
    its F-statistic map in cell [(3, 4)] and the posterior estimates
    [(1025, 42)]. *)
Definition transient_outputs : outputs :=
  Outputs 7%float 5%float [] (Some (WindowRange 1000 10 20 5)) 6%float []
    (Some (FstatMapObj (3, 4) 1025%float 42%float)) None.

Definition transient_evaluator : evaluator :=
  Evaluator false [] 0 false
    (λ _, inr transient_outputs) (λ _, inr transient_outputs) None None.

Definition transient_args : init_args :=
  InitArgs [10%float] [0%float] [0%float] [0.5%float] [0%float] [] [] None
    (Some "*.sft") 1 false false true None None false (Some "rect") false
    false false "numpy" (inl "") None None.

Definition transient_search : search_object :=
  SearchObject TransientGridSearch transient_args doppler_keys
    [("F0", [10%float]); ("F1", [0%float]); ("F2", [0%float]);
     ("Alpha", [0.5%float]); ("Delta", [0%float])]
    None "lnBtSG" transient_evaluator
    (_set_output_keys TransientGridSearch transient_args doppler_keys
       "lnBtSG" transient_evaluator)
    params_lines.

Definition transient_state : state :=
  State [] 0 0 100 None [] None None None None (Some 0%float).

(** An output file of an earlier run over the same grid, written at time
    [100]. *)
Definition stored (table : list (list float)) : stored_file :=
  StoredFile 100 params_lines (doppler_keys ++ ["twoF"]) table.

Definition state_with_file (f : stored_file) (input : option sarray) : state :=
  State [] 0 0 101 (Some f) [] None None input None None.

(** The state in which the first run of [grid_search c] leaves the program,
    and the table that run has computed. *)
Definition after_run (c : float) : state :=
  (run (env c) (grid_search c) false initial_state).2.

Definition table (c : float) : sarray :=
  default (SArray [] []) (data (after_run c)).

(** The second run over the same grid: the state once the grid has been set
    up again, and once the stored file has then been validated. *)
Definition regridded (c : float) : state :=
  (_get_input_data_array (grid_search c) (after_run c)).2.

Definition revalidated (c : float) : state :=
  (check_old_data_is_okay_to_use (env c) (grid_search c) (regridded c)).2.

(** The same search with an evaluator that fails with [code] at every
    point. *)
Definition failing_evaluator (code : Z) : evaluator :=
  Evaluator false [] 0 false (λ _, inl code) (λ _, inl code) None None.

Definition failing_search (code : Z) : search_object :=
  let a := grid_args false false false in
  SearchObject GridSearch a doppler_keys
    [("F0", F0s a); ("F1", F1s a); ("F2", F2s a);
     ("Alpha", Alphas a); ("Delta", Deltas a)]
    None "twoF" (failing_evaluator code)
    (doppler_keys ++ ["twoF"]) params_lines.

(** A glitch search over the same frequencies whose evaluator reports the
    statistic of the single detector [H1] as well. *)
Definition glitch_evaluator : evaluator :=
  Evaluator true ["H1"] 1 false
    (λ _, inr (Outputs 1 1 [1%float] None 0%float [] None None))
    (λ _, inr (Outputs 1 1 [1%float] None 0%float [] None None))
    None None.

Definition glitch_args : init_args :=
  InitArgs [10%float] [0%float] [0%float] [0.5%float] [0%float]
    [0%float] [0%float] (Some [0%float]) (Some "*.sft") 1
    true false false None None false None false false false "numpy" (inl "")
    None None.

Definition glitch_search : search_object :=
  let keys := doppler_keys ++ ["delta_F0"; "delta_F1"; "tglitch"] in
  SearchObject GridGlitchSearch glitch_args keys
    [("F0", [10%float]); ("F1", [0%float]); ("F2", [0%float]);
     ("Alpha", [0.5%float]); ("Delta", [0%float]); ("delta_F0", [0%float]);
     ("delta_F1", [0%float]); ("tglitch", [0%float])]
    None "twoF" glitch_evaluator
    (_set_output_keys GridGlitchSearch glitch_args keys "twoF" glitch_evaluator)
    params_lines.

(** The input grid of the first run of [grid_search c]. *)
Definition input (c : float) : sarray :=
  default (SArray [] []) (input_data (after_run c)).

(** The transient search above with [outputTransientFstatMap] on. *)
Definition map_args : init_args :=
  InitArgs [10%float] [0%float] [0%float] [0.5%float] [0%float] [] [] None
    (Some "*.sft") 1 false false true None None false (Some "rect") true
    false false "numpy" (inl "") None None.

Definition map_search : search_object :=
  SearchObject TransientGridSearch map_args doppler_keys
    [("F0", [10%float]); ("F1", [0%float]); ("F2", [0%float]);
     ("Alpha", [0.5%float]); ("Delta", [0%float])]
    None "lnBtSG" transient_evaluator
    (_set_output_keys TransientGridSearch map_args doppler_keys
       "lnBtSG" transient_evaluator)
    params_lines.

(** A writer that cannot format a NaN (as under the format [%d]) and reads
    every other row back as it is, and the environment with that writer. *)
Definition nan_refusing (fmt : list string) (row : list float)
  : exn + list float :=
  if existsb PrimFloat.is_nan row then inl (ValueError CannotConvertNaN)
  else inr row.

Definition strict_env (c : float) : helpers :=
  Helpers doppler_keys "%.16g" "%.9g" doppler_format
    (λ _, params_lines) (λ _, params_lines)
    (λ h, map str.strip (slice_1_m1 h))
    nan_refusing
    (λ _ _ _, inr (constant_evaluator c))
    [50] 7.

(** The environment above with the plain format [%g] for the detection
    statistic. *)
Definition plain_env (c : float) : helpers :=
  Helpers doppler_keys "%.16g" "%g" doppler_format
    (λ _, params_lines) (λ _, params_lines)
    (λ h, map str.strip (slice_1_m1 h))
    (λ _ row, inr row)
    (λ _ _ _, inr (constant_evaluator c))
    [50] 7.

(** Output files of an earlier run whose header holds the parameter lines in
    another order, one of them twice, and one whose header has one line
    changed. *)
Definition shuffled : stored_file :=
  StoredFile 100
    ["{"; "  'F0s': [10.0, 10.002, 0.001],"; "  'Alphas': [0.5],";
     "  'F0s': [10.0, 10.002, 0.001],"; "}"]
    (doppler_keys ++ ["twoF"]) [].

Definition edited : stored_file :=
  StoredFile 100
    ["{"; "  'Alphas': [0.6],"; "  'F0s': [10.0, 10.002, 0.001],"; "}"]
    (doppler_keys ++ ["twoF"]) [].

(** An evaluator that has read the span of its data, one day from GPS time
    [1000000000], the environment that builds it, and the [GridSearch]
    object the constructor builds from [grid_args] there: the arguments
    leave both start times open, the object holds the evaluator's. *)
Definition timed_evaluator (c : float) : evaluator :=
  Evaluator false [] 0 false
    (λ _, inr (constant_outputs c)) (λ _, inr (constant_outputs c))
    (Some 1000000000) (Some 1000086400).

Definition timed_env (c : float) : helpers :=
  Helpers doppler_keys "%.16g" "%.9g" doppler_format
    (λ _, params_lines) (λ _, params_lines)
    (λ h, map str.strip (slice_1_m1 h))
    (λ _ row, inr row)
    (λ _ _ _, inr (timed_evaluator c))
    [50] 7.

Definition timed_search (c : float) : search_object :=
  let a := set_start_times (grid_args false false false)
             (Some 1000000000) (Some 1000086400) in
  SearchObject GridSearch a doppler_keys
    [("F0", F0s a); ("F1", F1s a); ("F2", F2s a);
     ("Alpha", Alphas a); ("Delta", Deltas a)]
    None "twoF" (timed_evaluator c)
    (doppler_keys ++ ["twoF"]) params_lines.

End demo.

(** The stored file is not older than the oldest of the SFT files the search
    reads (or the search reads none). *)
Definition not_outdated (U : helpers) (self : search_object) (f : stored_file)
  : Prop :=
  match sftfilepattern (args self) with
  | Some _ => ∃ t, py_min (matching_sft_mtimes U) = inr t ∧ t <= mtime f
  | None => True
  end.

(** The state right after the header check has been passed, or failed. *)
Definition after_header_check (verdict : logmsg) (s : state) : state :=
  with_log (λ l, l ++ [verdict]) (with_log (λ l, l ++ [CheckingHeader]) s).

(** Every row of a structured array has one cell per field. *)
Definition well_formed (a : sarray) : Prop :=
  Forall (λ r, length r = length (names a)) (rows a).

(** One step of the loops that write a row: compute the value of an item,
    store it in the column the item names. *)
Definition place {X} (key_of : X → string) (value_of : X → exn + float)
    (n : nat) (d : sarray) (x : X) : M sarray :=
  v ← lift (value_of x); lift (sa.set_cell d (key_of x) n v).


(** The grid file can be read with the reader the arguments name. *)
Definition grid_loads (U : helpers) (a : init_args) : Prop :=
  (reading_method a = "numpy" ∧ ∃ g, _read_grid_with_numpy U a = inr g)
  ∨ (reading_method a = "pandas" ∧ ∃ g, _read_grid_with_pandas U a = inr g).

(** What the loop over [self.output_keys] takes from the candidate dict for
    one key. *)
Definition candidate_value (thisCand : dict.t float) (key : string)
  : exn + float :=
  if dict.mem thisCand key then dict.getitem thisCand key
  else inl (RuntimeError (CouldNotGetValue key)).

(** The order of the doubles other than NaN, as a lexicographic order on
    triples of integers: sign class, exponent, mantissa. *)
Definition rank (x : spec_float) : Z * Z * Z :=
  match x with
  | S754_zero _ => (0, 0, 0)
  | S754_infinity s => (if s then -2 else 2, 0, 0)
  | S754_nan => (3, 0, 0)
  | S754_finite s m e => if s then (-1, - e, - Z.pos m) else (1, e, Z.pos m)
  end.

Definition lex3 (r1 r2 : Z * Z * Z) : comparison :=
  match r1.1.1 ?= r2.1.1 with
  | Eq => match r1.1.2 ?= r2.1.2 with
          | Eq => r1.2 ?= r2.2
          | c => c
          end
  | c => c
  end.

(** No entry of the column is a NaN. *)
Definition nan_free (col : list float) : Prop :=
  Forall (λ x, PrimFloat.is_nan x = false) col.

(** [idx] is the first index at which [col] takes its largest value. *)
Definition first_maximum (col : list float) (idx : nat) : Prop :=
  ∃ v, col !! idx = Some v
       ∧ (∀ j w, col !! j = Some w → (w <=? v)%float = true)
       ∧ (∀ j w, (j < idx)%nat → col !! j = Some w → (w <? v)%float = true).

(** The dict [m] holds, under the output keys and no others, the cells of
    row [idx] of the table [d]. *)
Definition row_at (self : search_object) (d : sarray) (idx : nat)
    (m : dict.t float) : Prop :=
  (∀ key, key ∈ output_keys self →
     ∃ v, dict.get m key = Some v ∧ sa.cell d key idx = inr v)
  ∧ (∀ key, key ∉ output_keys self → dict.get m key = None).

(** On every search key the stored column [old] agrees with the column of
    the current grid [input], within the tolerances the output formats
    give. *)
Definition columns_agree (U : helpers) (self : search_object)
    (old input : sarray) : Prop :=
  ∃ tols, _get_tolerance_from_savetxt_fmt U self = inr tols
    ∧ ∀ key, key ∈ search_keys self →
        ∃ oc nc r a,
          sa.field old key = inr oc ∧ sa.field input key = inr nc
          ∧ dict.getitem tols.1 key = inr r ∧ dict.getitem tols.2 key = inr a
          ∧ npset.allclose oc nc (tolerance_value r) (tolerance_value a) = true.

(** Whatever a computation returns, the states before and after it are
    related by [R]. *)
Definition preserves {A} (R : state → state → Prop) (m : M A) : Prop :=
  ∀ s r s', m s = (r, s') → R s s'.

(** What filling rows may change: the evaluator has been called [k] more
    times, and apart from the counter only the time spent on F-statistic
    maps and the list of map files written can differ. *)
Definition row_effects (k : nat) (s s' : state) : Prop :=
  det_stat_calls s' = (det_stat_calls s + k)%nat
  ∧ log s' = log s
  ∧ search_objects s' = search_objects s
  ∧ clock s' = clock s
  ∧ out_file s' = out_file s
  ∧ coord_arrays s' = coord_arrays s
  ∧ total_iterations s' = total_iterations s
  ∧ input_data s' = input_data s
  ∧ data s' = data s.

(** [d'] has the fields and the number of rows of [d]. *)
Definition same_shape (d d' : sarray) : Prop :=
  names d' = names d ∧ sa.len d' = sa.len d.

(** Between [s] and [s'] nothing has been written to the output file. *)
Definition no_file_written (s s' : state) : Prop :=
  out_file s' = out_file s ∧ clock s' = clock s.

(** When the computation raises, the states before and after it are related
    by [R]. *)
Definition fails_within {A} (R : state → state → Prop) (m : M A) : Prop :=
  ∀ s e s', m s = (inl e, s') → R s s'.

(** The names [translate_keys_to_lal] gives the spin-down of order [j + 1],
    before and after translation. *)
Definition spin_source (j : nat) : string := "F" +:+ pretty (j + 1)%nat.
Definition spin_target (j : nat) : string :=
  "f" +:+ pretty (j + 1)%nat +:+ "dot".

(** The entries of [translation] that do not depend on the number of
    spin-downs. *)
Definition fixed_translation : dict.t string :=
  [("phi", "phi0"); ("tref", "refTime"); ("asini", "orbitasini");
   ("period", "orbitPeriod"); ("tp", "orbitTp"); ("argp", "orbitArgp");
   ("ecc", "orbitEcc"); ("transient_tstart", "transient-t0Epoch");
   ("transient_duration", "transient-tau")].

(** The first character of [s] is a decimal digit. *)
Definition starts_with_digit (s : string) : Prop :=
  match s with
  | String c _ => str.is_digit c = true
  | EmptyString => False
  end.

(** [lines] joined by line feeds. *)
Fixpoint join_lines (lines : list string) : string :=
  match lines with
  | [] => ""
  | [line] => line
  | line :: lines' => line +:+ String "010" (join_lines lines')
  end.

(** No character of [s] is a line feed. *)
Fixpoint one_line (s : string) : Prop :=
  match s with
  | EmptyString => True
  | String c s' => c ≠ "010"%char ∧ one_line s'
  end.

(** The text [line] has [lalpulsar] or [lalapps] in it. *)
Definition mentions_executable (line : string) : Prop :=
  ∃ p q, line = p +:+ "lalpulsar" +:+ q ∨ line = p +:+ "lalapps" +:+ q.

(** The options [generate_loudest_file] puts on the command line: what the
    caller passes for the optional arguments, when it is true as a
    condition, comes before the entries of [max_params], and those before
    the three the function sets itself. *)
Definition loudest_option (max_params : dict.t loudest.pyvalue)
    (defaults optional : dict.t loudest.pyvalue) (key : string)
  : option loudest.pyvalue :=
  match dict.get optional key with
  | Some v => if loudest.truth v then Some v
              else match dict.get max_params key with
                   | Some w => Some w
                   | None => dict.get defaults key
                   end
  | None => match dict.get max_params key with
            | Some w => Some w
            | None => dict.get defaults key
            end
  end.

(** The columns [generate_loudest] takes out of the row of the maximum. *)
Definition not_passed_on (self : search_object) : list string :=
  ["twoF"; detstat self; "t0_ML"; "tau_ML"; "t0_MP"; "tau_MP"].

(** The helper [get_doppler_params_output_format] gives a format to every
    search key of [self]. *)
Definition doppler_formats_cover (U : helpers) (self : search_object) : Prop :=
  ∀ key, key ∈ search_keys self →
    is_Some (dict.get (get_doppler_params_output_format U (output_keys self)
                         (fmt_doppler U)) key).

(** [self] is as the constructor of its class leaves it: the output keys are
    those of [_set_output_keys], and with [BSGL] the detection statistic is
    [log10BSGL]. *)
Definition constructed (self : search_object) : Prop :=
  output_keys self
  = _set_output_keys (kind self) (args self) (search_keys self) (detstat self)
      (search self)
  ∧ (BSGL (args self) = true → detstat self = "log10BSGL").

(** [self] is a [GridSearch] as [GridSearch.__init__] leaves it. *)
Definition grid_search_constructed (self : search_object) : Prop :=
  kind self = GridSearch
  ∧ output_keys self
    = _set_output_keys GridSearch (args self) (search_keys self) (detstat self)
        (search self)
  ∧ detstat self = (if BSGL (args self) then "log10BSGL" else "twoF").

(** Row [n] of the table [d] holds the grid point [row] under the search
    keys and what the evaluator gives at that point: [twoF] and, with
    [BSGL], the detection statistic. *)
Definition row_evaluated (self : search_object) (d : sarray) (n : nat)
    (row : list float) : Prop :=
  ∃ out,
    get_det_stat (search self) (dict.of_zip (search_keys self) row) = inr out
    ∧ (∀ i key v, search_keys self !! i = Some key → row !! i = Some v →
         sa.cell d key n = inr v)
    ∧ sa.cell d "twoF" n = inr (twoF out)
    ∧ (BSGL (args self) = true →
       sa.cell d (detstat self) n = inr (returned out)).


(** [k(...)]: the constructor of the class [k]. *)
Definition construct (U : helpers) (k : variant)
  : init_args → M search_object :=
  match k with
  | GridSearch => GridSearch__init__ U
  | TransientGridSearch => TransientGridSearch__init__ U
  | SearchOverGridFile => SearchOverGridFile__init__ U
  | GridGlitchSearch => GridGlitchSearch__init__ U
  end.

(** The header the search writes into its output file is read back as the
    parameter lines of the search, up to order and repetition. *)
Definition header_round_trips (U : helpers) (self : search_object) : Prop :=
  ∀ x, x ∈ read_parameters_dict_lines_from_file_header U (output_file_header self)
       ↔ x ∈ new_params_dict_str_list U self.

(** The search reads no SFT files, or the oldest of them was last modified
    no later than [t]. *)
Definition sfts_not_newer_than (U : helpers) (self : search_object) (t : Z)
  : Prop :=
  match sftfilepattern (args self) with
  | Some _ => ∃ t0, py_min (matching_sft_mtimes U) = inr t0 ∧ t0 <= t
  | None => True
  end.

(** Whatever row of a table extends a point of the grid [input], if the line
    written for it is read back at all, then it is read back with, in the
    column of every search key, a value close to the one of the point, within
    the tolerance the output format of the column gives. *)
Definition grid_survives_file (U : helpers) (self : search_object)
    (input : sarray) : Prop :=
  ∃ tols outfmt,
    _get_tolerance_from_savetxt_fmt U self = inr tols
    ∧ _get_savetxt_fmt_list U self = inr outfmt
    ∧ ∀ i key, search_keys self !! i = Some key →
        ∃ r a,
          dict.getitem tols.1 key = inr r ∧ dict.getitem tols.2 key = inr a
          ∧ ∀ point rest line v,
              point ∈ rows input → point !! i = Some v →
              savetxt_row U outfmt (point ++ rest) = inr line →
              ∃ x, line !! i = Some x
                   ∧ npset.isclose (tolerance_value r) (tolerance_value a) x v
                     = true.

(** The table a reader gets back of the file written for the rows [X] under
    the formats [fmt]: line by line what [np.savetxt] wrote for the row. *)
Definition read_back (U : helpers) (fmt : list string) (X : list (list float))
    (lines : list (list float)) : Prop :=
  Forall2 (λ row line, savetxt_row U fmt row = inr line) X lines.

(** Row [n] is the first row of [X] whose formatting raises, and it raises
    [e]; [lines] is what was written for the rows before it. *)
Definition first_failing_row (U : helpers) (fmt : list string)
    (X : list (list float)) (n : nat) (e : exn) (lines : list (list float))
  : Prop :=
  read_back U fmt (take n X) lines
  ∧ ∃ row, X !! n = Some row ∧ savetxt_row U fmt row = inl e.

(** A computation whose result, and whose additions to the log, do not
    depend on the state it starts from. *)
Definition log_uniform {A} (m : M A) : Prop :=
  ∃ r l, ∀ s, m s = (r, with_log (λ old, old ++ l) s).


(** The keys [get_transient_fstat_map_filename] formats a file name
    from. *)
Definition fstat_map_keys : list string := ["F0"; "Alpha"; "Delta"; "F1"; "F2"].




(* END VOCABULARY *)

(** * Properties *)

(** ** Axis expansion *)

Lemma length_arange (num : Z) : length (np.arange num) = Z.to_nat num.
Proof. unfold np.arange. by rewrite length_map, length_seq. Qed.

Lemma length_set_last (y : list float) (v : float) :
  length (np.set_last y v) = length y.
Proof. destruct y; [done|]. unfold np.set_last. by rewrite length_insert. Qed.

Lemma last_set_last (y : list float) (v : float) :
  y ≠ [] → last (np.set_last y v) = Some v.
Proof.
  intros Hy. destruct y as [|a y]; [done|]. unfold np.set_last.
  rewrite last_lookup, length_insert. apply list_lookup_insert_eq.
  simpl. lia.
Qed.

(** [np.linspace] returns exactly [num] samples, and ends on [stop] as soon
    as there are two of them. *)
Lemma linspace_length (start stop : float) (num : Z) (y : list float) :
  np.linspace start stop num = inr y → length y = Z.to_nat num.
Proof.
  unfold np.linspace. destruct (num <? 0); [done|]. intros [= <-].
  destruct (1 <? num); rewrite ?length_set_last;
    repeat case_match; by rewrite !length_map, length_arange.
Qed.

Lemma linspace_last (start stop : float) (num : Z) (y : list float) :
  1 < num → np.linspace start stop num = inr y → last y = Some stop.
Proof.
  intros Hnum. unfold np.linspace.
  destruct (Z.ltb_spec num 0); [lia|]. destruct (Z.ltb_spec 1 num); [|lia].
  intros [= <-]. apply last_set_last. intros Hnil.
  apply (f_equal length) in Hnil. revert Hnil.
  repeat case_match; rewrite !length_map, length_arange; simpl; lia.
Qed.

(** The number of points of a [(min, max, step)] axis is the truncated
    quotient plus one. *)
Lemma axis_count_is_truncated_quotient (x0 x1 x2 : float) (n : Z) (s : state) :
  Binary64.int ((x1 - x0) / x2)%float = inr n → 0 <= n →
  ∃ y, _get_array_from_tuple false [x0; x1; x2] s = (inr y, s)
       ∧ length y = Z.to_nat (n + 1)
       ∧ (1 <= n → last y = Some x1).
Proof.
  intros Hn Hpos. unfold _get_array_from_tuple. simpl.
  unfold mbind, M_bind, lift. rewrite Hn.
  destruct (np.linspace x0 x1 (n + 1)) as [e|y] eqn:Hy.
  - unfold np.linspace in Hy. destruct (Z.ltb_spec (n + 1) 0); [lia|done].
  - exists y. split; [done|]. split; [by eapply linspace_length|].
    intros. eapply linspace_last; [|done]. lia.
Qed.

(** Where the quotient is a whole number, truncating and rounding agree. *)
Lemma int_round_agree (q : float) (s : bool) (m : positive) (e : Z) :
  Prim2SF q = S754_finite s m e →
  (e < 0 → Z.pos m mod 2 ^ (- e) = 0) →
  Binary64.round q = Binary64.int q.
Proof.
  intros Hq Hint. unfold Binary64.round, Binary64.int. rewrite Hq.
  destruct (Z.leb_spec 0 e); [done|]. specialize (Hint ltac:(lia)).
  rewrite !Z.shiftr_div_pow2, !Z.shiftl_mul_pow2 by lia.
  set (p := 2 ^ (- e)) in *. set (h := 2 ^ (- e - 1)).
  assert (0 < h) by (apply Z.pow_pos_nonneg; lia).
  assert (0 < p) by (apply Z.pow_pos_nonneg; lia).
  pose proof (Z.div_mod (Z.pos m) p ltac:(lia)) as Hm.
  destruct (Z.ltb_spec (Z.pos m - Z.pos m `div` p * p) (1 * h)); [done|lia].
Qed.

(** C1. The axis [(min, max, step) = (0.0, 0.3, 0.1)], with [input_arrays]
    false, is expanded to the three points [0.0, 0.15, 0.3]: the binary64
    quotient [(0.3 - 0.0) / 0.1] is [2.9999999999999996], which [int()]
    truncates to [2], whereas [round((max - min) / step) + 1] is [4]. *)
Theorem C1_axis_expansion_truncates_quotient :
  let x0 := 0%float in
  let x1 := 0x1.3333333333333p-2%float in     (* 0.3 *)
  let x2 := 0x1.999999999999ap-4%float in     (* 0.1 *)
  ∀ s : state,
    _get_array_from_tuple false [x0; x1; x2] s
      = (inr [0%float; 0x1.3333333333333p-3%float; x1], s)
    ∧ Binary64.int ((x1 - x0) / x2)%float = inr 2
    ∧ Binary64.round ((x1 - x0) / x2)%float = inr 3.
Proof. intros x0 x1 x2 s. by vm_compute. Qed.

(** ** Dictionaries *)

Lemma dict_get_set_eq {V} (d : dict.t V) (k : string) (v : V) :
  dict.get (dict.set d k v) k = Some v.
Proof.
  induction d as [|[k' v'] d IH]; simpl.
  - by rewrite String.eqb_refl.
  - destruct (String.eqb_spec k' k) as [->|Hne]; simpl.
    + by rewrite String.eqb_refl.
    + by destruct (String.eqb_spec k' k).
Qed.

Lemma dict_get_set_ne {V} (d : dict.t V) (k k' : string) (v : V) :
  k ≠ k' → dict.get (dict.set d k v) k' = dict.get d k'.
Proof.
  intros Hne. induction d as [|[k0 v0] d IH]; simpl.
  - by destruct (String.eqb_spec k k').
  - destruct (String.eqb_spec k0 k) as [->|Hk0]; simpl.
    + by destruct (String.eqb_spec k k').
    + by rewrite IH.
Qed.

Lemma dict_mem_set {V} (d : dict.t V) (k k' : string) (v : V) :
  dict.mem (dict.set d k v) k' = String.eqb k k' || dict.mem d k'.
Proof.
  unfold dict.mem. destruct (String.eqb_spec k k') as [->|Hne].
  - by rewrite dict_get_set_eq.
  - by rewrite dict_get_set_ne.
Qed.

Lemma dict_get_In {V} (d : dict.t V) (k : string) (v : V) :
  NoDup d.*1 → (k, v) ∈ d → dict.get d k = Some v.
Proof.
  induction d as [|[k0 v0] d IH]; simpl; intros Hnd Hin.
  - by apply elem_of_nil in Hin.
  - apply NoDup_cons in Hnd as [Hk0 Hnd].
    apply elem_of_cons in Hin as [[= <- <-]|Hin].
    + by rewrite String.eqb_refl.
    + destruct (String.eqb_spec k0 k) as [->|_]; [|by apply IH].
      exfalso. apply Hk0. apply list_elem_of_fmap. by exists (k, v).
Qed.

(** ** Format strings *)

Lemma append_nil (t : string) : EmptyString +:+ t = t.
Proof. reflexivity. Qed.

Lemma append_cons (a : ascii) (s t : string) :
  String a s +:+ t = String a (s +:+ t).
Proof. reflexivity. Qed.

Lemma string_app_assoc (s1 s2 s3 : string) :
  s1 +:+ (s2 +:+ s3) = (s1 +:+ s2) +:+ s3.
Proof.
  induction s1 as [|a s1 IH]; [done|]. rewrite !append_cons. by rewrite IH.
Qed.

Lemma endswith_app (pre : string) (c c' : ascii) :
  str.endswith (pre +:+ String c EmptyString) c' = Ascii.eqb c c'.
Proof.
  induction pre as [|a pre IH]; [done|]. rewrite append_cons. simpl.
  destruct (pre +:+ String c "") eqn:E; [|done].
  destruct pre; [rewrite append_nil in E|rewrite append_cons in E]; done.
Qed.

Lemma findall_digits_run (ds cur : list ascii) (c : ascii) :
  Forall (λ c, str.is_digit c = true) ds → str.is_digit c = false →
  cur ≠ [] ∨ ds ≠ [] →
  str.findall_digits_from cur (string_of_list_ascii ds +:+ String c EmptyString)
  = [rev cur ++ ds].
Proof.
  intros Hds Hc. revert cur. induction Hds as [|d ds Hd Hds IH]; intros cur Hne.
  - simpl. rewrite ?append_nil. simpl. rewrite Hc.
    destruct cur; [by destruct Hne|]. by rewrite app_nil_r.
  - simpl. rewrite ?append_cons. simpl. rewrite Hd.
    rewrite IH by (by left). simpl. by rewrite <- app_assoc.
Qed.

Lemma findall_digits_prefix (pre rest : string) (cur : list ascii) :
  ends_with_digit pre = false → pre ≠ EmptyString ∨ cur = [] →
  ∃ front, str.findall_digits_from cur (pre +:+ rest)
           = front ++ str.findall_digits_from [] rest.
Proof.
  revert cur. induction pre as [|a pre IH]; intros cur Hend Hne.
  - destruct Hne as [? | ->]; [done|]. by exists [].
  - rewrite append_cons. simpl. destruct (str.is_digit a) eqn:Ha.
    + assert (pre ≠ EmptyString) as Hpre.
      { intros ->. simpl in Hend. congruence. }
      apply IH; [|by left]. simpl in Hend. by destruct pre.
    + assert (ends_with_digit pre = false) as Hend'.
      { simpl in Hend. destruct pre; [done|exact Hend]. }
      destruct (IH [] Hend' (or_intror eq_refl)) as [front Hfront].
      rewrite Hfront. destruct cur; [by exists front|].
      by eexists (_ :: front).
Qed.

(** The precision the source extracts is the number written right before the
    conversion letter. *)
Lemma last_int_ends_in_number (f : string) (conv : ascii) (P : Z) :
  str.is_digit conv = false → ends_in_number f conv P → str.last_int f = inr P.
Proof.
  intros Hconv (pre & ds & -> & Hpre & Hds & Hdig & ->).
  unfold str.last_int, str.findall_digits.
  destruct (findall_digits_prefix pre
              (string_of_list_ascii ds +:+ String conv EmptyString) [] Hpre
              (or_intror eq_refl)) as [front ->].
  rewrite findall_digits_run by (done || by right). simpl.
  by rewrite last_snoc.
Qed.

Lemma ends_in_number_endswith (f : string) (conv : ascii) (P : Z) (c : ascii) :
  ends_in_number f conv P → str.endswith f c = Ascii.eqb conv c.
Proof.
  intros (pre & ds & -> & _). by rewrite string_app_assoc, endswith_app.
Qed.

(** ** Tolerances from output formats *)

Lemma tolerances_of_step (key f : string) (fmt : dict.t string)
    (rtol atol : dict.t tolerance) (x y : tolerance) :
  tolerance_rule f x y →
  tolerances_of ((key, f) :: fmt) rtol atol
  = tolerances_of fmt (dict.set rtol key x) (dict.set atol key y).
Proof.
  intros [Hd|P HP|D HD]; simpl.
  - by rewrite Hd.
  - rewrite !(ends_in_number_endswith _ _ _ _ HP).
    by rewrite (last_int_ends_in_number f "g" P eq_refl HP).
  - rewrite !(ends_in_number_endswith _ _ _ _ HD).
    by rewrite (last_int_ends_in_number f "f" D eq_refl HD).
Qed.

Lemma tolerances_of_supported (fmt : dict.t string) (rtol atol : dict.t tolerance) :
  NoDup fmt.*1 → Forall (λ kf, supported kf.2) fmt →
  ∃ rtol' atol',
    tolerances_of fmt rtol atol = inr (rtol', atol')
    ∧ (∀ key f, (key, f) ∈ fmt →
         ∃ x y, tolerance_rule f x y
                ∧ dict.get rtol' key = Some x ∧ dict.get atol' key = Some y)
    ∧ (∀ key, key ∉ fmt.*1 →
         dict.get rtol' key = dict.get rtol key
         ∧ dict.get atol' key = dict.get atol key).
Proof.
  revert rtol atol. induction fmt as [|[k f] fmt IH]; intros rtol atol Hnd Hall.
  - exists rtol, atol. split; [done|]. split; [|done].
    intros key f Hin. by apply elem_of_nil in Hin.
  - rewrite fmap_cons in Hnd. simpl in Hnd.
    apply NoDup_cons in Hnd as [Hk Hnd].
    apply Forall_cons in Hall as [(x & y & Hxy) Hall].
    rewrite (tolerances_of_step _ _ _ _ _ _ _ Hxy).
    destruct (IH (dict.set rtol k x) (dict.set atol k y) Hnd Hall)
      as (rtol' & atol' & -> & Hin & Hout).
    exists rtol', atol'. split; [done|]. split.
    + intros key f' [[= -> ->]|Hin']%elem_of_cons; [|by apply Hin].
      exists x, y. split; [done|]. destruct (Hout _ Hk) as [-> ->].
      by rewrite !dict_get_set_eq.
    + intros key Hkey. rewrite fmap_cons in Hkey. simpl in Hkey.
      apply not_elem_of_cons in Hkey as [Hne Hkey].
      destruct (Hout _ Hkey) as [-> ->].
      by rewrite !dict_get_set_ne.
Qed.

Lemma tolerances_of_unsupported (ok rest : dict.t string) (key f : string)
    (rtol atol : dict.t tolerance) :
  Forall (λ kf, supported kf.2) ok → unsupported f →
  tolerances_of (ok ++ (key, f) :: rest) rtol atol
  = inl (ValueError (CannotParseFmt f)).
Proof.
  intros Hok (Hd & Hg & Hf). revert rtol atol.
  induction Hok as [|[k f'] ok (x & y & Hxy) _ IH]; intros rtol atol.
  - simpl. by rewrite Hd, Hg, Hf.
  - rewrite <- app_comm_cons, (tolerances_of_step _ _ _ _ _ _ _ Hxy). apply IH.
Qed.

(** Where the formats are of these kinds the tolerances follow them: a
    format ending in [d] gives [(0, 0)]; one ending in [g] whose last number
    is [P] gives [rtol = 10 ** (1 - P)] and [atol = 0]; one ending in [f]
    whose last number is [D] gives [rtol = 0] and [atol = 10 ** -D]; and the
    first format that ends in none of the three makes the method raise the
    [ValueError] that names it.  The number is the last one written in the
    format: the precision where one is given, the field width where only
    that is. *)
Lemma tolerances_follow_formats (U : helpers) (self : search_object) :
  let fmt := _get_savetxt_fmt_dict U self in
  NoDup fmt.*1 →
  (Forall (λ kf, supported kf.2) fmt →
   ∃ rtol atol,
     _get_tolerance_from_savetxt_fmt U self = inr (rtol, atol)
     ∧ ∀ key f, (key, f) ∈ fmt →
         ∃ x y, tolerance_rule f x y
                ∧ dict.get rtol key = Some x ∧ dict.get atol key = Some y)
  ∧ (∀ ok key f rest,
       fmt = ok ++ (key, f) :: rest →
       Forall (λ kf, supported kf.2) ok → unsupported f →
       _get_tolerance_from_savetxt_fmt U self
       = inl (ValueError (CannotParseFmt f))).
Proof.
  intros fmt Hnd. unfold _get_tolerance_from_savetxt_fmt. fold fmt. split.
  - intros Hall.
    destruct (tolerances_of_supported fmt [] [] Hnd Hall)
      as (rtol & atol & Heq & Hin & _).
    by exists rtol, atol.
  - intros ok key f rest -> Hok Hf. by apply tolerances_of_unsupported.
Qed.

Lemma supported_16g : supported "%.16g".
Proof.
  exists (TolPow10 (1 - 16)), Tol0. apply rule_significant.
  exists "%.", ["1"; "6"]%char. repeat split; [done|]. by repeat constructor.
Defined.

Lemma supported_9g : supported "%.9g".
Proof.
  exists (TolPow10 (1 - 9)), Tol0. apply rule_significant.
  exists "%.", ["9"]%char. repeat split; [done|]. by repeat constructor.
Defined.

(** A field width is read as a precision: [%8g], which writes six
    significant digits in eight columns, gets the relative tolerance of
    eight digits. *)
Lemma width_read_as_precision (rtol atol : dict.t tolerance) :
  tolerances_of [("twoF", "%8g")] rtol atol
  = inr (dict.set rtol "twoF" (TolPow10 (1 - 8)), dict.set atol "twoF" Tol0).
Proof. reflexivity. Qed.

(** ** Tolerances: a format without a number *)

Lemma endswith_excludes (f : string) (c c' : ascii) :
  c ≠ c' → str.endswith f c = true → str.endswith f c' = false.
Proof.
  intros Hne. induction f as [|a f IH]; [done|]. simpl.
  destruct f; [|done].
  intros ->%Ascii.eqb_eq. by apply Ascii.eqb_neq.
Qed.

Lemma tolerances_of_no_digits (ok rest : dict.t string) (key f : string)
    (rtol atol : dict.t tolerance) :
  Forall (λ kf, supported kf.2) ok →
  str.endswith f "g" = true ∨ str.endswith f "f" = true →
  str.findall_digits f = [] →
  tolerances_of (ok ++ (key, f) :: rest) rtol atol = inl IndexError.
Proof.
  intros Hok Hconv Hdigits. revert rtol atol.
  induction Hok as [|[k f'] ok (x & y & Hxy) _ IH]; intros rtol atol.
  - simpl. unfold str.last_int. rewrite Hdigits. simpl.
    destruct Hconv as [Hg|Hf].
    + by rewrite (endswith_excludes f "g" "d"), Hg.
    + by rewrite (endswith_excludes f "f" "d"),
        (endswith_excludes f "f" "g"), Hf.
  - rewrite <- app_comm_cons, (tolerances_of_step _ _ _ _ _ _ _ Hxy). apply IH.
Qed.

(** C3. A format that ends in [g] or [f] and has no number in it, such as
    [%g] or [%f], gets neither a tolerance nor the [ValueError] of the
    formats that cannot be parsed: once the formats before it have been
    dealt with, [re.findall] finds nothing in it and indexing the empty
    list raises [IndexError]. *)
Theorem C3_format_without_number_raises_IndexError (U : helpers)
    (self : search_object) (ok rest : dict.t string) (key f : string) :
  _get_savetxt_fmt_dict U self = ok ++ (key, f) :: rest →
  Forall (λ kf, supported kf.2) ok →
  str.endswith f "g" = true ∨ str.endswith f "f" = true →
  str.findall_digits f = [] →
  _get_tolerance_from_savetxt_fmt U self = inl IndexError.
Proof.
  intros Hfmt Hok Hconv Hdigits. unfold _get_tolerance_from_savetxt_fmt.
  rewrite Hfmt. by apply tolerances_of_no_digits.
Qed.

Lemma demo_plain_formats :
  _get_savetxt_fmt_dict (demo.plain_env 1) (demo.grid_search 1)
  = [("F0", "%.16g"); ("F1", "%.16g"); ("F2", "%.16g"); ("Alpha", "%.16g");
     ("Delta", "%.16g")] ++ ("twoF", "%g") :: [].
Proof. vm_compute. reflexivity. Defined.

Lemma C3_format_without_number_raises_IndexError_witness :
  _get_tolerance_from_savetxt_fmt (demo.plain_env 1) (demo.grid_search 1)
  = inl IndexError.
Proof.
  apply (C3_format_without_number_raises_IndexError _ _ _ _ _ _
           demo_plain_formats).
  - repeat (apply Forall_cons_2; [exact supported_16g|]). apply Forall_nil_2.
  - left. reflexivity.
  - reflexivity.
Defined.

(** ** The monad: what a computation leaves untouched *)

Ltac munfold :=
  unfold mbind, M_bind, mret, M_ret, lift, raise, logger_info, modify,
    getattr, get_state in *.

(** [s'] is [s] with more log records. *)
Definition logs_only (s s' : state) : Prop :=
  ∃ l, s' = with_log (λ old, old ++ l) s.

Lemma logs_only_refl (s : state) : logs_only s s.
Proof. exists []. destruct s. unfold with_log. simpl. by rewrite app_nil_r. Qed.

Lemma logs_only_trans (s1 s2 s3 : state) :
  logs_only s1 s2 → logs_only s2 s3 → logs_only s1 s3.
Proof.
  intros [l1 ->] [l2 ->]. exists (l1 ++ l2). destruct s1. unfold with_log.
  simpl. by rewrite app_assoc.
Qed.

Lemma logs_only_info (m : logmsg) (s : state) :
  logs_only s (with_log (λ l, l ++ [m]) s).
Proof. by exists [m]. Qed.

Lemma for_each_invariant {A B} (R : state → state → Prop)
    (l : list A) (acc : B) (body : B → A → M B) (s : state) r s' :
  (∀ s, R s s) → (∀ s1 s2 s3, R s1 s2 → R s2 s3 → R s1 s3) →
  (∀ acc x s r s', body acc x s = (r, s') → R s s') →
  for_each l acc body s = (r, s') → R s s'.
Proof.
  intros Hrefl Htrans Hbody. revert acc s.
  induction l as [|x l IH]; intros acc s; simpl.
  - munfold. intros [= <- <-]. apply Hrefl.
  - munfold. destruct (body acc x s) as [[e|acc'] s1] eqn:Hb.
    + intros [= <- <-]. by eapply Hbody.
    + intros Hrest. eapply Htrans; [by eapply Hbody|by eapply IH].
Qed.

Lemma get_array_from_tuple_logs (ia : bool) (x : list float) (s : state) r s' :
  _get_array_from_tuple ia x s = (r, s') → logs_only s s'.
Proof.
  unfold _get_array_from_tuple. munfold.
  destruct x as [|x0 [|x1 [|x2 [|x3 x]]]]; simpl;
    try (intros [= <- <-]; first [apply logs_only_refl|apply logs_only_info]).
  destruct ia; simpl.
  - intros [= <- <-]. apply logs_only_info.
  - destruct (Binary64.int _); [intros [= <- <-]; apply logs_only_refl|].
    intros [= <- <-]. apply logs_only_refl.
Qed.

(** What [_get_input_data_array] may change: the log and the three grid
    attributes, and [self.input_data] only when [clean] is false. *)
Definition grid_attrs_only (self : search_object) (s s' : state) : Prop :=
  det_stat_calls s' = det_stat_calls s
  ∧ search_objects s' = search_objects s
  ∧ clock s' = clock s
  ∧ out_file s' = out_file s
  ∧ data s' = data s
  ∧ (clean (args self) = true → input_data s' = input_data s).

Lemma logs_only_grid_attrs (self : search_object) (s s' : state) :
  logs_only s s' → grid_attrs_only self s s'.
Proof. intros [l ->]. by destruct s. Qed.

Lemma expand_axes_logs (self : search_object) (s : state) r s' :
  expand_axes self s = (r, s') → logs_only s s'.
Proof.
  apply for_each_invariant; [apply logs_only_refl|apply logs_only_trans|].
  intros acc x s2 r2 s2'. munfold.
  destruct (dict.get (axes self) x); [|intros [= <- <-]; apply logs_only_refl].
  destruct (_get_array_from_tuple _ _ s2) as [[e2|ca] s3] eqn:Harr;
    intros [= <- <-]; by eapply get_array_from_tuple_logs.
Qed.

Lemma get_input_data_array_frame (self : search_object) (s : state) r s' :
  _get_input_data_array self s = (r, s') → grid_attrs_only self s s'.
Proof.
  unfold _get_input_data_array, grid_attrs_only.
  destruct (kind self); munfold; simpl.
  1,2,4:
    destruct (expand_axes self _) as [[e|cs] s1] eqn:Hloop;
    apply expand_axes_logs in Hloop as [l ->];
    [intros [= <- <-]; by destruct s|];
    destruct (clean (args self)) eqn:Hclean; simpl; intros [= <- <-];
    by destruct s.
  destruct (grid self); simpl.
  - destruct (clean (args self)) eqn:Hclean; simpl; intros [= <- <-];
      by destruct s.
  - intros [= <- <-]. by destruct s.
Qed.

Lemma get_input_data_array_sets_coord_arrays (self : search_object) (s s' : state) :
  _get_input_data_array self s = (inr tt, s') → is_Some (coord_arrays s').
Proof.
  unfold _get_input_data_array.
  destruct (kind self); munfold; simpl.
  1,2,4:
    destruct (expand_axes self _) as [[e|cs] s1]; [done|];
    destruct (clean (args self)); simpl; intros [= <-]; by eexists.
  destruct (grid self); simpl; [|done].
  destruct (clean (args self)); simpl; intros [= <-]; by eexists.
Qed.

(** ** [run] with [clean=True] *)

(** C9. With [clean=True], [run()] raises before the evaluator is called:
    [_get_input_data_array] leaves [self.input_data] alone, and once it has
    returned, indexing the shape of the generator raises [IndexError]. *)
Theorem C9_clean_run_raises (U : helpers) (self : search_object)
    (return_data : bool) (s : state) :
  clean (args self) = true →
  ∃ e s',
    run U self return_data s = (inl e, s')
    ∧ det_stat_calls s' = det_stat_calls s
    ∧ input_data s' = input_data s
    ∧ ((∃ s1, _get_input_data_array self s = (inr tt, s1)) → e = IndexError).
Proof.
  intros Hclean. unfold run. munfold. rewrite Hclean.
  destruct (_get_input_data_array self s) as [[e|[]] s1] eqn:Hgrid.
  - exists e, s1. apply get_input_data_array_frame in Hgrid.
    destruct Hgrid as (? & ? & ? & ? & ? & Hin).
    repeat split; [done|by apply Hin|]. by intros [s2 [=]].
  - destruct (get_input_data_array_sets_coord_arrays _ _ _ Hgrid) as [cs Hcs].
    rewrite Hcs. simpl. exists IndexError, s1.
    apply get_input_data_array_frame in Hgrid.
    destruct Hgrid as (? & ? & ? & ? & ? & Hin).
    repeat split; [done|by apply Hin].
Qed.

Lemma C9_clean_run_raises_witness :
  ∃ e s',
    run (demo.env 1)
      (SearchObject GridSearch (demo.grid_args true false false)
         (search_keys (demo.grid_search 1)) (axes (demo.grid_search 1)) None
         "twoF" (demo.constant_evaluator 1)
         (output_keys (demo.grid_search 1)) demo.params_lines)
      false demo.initial_state = (inl e, s')
    ∧ det_stat_calls s' = det_stat_calls demo.initial_state
    ∧ input_data s' = input_data demo.initial_state
    ∧ ((∃ s1, _get_input_data_array
                (SearchObject GridSearch (demo.grid_args true false false)
                   (search_keys (demo.grid_search 1)) (axes (demo.grid_search 1))
                   None "twoF" (demo.constant_evaluator 1)
                   (output_keys (demo.grid_search 1)) demo.params_lines)
                demo.initial_state = (inr tt, s1)) → e = IndexError).
Proof. apply C9_clean_run_raises. reflexivity. Defined.

(** ** Cache validation: the fingerprint *)

Lemma filter_eq_nil {A} (P : A → Prop) `{!∀ x, Decision (P x)} (l : list A) :
  filter P l = [] ↔ ∀ x, x ∈ l → ¬ P x.
Proof.
  split.
  - intros Hnil x Hx HP. by eapply filter_nil_not_elem_of.
  - intros Hall. destruct (filter P l) as [|y l'] eqn:Hf; [done|].
    assert (y ∈ filter P l) as [HP Hy]%list_elem_of_filter
      by (rewrite Hf; left).
    by destruct (Hall y Hy).
Qed.

Lemma setxor1d_nil (a b : list string) :
  npset.setxor1d a b = [] ↔ ∀ x, x ∈ a ↔ x ∈ b.
Proof.
  unfold npset.setxor1d.
  set (l := filter (λ x, x ∉ b) a ++ filter (λ x, x ∉ a) b).
  assert (merge_sort npset.str_le (remove_dups l) = [] ↔ l = []) as ->.
  { split; [|by intros ->].
    intros Hs.
    pose proof (merge_sort_Permutation npset.str_le (remove_dups l)) as Hp.
    rewrite Hs in Hp. apply Permutation_nil_l in Hp.
    destruct l as [|x l]; [done|].
    assert (x ∈ remove_dups (x :: l)) as Hx by (apply elem_of_remove_dups; left).
    rewrite <- Hp in Hx. by apply elem_of_nil in Hx. }
  unfold l. split.
  - intros [Ha Hb]%app_eq_nil x.
    rewrite filter_eq_nil in Ha. rewrite filter_eq_nil in Hb.
    split; intros Hx.
    + destruct (decide (x ∈ b)) as [|Hn]; [done|]. by destruct (Ha x Hx).
    + destruct (decide (x ∈ a)) as [|Hn]; [done|]. by destruct (Hb x Hx).
  - intros Heq.
    assert (filter (λ x, x ∉ b) a = []) as ->.
    { apply filter_eq_nil. intros x Hx Hn. apply Hn. by apply Heq. }
    assert (filter (λ x, x ∉ a) b = []) as ->; [|done].
    apply filter_eq_nil. intros x Hx Hn. apply Hn. by apply Heq.
Qed.

Lemma check_reaches_header (U : helpers) (self : search_object) (s : state)
    (f : stored_file) :
  clean (args self) = false → out_file s = Some f → not_outdated U self f →
  check_old_data_is_okay_to_use U self s
  = if (0 <? length (npset.setxor1d (old_params_dict_str_list U f)
                       (new_params_dict_str_list U self)))%nat
    then (inr None, after_header_check HeaderDoesNotMatch s)
    else compare_with_old_data U self f (after_header_check HeaderMatches s).
Proof.
  intros Hclean Hfile Hfresh. unfold check_old_data_is_okay_to_use.
  rewrite Hclean. munfold. rewrite Hfile. unfold not_outdated in Hfresh.
  destruct (sftfilepattern (args self)).
  - destruct Hfresh as (t & -> & Ht). simpl.
    destruct (Z.ltb_spec (mtime f) t); [lia|]. simpl.
    by destruct (0 <? _)%nat.
  - simpl. by destruct (0 <? _)%nat.
Qed.

Lemma compare_with_old_data_logs (U : helpers) (self : search_object)
    (f : stored_file) (s : state) r s' :
  compare_with_old_data U self f s = (r, s') →
  ∃ rest, log s' = log s ++ LoadingOldData :: rest.
Proof.
  unfold compare_with_old_data. munfold. simpl.
  destruct (input_data s) as [input|]; [|intros [= <- <-]; by exists []].
  destruct (negb _); simpl.
  { intros [= <- <-]. eexists [_]. simpl. by rewrite <- app_assoc. }
  destruct (_ <? _)%nat; simpl.
  { intros [= <- <-]. by exists []. }
  destruct (_get_tolerance_from_savetxt_fmt U self) as [e|tols];
    [intros [= <- <-]; by exists []|].
  destruct (column_matches _ _ _ _ _) as [e|ms];
    [intros [= <- <-]; by exists []|].
  destruct (forallb id ms); intros [= <- <-]; eexists [_]; simpl;
    by rewrite <- app_assoc.
Qed.

(** C4. The header check compares the two fingerprints as sets of lines
    and as nothing else.  The validator reports a match, and goes on to the
    stored table, exactly when every line stored in the file is a line of
    the current setup and every line of the current setup is stored in the
    file; otherwise it reports the mismatch and returns "not reusable".  So
    the order of the lines does not matter: a permutation matches; and a
    line that only one of the two has, be it one line more, one line less or
    one line changed, gives the mismatch, also when the two have the same
    number of lines. *)
Theorem C4_fingerprints_compare_as_sets (U : helpers) (self : search_object)
    (s : state) (f : stored_file) :
  let old := old_params_dict_str_list U f in
  let new := new_params_dict_str_list U self in
  let matched :=
    check_old_data_is_okay_to_use U self s
    = compare_with_old_data U self f (after_header_check HeaderMatches s)
    ∧ ∃ rest, log (check_old_data_is_okay_to_use U self s).2
              = log s ++ [CheckingHeader; HeaderMatches; LoadingOldData] ++ rest
  in
  let mismatched :=
    check_old_data_is_okay_to_use U self s
    = (inr None, after_header_check HeaderDoesNotMatch s) in
  clean (args self) = false → out_file s = Some f → not_outdated U self f →
  ((∀ x, x ∈ old ↔ x ∈ new) → matched)
  ∧ (¬ (∀ x, x ∈ old ↔ x ∈ new) → mismatched)
  ∧ (matched → mismatched → False)
  ∧ (old ≡ₚ new → matched)
  ∧ (∀ x, (x ∈ old ∧ (x ∉ new)) ∨ ((x ∉ old) ∧ x ∈ new) → mismatched).
Proof.
  intros old new matched mismatched Hclean Hfile Hfresh.
  assert ((∀ x, x ∈ old ↔ x ∈ new) → matched) as Hmatch.
  { intros Hset. unfold matched.
    rewrite (check_reaches_header U self s f Hclean Hfile Hfresh).
    fold old new.
    assert (npset.setxor1d old new = []) as -> by (by apply setxor1d_nil).
    simpl. split; [done|].
    destruct (compare_with_old_data U self f _) as [r s'] eqn:Hcmp.
    apply compare_with_old_data_logs in Hcmp as [rest Hlog].
    exists rest. simpl. rewrite Hlog. unfold after_header_check.
    destruct s; simpl. by rewrite <- !app_assoc. }
  assert (¬ (∀ x, x ∈ old ↔ x ∈ new) → mismatched) as Hmismatch.
  { intros Hset. unfold mismatched.
    rewrite (check_reaches_header U self s f Hclean Hfile Hfresh).
    fold old new.
    destruct (npset.setxor1d old new) as [|y l] eqn:Hxor; [|done].
    destruct Hset. by apply (proj1 (setxor1d_nil old new)). }
  split; [done|]. split; [done|]. split; [|split].
  - intros [_ [rest Hlog]] Hmis. unfold mismatched in Hmis.
    rewrite Hmis in Hlog. unfold after_header_check in Hlog.
    destruct s; simpl in Hlog. rewrite <- !app_assoc in Hlog.
    apply app_inv_head in Hlog. by injection Hlog.
  - intros Hperm. apply Hmatch. intros x. by rewrite Hperm.
  - intros x Hx. apply Hmismatch. intros Hset.
    destruct Hx as [[Hin Hout]|[Hout Hin]]; apply Hout; by apply Hset.
Qed.

Lemma demo_shuffled_lines (x : string) :
  x ∈ old_params_dict_str_list (demo.env 1) demo.shuffled
  ↔ x ∈ new_params_dict_str_list (demo.env 1) (demo.grid_search 1).
Proof.
  vm_compute old_params_dict_str_list. vm_compute new_params_dict_str_list.
  rewrite !elem_of_cons, !elem_of_nil. tauto.
Defined.

Lemma demo_edited_line :
  let x := "'Alphas': [0.6]," in
  (x ∈ old_params_dict_str_list (demo.env 1) demo.edited
   ∧ (x ∉ new_params_dict_str_list (demo.env 1) (demo.grid_search 1)))
  ∨ ((x ∉ old_params_dict_str_list (demo.env 1) demo.edited)
     ∧ x ∈ new_params_dict_str_list (demo.env 1) (demo.grid_search 1)).
Proof.
  left. vm_compute old_params_dict_str_list.
  vm_compute new_params_dict_str_list.
  split; [apply list_elem_of_here|].
  rewrite !elem_of_cons, elem_of_nil. intros [H|[H|H]]; [| |exact H];
    discriminate H.
Defined.

Lemma demo_not_outdated (f : stored_file) :
  mtime f = 100 → not_outdated (demo.env 1) (demo.grid_search 1) f.
Proof. intros Hf. exists 50. split; [reflexivity|]. rewrite Hf. discriminate. Defined.

Lemma C4_fingerprints_compare_as_sets_witness :
  (∃ rest,
     log (check_old_data_is_okay_to_use (demo.env 1) (demo.grid_search 1)
            (demo.state_with_file demo.shuffled None)).2
     = log (demo.state_with_file demo.shuffled None)
       ++ [CheckingHeader; HeaderMatches; LoadingOldData] ++ rest)
  ∧ check_old_data_is_okay_to_use (demo.env 1) (demo.grid_search 1)
      (demo.state_with_file demo.edited None)
    = (inr None,
       after_header_check HeaderDoesNotMatch
         (demo.state_with_file demo.edited None)).
Proof.
  split.
  - exact (proj2 (proj1 (C4_fingerprints_compare_as_sets (demo.env 1)
                           (demo.grid_search 1)
                           (demo.state_with_file demo.shuffled None)
                           demo.shuffled eq_refl eq_refl
                           (demo_not_outdated demo.shuffled eq_refl))
                    demo_shuffled_lines)).
  - exact (proj2 (proj2 (proj2 (proj2
             (C4_fingerprints_compare_as_sets (demo.env 1)
                (demo.grid_search 1)
                (demo.state_with_file demo.edited None)
                demo.edited eq_refl eq_refl
                (demo_not_outdated demo.edited eq_refl)))))
             _ demo_edited_line).
Defined.

(** ** Cache validation: a stored table with too few columns *)

(** C5. When the stored table has the rows of the current grid but fewer
    columns, the branch that should log the reason and return "not
    reusable" raises instead: it formats its message with
    [np.shape(...)[1]], and the shape of a one-dimensional structured array
    has no second entry.  Nothing is logged after "Loading old data". *)
Theorem C5_fewer_columns_raises_IndexError (U : helpers) (self : search_object)
    (s : state) (f : stored_file) (input : sarray) :
  clean (args self) = false → out_file s = Some f → not_outdated U self f →
  npset.setxor1d (old_params_dict_str_list U f) (new_params_dict_str_list U self) = [] →
  input_data s = Some input →
  length (table f) = sa.len input →
  (length (columns f) < sa.ncols input)%nat →
  check_old_data_is_okay_to_use U self s
  = (inl IndexError,
     with_log (λ l, l ++ [LoadingOldData]) (after_header_check HeaderMatches s)).
Proof.
  intros Hclean Hfile Hfresh Hxor Hinput Hrows Hcols.
  rewrite (check_reaches_header U self s f Hclean Hfile Hfresh), Hxor. simpl.
  unfold compare_with_old_data. munfold. simpl. rewrite Hinput.
  unfold sa.len at 1. simpl. rewrite Hrows, Nat.eqb_refl. simpl.
  unfold sa.ncols at 1. simpl.
  destruct (Nat.ltb_spec (length (columns f)) (sa.ncols input)); [done|lia].
Qed.

Lemma C5_fewer_columns_raises_IndexError_witness :
  let f := StoredFile 100 demo.params_lines ["F0"; "F1"; "Alpha"; "twoF"]
             [[10%float; 0%float; 0.5%float; 1%float]] in
  let input := SArray demo.doppler_keys
                 [[10%float; 0%float; 0%float; 0.5%float; 0%float]] in
  check_old_data_is_okay_to_use (demo.env 1) (demo.grid_search 1)
    (demo.state_with_file f (Some input))
  = (inl IndexError,
     with_log (λ l, l ++ [LoadingOldData])
       (after_header_check HeaderMatches (demo.state_with_file f (Some input)))).
Proof.
  intros f input.
  apply (C5_fewer_columns_raises_IndexError (demo.env 1) (demo.grid_search 1)
           (demo.state_with_file f (Some input)) f input);
    try reflexivity.
  - exists 50. split; [reflexivity|]. simpl. lia.
  - unfold f, input, sa.ncols. simpl. lia.
Defined.

(** ** Structured arrays: reading back what was written *)

Lemma index_of_Some (key : string) (ns : list string) (k : nat) :
  sa.index_of key ns = Some k → ns !! k = Some key.
Proof.
  unfold sa.index_of. destruct (list_find _ ns) as [[i x]|] eqn:Hf; [|done].
  simpl. intros [= <-]. apply list_find_Some in Hf as (Hi & -> & _). done.
Qed.

Lemma index_of_elem_of (key : string) (ns : list string) :
  key ∈ ns → ∃ k, sa.index_of key ns = Some k.
Proof.
  intros Hin. unfold sa.index_of.
  destruct (list_find (λ k, k = key) ns) as [[i x]|] eqn:Hf; [by exists i|].
  apply list_find_None in Hf. rewrite Forall_forall in Hf.
  by destruct (Hf key Hin).
Qed.

Lemma index_of_None (key : string) (ns : list string) :
  key ∉ ns → sa.index_of key ns = None.
Proof.
  intros Hin. unfold sa.index_of.
  destruct (list_find (λ k, k = key) ns) as [[i x]|] eqn:Hf; [|done].
  apply list_find_Some in Hf as (Hi & -> & _).
  destruct Hin. by eapply list_elem_of_lookup_2.
Qed.

Lemma index_of_inj (k1 k2 : string) (ns : list string) (i : nat) :
  sa.index_of k1 ns = Some i → sa.index_of k2 ns = Some i → k1 = k2.
Proof.
  intros H1%index_of_Some H2%index_of_Some. congruence.
Qed.

Lemma set_cell_inv (a a' : sarray) (key : string) (n : nat) (v : float) :
  sa.set_cell a key n v = inr a' →
  ∃ k r, sa.index_of key (names a) = Some k ∧ rows a !! n = Some r
         ∧ a' = SArray (names a) (<[n := <[k := v]> r]> (rows a)).
Proof.
  unfold sa.set_cell. destruct (sa.index_of key (names a)) as [k|]; [|done].
  destruct (rows a !! n) as [r|]; [|done]. intros [= <-]. by exists k, r.
Qed.

Lemma set_cell_well_formed (a a' : sarray) (key : string) (n : nat) (v : float) :
  sa.set_cell a key n v = inr a' → well_formed a → well_formed a'.
Proof.
  intros (k & r & Hk & Hr & ->)%set_cell_inv Hwf. unfold well_formed in *.
  simpl. apply Forall_insert; [done|]. rewrite length_insert.
  rewrite Forall_forall in Hwf. apply Hwf. by eapply list_elem_of_lookup_2.
Qed.

Lemma cell_set_cell_eq (a a' : sarray) (key : string) (n : nat) (v : float) :
  well_formed a → sa.set_cell a key n v = inr a' → sa.cell a' key n = inr v.
Proof.
  intros Hwf (k & r & Hk & Hr & ->)%set_cell_inv.
  unfold sa.cell, sa.field. simpl. rewrite Hk. rewrite list_lookup_fmap.
  rewrite list_lookup_insert_eq by (by eapply lookup_lt_Some). simpl.
  rewrite list_lookup_insert_eq; [done|].
  unfold well_formed in Hwf. rewrite Forall_forall in Hwf.
  rewrite (Hwf r) by (by eapply list_elem_of_lookup_2).
  eapply lookup_lt_Some. by apply index_of_Some.
Qed.

Lemma cell_set_cell_ne (a a' : sarray) (key key' : string) (n n' : nat) (v : float) :
  sa.set_cell a key n v = inr a' → n' ≠ n ∨ key' ≠ key →
  sa.cell a' key' n' = sa.cell a key' n'.
Proof.
  intros (k & r & Hk & Hr & ->)%set_cell_inv Hne.
  unfold sa.cell, sa.field. simpl.
  destruct (sa.index_of key' (names a)) as [k'|] eqn:Hk'; [|done].
  rewrite !list_lookup_fmap.
  destruct (decide (n' = n)) as [->|Hn].
  - rewrite list_lookup_insert_eq by (by eapply lookup_lt_Some). rewrite Hr. simpl.
    rewrite list_lookup_insert_ne; [done|].
    intros ->. destruct Hne as [|Hkey]; [done|].
    apply Hkey. by eapply index_of_inj.
  - by rewrite list_lookup_insert_ne.
Qed.

Lemma for_each_ext {A B} (l : list A) (acc : B) (body1 body2 : B → A → M B)
    (s : state) :
  (∀ acc x s, body1 acc x s = body2 acc x s) →
  for_each l acc body1 s = for_each l acc body2 s.
Proof.
  intros Hext. revert acc s. induction l as [|x l IH]; intros acc s; [done|].
  simpl. munfold. rewrite Hext. destruct (body2 acc x s) as [[e|acc'] s1]; [done|].
  apply IH.
Qed.


Lemma for_each_cons {A B} (x : A) (l : list A) (acc : B) (body : B → A → M B)
    (s : state) :
  for_each (x :: l) acc body s
  = match body acc x s with
    | (inr acc', s1) => for_each l acc' body s1
    | (inl e, s1) => (inl e, s1)
    end.
Proof. simpl. munfold. by destruct (body acc x s) as [[?|?] ?]. Qed.

Lemma place_inv {X} (key_of : X → string) (value_of : X → exn + float)
    (n : nat) (d : sarray) (x : X) (s : state) d' s' :
  place key_of value_of n d x s = (inr d', s') →
  s' = s ∧ ∃ v, value_of x = inr v ∧ sa.set_cell d (key_of x) n v = inr d'.
Proof.
  unfold place. munfold. destruct (value_of x) as [e|v]; [done|].
  intros [= Hset <-]. split; [done|]. by exists v.
Qed.

(** The row-writing loop: every item lands in its column of row [n], and no
    other cell changes. *)
Lemma place_all {X} (key_of : X → string) (value_of : X → exn + float)
    (n : nat) (items : list X) (d : sarray) (s : state) d' s' :
  for_each items d (place key_of value_of n) s = (inr d', s') →
  s' = s
  ∧ names d' = names d
  ∧ length (rows d') = length (rows d)
  ∧ (well_formed d → well_formed d')
  ∧ (∀ key' n', n' ≠ n ∨ key' ∉ key_of <$> items →
       sa.cell d' key' n' = sa.cell d key' n')
  ∧ (well_formed d →
     (∀ x y, x ∈ items → y ∈ items → key_of x = key_of y →
             value_of x = value_of y) →
     ∀ x, x ∈ items →
       ∃ v, value_of x = inr v ∧ sa.cell d' (key_of x) n = inr v).
Proof.
  revert d. induction items as [|x items IH]; intros d.
  - simpl. munfold. intros [= <- <-]. repeat split; try done.
    intros _ _ x Hx. by apply elem_of_nil in Hx.
  - rewrite for_each_cons.
    destruct (place key_of value_of n d x s) as [[e|d1] s1] eqn:Hp; [done|].
    apply place_inv in Hp as (-> & v & Hv & Hset).
    intros Hrest. destruct (IH _ Hrest) as (-> & Hnames & Hlen & Hwf & Hother & Hsame).
    pose proof Hset as (k & r & Hk & Hr & Hd1)%set_cell_inv.
    split; [done|]. split; [rewrite Hnames, Hd1; done|].
    split; [rewrite Hlen, Hd1; simpl; by rewrite length_insert|].
    split; [intros; apply Hwf; by eapply set_cell_well_formed|].
    split.
    + intros key' n' Hne. rewrite Hother.
      * eapply cell_set_cell_ne; [done|]. destruct Hne as [|Hne]; [by left|].
        right. intros ->. apply Hne. rewrite fmap_cons. left.
      * destruct Hne as [|Hne]; [by left|]. right. intros Hin. apply Hne.
        rewrite fmap_cons. by right.
    + intros Hwfd Hfun y Hy.
      assert (∀ z, z ∈ items →
                ∃ v, value_of z = inr v ∧ sa.cell d' (key_of z) n = inr v) as Hlater.
      { apply Hsame; [by eapply set_cell_well_formed|].
        intros y1 y2 H1 H2. apply Hfun; by right. }
      apply elem_of_cons in Hy as [->|Hy]; [|by apply Hlater].
      destruct (decide (key_of x ∈ key_of <$> items)) as [Hin|Hnin].
      * apply list_elem_of_fmap in Hin as (z & Hkey & Hz).
        destruct (Hlater z Hz) as (w & Hw & Hcell).
        exists w. rewrite Hkey. split; [|done].
        rewrite (Hfun x z); [done|left|by right|done].
      * exists v. split; [done|]. rewrite Hother by (by right).
        by eapply cell_set_cell_eq.
Qed.


(** The loop does return when every value is available, every column
    exists and row [n] does. *)
Lemma place_all_returns {X} (key_of : X → string) (value_of : X → exn + float)
    (n : nat) (items : list X) (d : sarray) (s : state) :
  (∀ x, x ∈ items → ∃ v, value_of x = inr v) →
  (∀ x, x ∈ items → key_of x ∈ names d) →
  (n < length (rows d))%nat →
  ∃ d', for_each items d (place key_of value_of n) s = (inr d', s).
Proof.
  revert d. induction items as [|x items IH]; intros d Hval Hkey Hn.
  - by exists d.
  - rewrite for_each_cons.
    destruct (Hval x ltac:(left)) as [v Hv].
    destruct (index_of_elem_of (key_of x) (names d) (Hkey x ltac:(left)))
      as [k Hk].
    destruct (lookup_lt_is_Some_2 (rows d) n Hn) as [r Hr].
    assert (place key_of value_of n d x s
            = (inr (SArray (names d) (<[n := <[k := v]> r]> (rows d))), s)) as ->.
    { unfold place, sa.set_cell. munfold. by rewrite Hv, Hk, Hr. }
    apply IH; simpl.
    + intros y Hy. apply Hval. by right.
    + intros y Hy. apply Hkey. by right.
    + by rewrite length_insert.
Qed.

(** ** The glitch search fills a row by position *)



Lemma call_evaluator_inv (r : Z + outputs) (s : state) res s' :
  call_evaluator r s = (res, s') →
  s' = with_det_stat_calls (S (det_stat_calls s)) s
  ∧ match r with
    | inr out => res = inr out
    | inl code => res = inl (EvaluatorFailure code)
    end.
Proof.
  unfold call_evaluator. munfold. destruct r; by intros [= <- <-].
Qed.



(** ** The two statistic kinds exclude each other *)

Lemma bind_axes_doppler_keys (a : init_args) :
  ∃ axes, bind_axes TransientGridSearch a ["F0"; "F1"; "F2"; "Alpha"; "Delta"] []
          = inr axes.
Proof. by eexists. Qed.

(** C7. With both [BSGL] and [BtSG] requested, neither
    [TransientGridSearch] nor [SearchOverGridFile] can be constructed: the
    constructor raises, and it does so before [_initiate_search_object], so
    that no evaluator is built.  The exception is the [ValueError] "Please
    choose only one of [BSGL,BtSG]" as soon as the steps before the test
    succeed: binding the five standard axes, and for the grid-file search
    the [nsegs] test and the reading of the grid file. *)
Theorem C7_BSGL_and_BtSG_are_rejected (U : helpers) (a : init_args) (s : state) :
  BSGL a = true → BtSG a = true →
  (∃ e s',
     TransientGridSearch__init__ U a s = (inl e, s')
     ∧ search_objects s' = search_objects s
     ∧ (default_search_keys U = ["F0"; "F1"; "F2"; "Alpha"; "Delta"] →
        e = ValueError ChooseOnlyOne ∧ s' = s))
  ∧ (∃ e s',
       SearchOverGridFile__init__ U a s = (inl e, s')
       ∧ search_objects s' = search_objects s
       ∧ (nsegs a <= 1 ∨ transientWindowType a = None → grid_loads U a →
          e = ValueError ChooseOnlyOne ∧ s' = s)).
Proof.
  intros HBSGL HBtSG. split.
  - unfold TransientGridSearch__init__. munfold. simpl. rewrite HBSGL, HBtSG.
    destruct (bind_axes _ _ _ _) as [e|axes] eqn:Hbind; simpl.
    + exists e, s. split; [done|split; [done|]]. intros Hkeys. rewrite Hkeys in Hbind.
      by destruct (bind_axes_doppler_keys (set_nsegs a 1)) as [axes Haxes];
        simplify_eq.
    + by exists (ValueError ChooseOnlyOne), s.
  - unfold SearchOverGridFile__init__, grid_loads. munfold.
    rewrite HBSGL, HBtSG.
    destruct (1 <? nsegs a) eqn:Hnsegs;
      destruct (bool_decide (transientWindowType a ≠ None)) eqn:Hw; simpl.
    { exists (ValueError NsegsIncompatible), s. split; [done|split; [done|]].
      apply Z.ltb_lt in Hnsegs. apply bool_decide_eq_true in Hw.
      intros [?|?]; [lia|done]. }
    all: destruct (String.eqb_spec (reading_method a) "numpy") as [Hm|Hm];
      [destruct (_read_grid_with_numpy U a) as [e|g] eqn:Hg
      |destruct (String.eqb_spec (reading_method a) "pandas") as [Hp|Hp];
       [destruct (_read_grid_with_pandas U a) as [e|g] eqn:Hg|]]; simpl.
    all: try (by exists (ValueError ChooseOnlyOne), s).
    all: eexists _, s; (split; [done|split; [done|]]);
      intros _ [[? [? ?]]|[? [? ?]]]; congruence.
Qed.

Lemma C7_BSGL_and_BtSG_are_rejected_witness :
  TransientGridSearch__init__ (demo.env 1) (demo.grid_args false true true)
    demo.initial_state
  = (inl (ValueError ChooseOnlyOne), demo.initial_state)
  ∧ SearchOverGridFile__init__ (demo.env 1) (demo.gridfile_args true true)
      demo.initial_state
    = (inl (ValueError ChooseOnlyOne), demo.initial_state).
Proof.
  split.
  - destruct (C7_BSGL_and_BtSG_are_rejected (demo.env 1)
                (demo.grid_args false true true) demo.initial_state
                eq_refl eq_refl) as [(e & s' & Heq & _ & He) _].
    destruct (He eq_refl) as [-> ->]. exact Heq.
  - destruct (C7_BSGL_and_BtSG_are_rejected (demo.env 1)
                (demo.gridfile_args true true) demo.initial_state
                eq_refl eq_refl) as [_ (e & s' & Heq & _ & He)].
    destruct He as [-> ->]; [right; reflexivity| |exact Heq].
    left. split; [reflexivity|]. by eexists.
Defined.

(** ** Transient searches: the maximum-likelihood estimates *)

Lemma store_candidate_place (self : search_object) (thisCand : dict.t float)
    (data : sarray) (n : nat) (s : state) :
  store_candidate self thisCand data n s
  = for_each (output_keys self) data (place id (candidate_value thisCand) n) s.
Proof.
  unfold store_candidate. apply for_each_ext. intros d key s1.
  unfold place, candidate_value. munfold. simpl.
  by destruct (dict.mem thisCand key).
Qed.

Lemma candidate_value_get (thisCand : dict.t float) (key : string) (v : float) :
  dict.get thisCand key = Some v → candidate_value thisCand key = inr v.
Proof.
  intros Hget. unfold candidate_value, dict.mem, dict.getitem. by rewrite Hget.
Qed.

(** ** Transient searches: the maximum-likelihood estimates, continued *)

Lemma bind_inr {A B} (m : M A) (k : A → M B) (s : state) b s' :
  (m ≫= k) s = (inr b, s') →
  ∃ a s1, m s = (inr a, s1) ∧ k a s1 = (inr b, s').
Proof.
  munfold. destruct (m s) as [[e|a] s1]; [done|]. intros Hk. by exists a, s1.
Qed.

(** The candidate dict a transient row is stored from. *)
Lemma transient_results_inv (self : search_object) (data : sarray) (n : nat)
    (vals : list float) (s : state) data' s' :
  truthy (transientWindowType (args self)) = true →
  TransientGridSearch_get_single_cand_results self data n vals s = (inr data', s') →
  ∃ out w fmap thisCand s1,
    get_det_stat (search self) (dict.of_zip (search_keys self) vals) = inr out
    ∧ windowRange out = Some w ∧ FstatMap out = Some fmap
    ∧ dict.get thisCand "t0_ML"
      = Some (Binary64.of_Z (t0 w + (get_maxF_idx fmap).1 * dt0 w))
    ∧ dict.get thisCand "tau_ML"
      = Some (Binary64.of_Z (tau w + (get_maxF_idx fmap).2 * dtau w))
    ∧ (BtSG (args self) = true →
       dict.get thisCand "t0_MP" = Some (t0_MP fmap)
       ∧ dict.get thisCand "tau_MP" = Some (tau_MP fmap))
    ∧ store_candidate self thisCand data n s1 = (inr data', s').
Proof.
  intros Htruthy Hres. unfold TransientGridSearch_get_single_cand_results in Hres.
  cbv zeta in Hres.
  apply bind_inr in Hres as (out & s1 & Hcall & Hres).
  apply call_evaluator_inv in Hcall as [_ Hout].
  destruct (get_det_stat (search self) _) as [code|out'] eqn:Hget; [done|].
  injection Hout as <-.
  apply bind_inr in Hres as (t & s2 & _ & Hres).
  apply bind_inr in Hres as ([] & s3 & _ & Hres).
  apply bind_inr in Hres as (c1 & s4 & _ & Hres).
  apply bind_inr in Hres as (c2 & s5 & _ & Hres).
  apply bind_inr in Hres as (c3 & s6 & Hc3 & Hres).
  rewrite Htruthy in Hc3.
  destruct (FstatMap out) as [fmap|] eqn:Hfmap; [|done].
  apply bind_inr in Hc3 as ([] & s7 & _ & Hc3).
  destruct (windowRange out) as [w|] eqn:Hw; [|done].
  munfold. injection Hc3 as <- <-.
  exists out, w, fmap. eexists _, _.
  repeat (split; [done|]).
  split; [|split; [|split; [|exact Hres]]].
  - destruct (BtSG (args self)); rewrite ?dict_get_set_ne by done;
      by rewrite dict_get_set_eq.
  - destruct (BtSG (args self)); rewrite ?dict_get_set_ne by done;
      by rewrite dict_get_set_eq.
  - intros ->. rewrite dict_get_set_ne by done.
    by rewrite !dict_get_set_eq.
Qed.

Ltac find_key :=
  first [ by apply list_elem_of_here
        | apply list_elem_of_further; find_key
        | apply elem_of_app; first [ left; find_key | right; find_key ] ].

Lemma transient_output_keys (k : variant) (a : init_args) (sk : list string)
    (ds : string) (ev : evaluator) :
  is_transient_kind k = true → truthy (transientWindowType a) = true →
  "t0_ML" ∈ _set_output_keys k a sk ds ev
  ∧ "tau_ML" ∈ _set_output_keys k a sk ds ev
  ∧ (BtSG a = true →
     "t0_MP" ∈ _set_output_keys k a sk ds ev
     ∧ "tau_MP" ∈ _set_output_keys k a sk ds ev).
Proof.
  intros Hk Ht. unfold _set_output_keys. rewrite Hk, Ht.
  split; [find_key|split; [find_key|intros ->; split; find_key]].
Qed.

(** C6. With a transient window, every row that is evaluated stores the
    maximum-likelihood estimates [t0_ML = windowRange.t0 + i * dt0] and
    [tau_ML = windowRange.tau + j * dtau], where [(i, j)] is what the
    evaluator's F-statistic map gives as the index of its maximum; with
    [BtSG] it also stores the evaluator's [t0_MP] and [tau_MP]. *)
Theorem C6_transient_rows_store_ML_estimates (self : search_object)
    (data : sarray) (n : nat) (vals : list float) (s : state) data' s' :
  is_transient_kind (kind self) = true →
  output_keys self
  = _set_output_keys (kind self) (args self) (search_keys self) (detstat self)
      (search self) →
  truthy (transientWindowType (args self)) = true →
  well_formed data →
  TransientGridSearch_get_single_cand_results self data n vals s = (inr data', s') →
  ∃ out w fmap,
    get_det_stat (search self) (dict.of_zip (search_keys self) vals) = inr out
    ∧ windowRange out = Some w ∧ FstatMap out = Some fmap
    ∧ sa.cell data' "t0_ML" n
      = inr (Binary64.of_Z (t0 w + (get_maxF_idx fmap).1 * dt0 w))
    ∧ sa.cell data' "tau_ML" n
      = inr (Binary64.of_Z (tau w + (get_maxF_idx fmap).2 * dtau w))
    ∧ (BtSG (args self) = true →
       sa.cell data' "t0_MP" n = inr (t0_MP fmap)
       ∧ sa.cell data' "tau_MP" n = inr (tau_MP fmap)).
Proof.
  intros Hkind Hkeys Htruthy Hwf Hres.
  destruct (transient_results_inv _ _ _ _ _ _ _ Htruthy Hres)
    as (out & w & fmap & c & s1 & Hout & Hw & Hfmap & Ht0 & Htau & HMP & Hstore).
  rewrite store_candidate_place in Hstore.
  apply place_all in Hstore as (_ & _ & _ & _ & _ & Hcells).
  specialize (Hcells Hwf ltac:(intros x y _ _ Heq; by rewrite (Heq : x = y))).
  destruct (transient_output_keys (kind self) (args self) (search_keys self)
              (detstat self) (search self) Hkind Htruthy) as (Hk1 & Hk2 & Hk3).
  rewrite <- Hkeys in Hk1, Hk2, Hk3.
  assert (∀ key v, key ∈ output_keys self → dict.get c key = Some v →
                   sa.cell data' key n = inr v) as Hcell.
  { intros key v Hin Hget. destruct (Hcells key Hin) as (v' & Hv' & Hc).
    rewrite (candidate_value_get _ _ _ Hget) in Hv'. by simplify_eq. }
  exists out, w, fmap. repeat (split; [done|]).
  split; [by apply Hcell|]. split; [by apply Hcell|].
  intros HB. destruct (HMP HB), (Hk3 HB). split; by apply Hcell.
Qed.

Lemma C6_transient_rows_store_ML_estimates_witness :
  ∃ data' s',
    TransientGridSearch_get_single_cand_results demo.transient_search
      (sa.zeros 1 (output_keys demo.transient_search)) 0
      [10%float; 0%float; 0%float; 0.5%float; 0%float] demo.transient_state
    = (inr data', s')
    ∧ sa.cell data' "t0_ML" 0 = inr 1030%float
    ∧ sa.cell data' "tau_ML" 0 = inr 40%float
    ∧ sa.cell data' "t0_MP" 0 = inr 1025%float
    ∧ sa.cell data' "tau_MP" 0 = inr 42%float.
Proof.
  destruct (TransientGridSearch_get_single_cand_results demo.transient_search
              (sa.zeros 1 (output_keys demo.transient_search)) 0
              [10%float; 0%float; 0%float; 0.5%float; 0%float]
              demo.transient_state) as [[e|data'] s'] eqn:Hrow;
    [by vm_compute in Hrow|].
  exists data', s'. split; [done|].
  destruct (C6_transient_rows_store_ML_estimates demo.transient_search
              (sa.zeros 1 (output_keys demo.transient_search)) 0
              [10%float; 0%float; 0%float; 0.5%float; 0%float]
              demo.transient_state data' s' eq_refl eq_refl eq_refl)
    as (out & w & fmap & Hout & Hw & Hfmap & Ht0 & Htau & HMP); [|done|].
  { by repeat constructor. }
  injection Hout as <-. injection Hw as <-. injection Hfmap as <-.
  destruct (HMP eq_refl) as [-> ->]. by rewrite Ht0, Htau.
Defined.

(** ** Order on doubles that are not NaN *)

Lemma SFcompare_rank (x y : spec_float) :
  x ≠ S754_nan → y ≠ S754_nan → SFcompare x y = Some (lex3 (rank x) (rank y)).
Proof.
  intros Hx Hy. destruct x as [sx|sx| |sx mx ex], y as [sy|sy| |sy my ey];
    try done; unfold lex3; simpl;
    try (by destruct sx); try (by destruct sy); try (by destruct sx, sy).
  destruct sx, sy; simpl; try done.
  all: rewrite ?Z.compare_opp, ?(Z.compare_antisym ey ex), ?Pos.compare_cont_spec.
  all: by destruct (ey ?= ex), (mx ?= my)%positive.
Qed.

Lemma lex3_refl (r : Z * Z * Z) : lex3 r r = Eq.
Proof. unfold lex3. by rewrite !Z.compare_refl. Qed.

Lemma lex3_antisym (r1 r2 : Z * Z * Z) : lex3 r2 r1 = CompOpp (lex3 r1 r2).
Proof.
  unfold lex3. rewrite (Z.compare_antisym r1.1.1), (Z.compare_antisym r1.1.2),
    (Z.compare_antisym r1.2).
  by destruct (r1.1.1 ?= r2.1.1), (r1.1.2 ?= r2.1.2), (r1.2 ?= r2.2).
Qed.

Lemma lex3_Lt (r1 r2 : Z * Z * Z) :
  lex3 r1 r2 = Lt ↔
  r1.1.1 < r2.1.1
  ∨ (r1.1.1 = r2.1.1 ∧ (r1.1.2 < r2.1.2 ∨ (r1.1.2 = r2.1.2 ∧ r1.2 < r2.2))).
Proof.
  unfold lex3.
  destruct (Z.compare_spec r1.1.1 r2.1.1), (Z.compare_spec r1.1.2 r2.1.2),
    (Z.compare_spec r1.2 r2.2); split; try done; lia.
Qed.

Lemma lex3_Eq (r1 r2 : Z * Z * Z) : lex3 r1 r2 = Eq ↔ r1 = r2.
Proof.
  unfold lex3. destruct r1 as [[a b] c], r2 as [[a' b'] c']. simpl.
  destruct (Z.compare_spec a a'), (Z.compare_spec b b'), (Z.compare_spec c c');
    split; try done; try (intros _; congruence); intros [=]; lia.
Qed.

Lemma lex3_trans (r1 r2 r3 : Z * Z * Z) :
  lex3 r1 r2 ≠ Gt → lex3 r2 r3 = Lt → lex3 r1 r3 = Lt.
Proof.
  intros H12 H23. destruct (lex3 r1 r2) eqn:H; [| |done].
  - apply (proj1 (lex3_Eq _ _)) in H. by subst.
  - apply (proj1 (lex3_Lt _ _)) in H. apply (proj1 (lex3_Lt _ _)) in H23.
    apply (proj2 (lex3_Lt _ _)). lia.
Qed.

Lemma not_nan_Prim2SF (x : float) :
  PrimFloat.is_nan x = false → Prim2SF x ≠ S754_nan.
Proof.
  unfold PrimFloat.is_nan. rewrite FloatAxioms.eqb_spec. intros Hx Hnan.
  by rewrite Hnan in Hx.
Qed.

Lemma leb_lex3 (x y : float) :
  PrimFloat.is_nan x = false → PrimFloat.is_nan y = false →
  (x <=? y)%float
  = match lex3 (rank (Prim2SF x)) (rank (Prim2SF y)) with Gt => false | _ => true end.
Proof.
  intros Hx%not_nan_Prim2SF Hy%not_nan_Prim2SF.
  rewrite FloatAxioms.leb_spec. unfold SFleb. rewrite SFcompare_rank by done.
  by destruct (lex3 _ _).
Qed.

Lemma ltb_lex3 (x y : float) :
  PrimFloat.is_nan x = false → PrimFloat.is_nan y = false →
  (x <? y)%float
  = match lex3 (rank (Prim2SF x)) (rank (Prim2SF y)) with Lt => true | _ => false end.
Proof.
  intros Hx%not_nan_Prim2SF Hy%not_nan_Prim2SF.
  rewrite FloatAxioms.ltb_spec. unfold SFltb. rewrite SFcompare_rank by done.
  by destruct (lex3 _ _).
Qed.

Lemma leb_refl (x : float) : PrimFloat.is_nan x = false → (x <=? x)%float = true.
Proof. intros Hx. by rewrite leb_lex3, lex3_refl. Qed.

Lemma ltb_irrefl (x : float) : (x <? x)%float = false.
Proof.
  rewrite FloatAxioms.ltb_spec. unfold SFltb.
  destruct (Prim2SF x) as [?|[]| |[] m e] eqn:Hx; simpl; try done;
    rewrite Z.compare_refl, Pos.compare_cont_spec, Pos.compare_refl; done.
Qed.

Lemma not_leb_ltb (x y : float) :
  PrimFloat.is_nan x = false → PrimFloat.is_nan y = false →
  (x <=? y)%float = false → (y <? x)%float = true.
Proof.
  intros Hx Hy. rewrite leb_lex3, ltb_lex3 by done.
  rewrite (lex3_antisym (rank (Prim2SF x))). by destruct (lex3 _ _).
Qed.

Lemma ltb_leb (x y : float) :
  PrimFloat.is_nan x = false → PrimFloat.is_nan y = false →
  (x <? y)%float = true → (x <=? y)%float = true.
Proof.
  intros Hx Hy. rewrite leb_lex3, ltb_lex3 by done. by destruct (lex3 _ _).
Qed.

Lemma leb_ltb_trans (x y z : float) :
  PrimFloat.is_nan x = false → PrimFloat.is_nan y = false →
  PrimFloat.is_nan z = false →
  (x <=? y)%float = true → (y <? z)%float = true → (x <? z)%float = true.
Proof.
  intros Hx Hy Hz. rewrite leb_lex3, !ltb_lex3 by done. intros Hxy Hyz.
  rewrite (lex3_trans (rank (Prim2SF x)) (rank (Prim2SF y)) (rank (Prim2SF z)));
    [done| |].
  - by destruct (lex3 (rank (Prim2SF x)) _).
  - by destruct (lex3 (rank (Prim2SF y)) _).
Qed.

(** ** The maximum over the grid *)

Lemma argmax_from_first_maximum (l pre : list float) (mp : float) (best : nat) :
  nan_free (pre ++ l) →
  pre !! best = Some mp →
  (∀ j w, pre !! j = Some w → (w <=? mp)%float = true) →
  (∀ j w, (j < best)%nat → pre !! j = Some w → (w <? mp)%float = true) →
  first_maximum (pre ++ l) (npset.argmax_from mp best (length pre) l).
Proof.
  unfold nan_free. revert pre mp best.
  induction l as [|x l IH]; intros pre mp best Hnan Hbest Hle Hlt.
  - simpl. rewrite app_nil_r in *. by exists mp.
  - assert (PrimFloat.is_nan mp = false) as Hmp.
    { rewrite Forall_forall in Hnan. apply Hnan. apply elem_of_app. left.
      by eapply list_elem_of_lookup_2. }
    assert (PrimFloat.is_nan x = false) as Hx.
    { rewrite Forall_forall in Hnan. apply Hnan. apply elem_of_app. right. left. }
    assert (∀ w, w ∈ pre → PrimFloat.is_nan w = false) as Hpre.
    { intros w Hw. rewrite Forall_forall in Hnan. apply Hnan. apply elem_of_app.
      by left. }
    simpl. rewrite Hmp. rewrite (cons_middle x pre l), app_assoc in *.
    replace (S (length pre)) with (length (pre ++ [x]))
      by (rewrite length_app; simpl; lia).
    destruct (x <=? mp)%float eqn:Hxmp; simpl.
    + apply IH; [done| | |].
      * apply lookup_app_l_Some. done.
      * intros j w [Hj|[_ Hj]]%lookup_app_Some; [by eapply Hle|].
        destruct (j - length pre)%nat; [|done]. simpl in Hj.
        injection Hj as <-. done.
      * intros j w Hjb Hj. apply lookup_lt_Some in Hbest.
        rewrite lookup_app_l in Hj by lia. by eapply Hlt.
    + apply not_leb_ltb in Hxmp; [|done|done].
      apply IH; [done| | |].
      * rewrite lookup_app_r by lia. by rewrite Nat.sub_diag.
      * intros j w [Hj|[_ Hj]]%lookup_app_Some.
        -- apply ltb_leb; [apply Hpre; by eapply list_elem_of_lookup_2|done|].
           eapply leb_ltb_trans; [| | |by eapply Hle|done]; try done.
           apply Hpre. by eapply list_elem_of_lookup_2.
        -- destruct (j - length pre)%nat; [|done]. simpl in Hj.
           injection Hj as <-. by apply leb_refl.
      * intros j w Hjb Hj. rewrite lookup_app_l in Hj by lia.
        eapply leb_ltb_trans; [| | |by eapply Hle|done]; try done.
        apply Hpre. by eapply list_elem_of_lookup_2.
Qed.

Lemma argmax_first_maximum (col : list float) :
  col ≠ [] → nan_free col →
  ∃ idx, npset.argmax col = inr idx ∧ first_maximum col idx.
Proof.
  destruct col as [|x col]; [done|]. intros _ Hnan. simpl.
  eexists. split; [done|].
  apply (argmax_from_first_maximum col [x] x 0); [done|done| |].
  - intros [|j] w [=]. subst. apply leb_refl.
    unfold nan_free in Hnan. by apply Forall_cons in Hnan as [? _].
  - intros j w Hj. lia.
Qed.

Lemma first_maximum_constant (col : list float) (idx : nat) (c : float) :
  first_maximum col idx → (∀ w, w ∈ col → w = c) → idx = 0%nat.
Proof.
  intros (v & Hv & _ & Hlt) Hconst. destruct idx as [|idx]; [done|].
  destruct col as [|x col]; [done|].
  specialize (Hlt 0%nat x ltac:(lia) eq_refl).
  rewrite (Hconst x), (Hconst v) in Hlt.
  - by rewrite ltb_irrefl in Hlt.
  - by eapply list_elem_of_lookup_2.
  - left.
Qed.

Lemma row_dict_spec (d : sarray) (idx : nat) (keys : list string)
    (acc m : dict.t float) :
  row_dict d idx keys acc = inr m →
  (∀ key, key ∈ keys →
     ∃ v, dict.get m key = Some v ∧ sa.cell d key idx = inr v)
  ∧ (∀ key, key ∉ keys → dict.get m key = dict.get acc key).
Proof.
  revert acc. induction keys as [|k keys IH]; intros acc Hrow; simpl in Hrow.
  - injection Hrow as <-. split; [by intros key ?%elem_of_nil|done].
  - destruct (sa.cell d k idx) as [e|v] eqn:Hcell; [done|].
    destruct (IH _ Hrow) as [Hin Hout]. split.
    + intros key [->|Hkey]%elem_of_cons; [|by apply Hin].
      destruct (decide (k ∈ keys)) as [Hk|Hk]; [by apply Hin|].
      exists v. split; [|done]. rewrite (Hout _ Hk). apply dict_get_set_eq.
    + intros key [Hne Hkey]%not_elem_of_cons.
      rewrite (Hout _ Hkey). by apply dict_get_set_ne.
Qed.

Lemma field_length (d : sarray) (key : string) (col : list float) :
  sa.field d key = inr col → length col = sa.len d.
Proof.
  unfold sa.field, sa.len. destruct (sa.index_of key (names d)); [|done].
  intros [= <-]. apply length_map.
Qed.

Lemma field_of_name (d : sarray) (key : string) :
  key ∈ names d → ∃ col, sa.field d key = inr col.
Proof.
  intros [k Hk]%index_of_elem_of. unfold sa.field. rewrite Hk. by eexists.
Qed.

Lemma row_dict_returns (d : sarray) (idx : nat) (keys : list string)
    (acc : dict.t float) :
  keys ⊆ names d → (idx < sa.len d)%nat →
  ∃ m, row_dict d idx keys acc = inr m.
Proof.
  intros Hsub Hidx. revert acc.
  induction keys as [|k keys IH]; intros acc; simpl; [by eexists|].
  destruct (field_of_name d k) as [col Hcol]; [apply Hsub; left|].
  unfold sa.cell. rewrite Hcol.
  destruct (lookup_lt_is_Some_2 col idx) as [v ->].
  { by rewrite (field_length _ _ _ Hcol). }
  apply IH. intros key Hkey. apply Hsub. by right.
Qed.

Lemma max_of_column_spec (self : search_object) (column : string) (s : state)
    (d : sarray) (col : list float) :
  data s = Some d → rows d ≠ [] → output_keys self ⊆ names d →
  sa.field d column = inr col → nan_free col →
  ∃ idx m,
    max_of_column self column s = (inr m, s)
    ∧ first_maximum col idx ∧ row_at self d idx m.
Proof.
  intros Hdata Hrows Hkeys Hcol Hnan.
  assert (col ≠ []) as Hne.
  { intros ->. apply field_length in Hcol. unfold sa.len in Hcol.
    by destruct (rows d). }
  destruct (argmax_first_maximum col Hne Hnan) as (idx & Harg & Hmax).
  assert (idx < sa.len d)%nat as Hidx.
  { destruct Hmax as (v & Hv & _). apply lookup_lt_Some in Hv.
    by rewrite <- (field_length _ _ _ Hcol). }
  destruct (row_dict_returns d idx (output_keys self) [] Hkeys Hidx)
    as [m Hm].
  exists idx, m. split.
  - unfold max_of_column, getattr. munfold. by rewrite Hdata, Hcol, Harg, Hm.
  - split; [done|]. destruct (row_dict_spec _ _ _ _ _ Hm) as [Hin Hout].
    split; [done|]. intros key Hkey. by rewrite (Hout _ Hkey).
Qed.

Lemma max_of_column_first_maximum (self : search_object) (column : string)
    (s : state) (d : sarray) (col : list float) :
  data s = Some d → rows d ≠ [] → output_keys self ⊆ names d →
  sa.field d column = inr col → nan_free col →
  ∃ idx m,
    max_of_column self column s = (inr m, s)
    ∧ first_maximum col idx ∧ row_at self d idx m
    ∧ ∀ c, (∀ w, w ∈ col → w = c) →
           idx = 0%nat
           ∧ (column ∈ output_keys self → dict.get m column = Some c).
Proof.
  intros Hdata Hrows Hkeys Hcol Hnan.
  destruct (max_of_column_spec self column s d col Hdata Hrows Hkeys Hcol Hnan)
    as (idx & m & Hrun & Hmax & Hrow).
  exists idx, m. repeat (split; [done|]). intros c Hconst.
  split; [by eapply first_maximum_constant|]. intros Hin.
  destruct Hrow as [Hrow _]. destruct (Hrow _ Hin) as (v & -> & Hv).
  unfold sa.cell in Hv. rewrite Hcol in Hv.
  destruct (col !! idx) as [v'|] eqn:Hidx; [|done]. injection Hv as ->.
  f_equal. apply Hconst. by eapply list_elem_of_lookup_2.
Qed.

(** X1. Once a run has left its table in [self.data], [get_max_det_stat]
    returns the cells, under the output keys, of the first row at which the
    column of the detection statistic takes its largest value, and
    [get_max_twoF] those of the first row at which the column [twoF] does
    (the same row when [twoF] is the detection statistic); every earlier row
    has a strictly smaller value, so that among rows that tie the first in
    iteration order is returned.  If the column is constant, the row is the
    first grid point and the statistic returned is the constant. *)
Theorem get_max_returns_first_maximal_row (self : search_object) (s : state)
    (d : sarray) :
  data s = Some d → rows d ≠ [] → output_keys self ⊆ names d →
  (∀ col, sa.field d (detstat self) = inr col → nan_free col →
     ∃ idx m,
       get_max_det_stat self s = (inr m, s)
       ∧ first_maximum col idx ∧ row_at self d idx m
       ∧ ∀ c, (∀ w, w ∈ col → w = c) →
              idx = 0%nat
              ∧ (detstat self ∈ output_keys self →
                 dict.get m (detstat self) = Some c))
  ∧ (∀ col, sa.field d "twoF" = inr col → nan_free col →
       ∃ idx m,
         get_max_twoF self s = (inr m, s)
         ∧ first_maximum col idx ∧ row_at self d idx m
         ∧ ∀ c, (∀ w, w ∈ col → w = c) →
                idx = 0%nat
                ∧ ("twoF" ∈ output_keys self → dict.get m "twoF" = Some c)).
Proof.
  intros Hdata Hrows Hkeys.
  split; intros col Hcol Hnan;
    by apply (max_of_column_first_maximum self _ s d col).
Qed.


Lemma demo_table_computed : data (demo.after_run 1) = Some (demo.table 1).
Proof. vm_compute. reflexivity. Defined.

Lemma demo_table_rows : rows (demo.table 1) ≠ [].
Proof. vm_compute. discriminate. Defined.

Lemma demo_table_keys :
  output_keys (demo.grid_search 1) ⊆ names (demo.table 1).
Proof. apply (bool_decide_unpack _). vm_compute. exact I. Defined.

Lemma demo_table_statistic :
  sa.field (demo.table 1) (detstat (demo.grid_search 1))
  = inr [1%float; 1%float; 1%float].
Proof. vm_compute. reflexivity. Defined.

Lemma demo_statistic_constant (w : float) :
  w ∈ [1%float; 1%float; 1%float] → w = 1%float.
Proof.
  intros Hw. repeat (apply elem_of_cons in Hw as [->|Hw]; [reflexivity|]).
  apply elem_of_nil in Hw. destruct Hw.
Defined.

Lemma get_max_returns_first_maximal_row_witness :
  ∃ m,
    get_max_det_stat (demo.grid_search 1) (demo.after_run 1)
    = (inr m, demo.after_run 1)
    ∧ dict.get m "F0" = Some 10%float
    ∧ dict.get m "Alpha" = Some 0.5%float
    ∧ dict.get m "twoF" = Some 1%float.
Proof.
  destruct (get_max_returns_first_maximal_row (demo.grid_search 1)
              (demo.after_run 1) (demo.table 1) demo_table_computed
              demo_table_rows demo_table_keys) as [Hdet _].
  destruct (Hdet _ demo_table_statistic)
    as (idx & m & Hrun & _ & [Hrow _] & Hconst).
  { unfold nan_free. repeat (apply Forall_cons_2; [reflexivity|]).
    apply Forall_nil_2. }
  destruct (Hconst 1%float demo_statistic_constant) as [Hidx Hstat].
  subst idx. exists m. split; [exact Hrun|].
  destruct (Hrow "F0") as (v & -> & Hv); [apply list_elem_of_here|].
  destruct (Hrow "Alpha") as (v' & -> & Hv').
  { vm_compute. do 3 apply list_elem_of_further. apply list_elem_of_here. }
  vm_compute in Hv. vm_compute in Hv'. injection Hv as <-. injection Hv' as <-.
  split; [reflexivity|]. split; [reflexivity|]. apply Hstat.
  vm_compute. do 5 apply list_elem_of_further. apply list_elem_of_here.
Defined.
(** ** Cache validation: what a reused table guarantees *)

Lemma column_matches_all (old input : sarray) (rtol atol : dict.t tolerance)
    (keys : list string) (ms : list bool) :
  column_matches old input rtol atol keys = inr ms → forallb id ms = true →
  ∀ key, key ∈ keys →
    ∃ oc nc r a,
      sa.field old key = inr oc ∧ sa.field input key = inr nc
      ∧ dict.getitem rtol key = inr r ∧ dict.getitem atol key = inr a
      ∧ npset.allclose oc nc (tolerance_value r) (tolerance_value a) = true.
Proof.
  revert ms. induction keys as [|k keys IH]; intros ms Hcm Hall key Hkey.
  { by apply elem_of_nil in Hkey. }
  simpl in Hcm.
  destruct (sa.field old k) as [e|oc] eqn:Ho; [done|].
  destruct (sa.field input k) as [e|nc] eqn:Hn; [done|].
  destruct (dict.getitem rtol k) as [e|r] eqn:Hr; [done|].
  destruct (dict.getitem atol k) as [e|a] eqn:Ha; [done|].
  destruct (column_matches old input rtol atol keys) as [e|ms'] eqn:Hrest;
    [done|].
  injection Hcm as <-. simpl in Hall. apply andb_prop in Hall as [Hk Hall].
  apply elem_of_cons in Hkey as [->|Hkey].
  - by exists oc, nc, r, a.
  - by eapply IH.
Qed.

Lemma compare_with_old_data_sound (U : helpers) (self : search_object)
    (f : stored_file) (s : state) (old : sarray) (s' : state) :
  compare_with_old_data U self f s = (inr (Some old), s') →
  logs_only s s'
  ∧ old = SArray (columns f) (table f)
  ∧ ∃ input,
      input_data s = Some input
      ∧ sa.len old = sa.len input
      ∧ (sa.ncols input ≤ sa.ncols old)%nat
      ∧ columns_agree U self old input.
Proof.
  unfold compare_with_old_data. munfold. simpl.
  destruct (input_data s) as [input|] eqn:Hin; [|done].
  destruct (sa.len _ =? sa.len input)%nat eqn:Hlen; simpl; [|done].
  destruct (sa.ncols _ <? sa.ncols input)%nat eqn:Hcols; simpl; [done|].
  destruct (_get_tolerance_from_savetxt_fmt U self) as [e|tols] eqn:Htol;
    [done|].
  destruct (column_matches _ _ _ _ _) as [e|ms] eqn:Hcm; [done|].
  destruct (forallb id ms) eqn:Hall; [|done].
  intros [= <- <-]. split.
  { eapply logs_only_trans; apply logs_only_info. }
  split; [done|]. exists input. split; [done|].
  split; [by apply Nat.eqb_eq|].
  split; [apply Nat.ltb_ge in Hcols; lia|].
  exists tols. split; [done|]. by eapply column_matches_all.
Qed.

Lemma check_reaches_compare (U : helpers) (self : search_object)
    (s : state) (old : sarray) (s' : state) :
  check_old_data_is_okay_to_use U self s = (inr (Some old), s') →
  clean (args self) = false
  ∧ ∃ f,
      out_file s = Some f
      ∧ not_outdated U self f
      ∧ npset.setxor1d (old_params_dict_str_list U f)
          (new_params_dict_str_list U self) = []
      ∧ compare_with_old_data U self f (after_header_check HeaderMatches s)
        = (inr (Some old), s').
Proof.
  intros Hcheck.
  destruct (clean (args self)) eqn:Hclean.
  { unfold check_old_data_is_okay_to_use in Hcheck. by rewrite Hclean in Hcheck. }
  split; [done|].
  destruct (out_file s) as [f|] eqn:Hfile.
  2: { unfold check_old_data_is_okay_to_use in Hcheck. rewrite Hclean in Hcheck.
       munfold. by rewrite Hfile in Hcheck. }
  assert (not_outdated U self f) as Hfresh.
  { unfold check_old_data_is_okay_to_use in Hcheck. rewrite Hclean in Hcheck.
    munfold. rewrite Hfile in Hcheck. unfold not_outdated.
    destruct (sftfilepattern (args self)); [|done].
    destruct (py_min (matching_sft_mtimes U)) as [e|t]; [done|].
    exists t. split; [done|]. simpl in Hcheck.
    destruct (Z.ltb_spec (mtime f) t); [done|lia]. }
  rewrite (check_reaches_header U self s f Hclean Hfile Hfresh) in Hcheck.
  destruct (npset.setxor1d _ _) as [|y l] eqn:Hxor; [|done].
  by exists f.
Qed.

(** X2. A stored table is reused only if all the checks hold: [clean] is
    off, the file exists and is not older than the oldest SFT file, the lines
    of its header are, as a set, those of the current setup, the table has
    as many rows as the current grid and no fewer columns, and on every
    search key its column agrees with the grid's within the tolerance of
    the key's output format.  What is returned is the stored table itself,
    and the check changes nothing but the log. *)
Theorem reused_table_passed_all_checks (U : helpers) (self : search_object)
    (s : state) (old : sarray) (s' : state) :
  check_old_data_is_okay_to_use U self s = (inr (Some old), s') →
  clean (args self) = false
  ∧ logs_only s s'
  ∧ ∃ f input,
      out_file s = Some f
      ∧ old = SArray (columns f) (table f)
      ∧ not_outdated U self f
      ∧ (∀ x, x ∈ old_params_dict_str_list U f
              ↔ x ∈ new_params_dict_str_list U self)
      ∧ input_data s = Some input
      ∧ sa.len old = sa.len input
      ∧ (sa.ncols input ≤ sa.ncols old)%nat
      ∧ columns_agree U self old input.
Proof.
  intros (Hclean & f & Hfile & Hfresh & Hxor & Hcmp)%check_reaches_compare.
  split; [done|].
  apply compare_with_old_data_sound in Hcmp
    as (Hlogs & -> & input & Hin & Hlen & Hcols & Hagree).
  split.
  { eapply logs_only_trans; [|exact Hlogs]. unfold after_header_check.
    eapply logs_only_trans; apply logs_only_info. }
  exists f, input. split; [done|]. split; [done|]. split; [done|].
  split; [by apply setxor1d_nil|]. done.
Qed.

(** X3. When the validator returns a stored table, [run] stops there: it
    sets [self.data] to that table and returns [None], also when
    [return_data] is true; the evaluator is not called and the output file
    is not written. *)
Theorem run_with_reusable_table (U : helpers) (self : search_object)
    (return_data : bool) (s s1 s2 : state) (old : sarray) :
  _get_input_data_array self s = (inr tt, s1) →
  check_old_data_is_okay_to_use U self s1 = (inr (Some old), s2) →
  run U self return_data s = (inr None, with_data old s2)
  ∧ det_stat_calls (with_data old s2) = det_stat_calls s
  ∧ out_file (with_data old s2) = out_file s
  ∧ clock (with_data old s2) = clock s.
Proof.
  intros Hgrid Hcheck.
  destruct (check_reaches_compare U self s1 old _ Hcheck)
    as (Hclean & f & Hfile & _ & _ & Hcmp).
  apply compare_with_old_data_sound in Hcmp
    as ([l ->] & -> & input & Hin & _).
  apply get_input_data_array_frame in Hgrid as Hframe.
  destruct Hframe as (Hcalls & _ & Hclock & Hout & _).
  split.
  - unfold run. munfold. rewrite Hgrid, Hclean, Hcheck. simpl.
    simpl in Hin. by rewrite Hin.
  - simpl. by rewrite Hcalls, Hout, Hclock.
Qed.

Lemma demo_regridded :
  _get_input_data_array (demo.grid_search 1) (demo.after_run 1)
  = (inr tt, demo.regridded 1).
Proof. vm_compute. reflexivity. Defined.

Lemma demo_revalidated :
  check_old_data_is_okay_to_use (demo.env 1) (demo.grid_search 1)
    (demo.regridded 1)
  = (inr (Some (demo.table 1)), demo.revalidated 1).
Proof. vm_compute. reflexivity. Defined.

Lemma reused_table_passed_all_checks_witness :
  clean (args (demo.grid_search 1)) = false
  ∧ logs_only (demo.regridded 1) (demo.revalidated 1)
  ∧ ∃ f, out_file (demo.regridded 1) = Some f
         ∧ demo.table 1 = SArray (columns f) (table f).
Proof.
  destruct (reused_table_passed_all_checks (demo.env 1) (demo.grid_search 1)
              (demo.regridded 1) (demo.table 1) (demo.revalidated 1)
              demo_revalidated)
    as (Hclean & Hlogs & f & input & Hfile & Htable & _).
  split; [exact Hclean|]. split; [exact Hlogs|].
  exists f. split; [exact Hfile|exact Htable].
Defined.

Lemma run_with_reusable_table_witness :
  run (demo.env 1) (demo.grid_search 1) true (demo.after_run 1)
  = (inr None, with_data (demo.table 1) (demo.revalidated 1))
  ∧ det_stat_calls (with_data (demo.table 1) (demo.revalidated 1))
    = det_stat_calls (demo.after_run 1)
  ∧ out_file (with_data (demo.table 1) (demo.revalidated 1))
    = out_file (demo.after_run 1)
  ∧ clock (with_data (demo.table 1) (demo.revalidated 1))
    = clock (demo.after_run 1).
Proof.
  exact (run_with_reusable_table (demo.env 1) (demo.grid_search 1) true
           (demo.after_run 1) (demo.regridded 1) (demo.revalidated 1)
           (demo.table 1) demo_regridded demo_revalidated).
Defined.
(** ** One evaluator call per grid point *)

Lemma row_effects_refl (s : state) : row_effects 0 s s.
Proof. unfold row_effects. rewrite Nat.add_0_r. done. Qed.

Lemma row_effects_trans (a b : nat) (s1 s2 s3 : state) :
  row_effects a s1 s2 → row_effects b s2 s3 → row_effects (a + b) s1 s3.
Proof.
  unfold row_effects. intros (Ha & ? & ? & ? & ? & ? & ? & ? & ?)
    (Hb & ? & ? & ? & ? & ? & ? & ? & ?).
  split; [lia|]. repeat split; congruence.
Qed.

#[local] Instance row_effects_preorder : PreOrder (row_effects 0).
Proof.
  split; [intros s; apply row_effects_refl|].
  intros s1 s2 s3. apply (row_effects_trans 0 0).
Qed.

#[local] Instance logs_only_preorder : PreOrder logs_only.
Proof.
  split; [intros s; apply logs_only_refl|].
  intros s1 s2 s3. apply logs_only_trans.
Qed.

Section Preserves.
Context (R : state → state → Prop) `{!PreOrder R}.

Lemma preserves_ret {A} (a : A) : preserves R (mret a).
Proof. intros s r s'. munfold. by intros [= <- <-]. Qed.

Lemma preserves_lift {A} (x : exn + A) : preserves R (lift x).
Proof. intros s r s'. munfold. by intros [= <- <-]. Qed.

Lemma preserves_raise {A} (e : exn) : preserves R (raise e : M A).
Proof. intros s r s'. munfold. by intros [= <- <-]. Qed.

Lemma preserves_getattr {A} (name : string) (proj : state → option A) :
  preserves R (getattr name proj).
Proof. intros s r s'. munfold. by destruct (proj s); intros [= <- <-]. Qed.

Lemma preserves_get_state : preserves R get_state.
Proof. intros s r s'. munfold. by intros [= <- <-]. Qed.

Lemma preserves_bind {A B} (m : M A) (k : A → M B) :
  preserves R m → (∀ a, preserves R (k a)) → preserves R (m ≫= k).
Proof.
  intros Hm Hk s r s'. munfold. destruct (m s) as [[e|a] s1] eqn:Hms.
  - intros [= <- <-]. by eapply Hm.
  - intros Hka. transitivity s1; [by eapply Hm|by eapply Hk].
Qed.

Lemma preserves_for_each {A B} (l : list A) (acc : B) (body : B → A → M B) :
  (∀ acc x, preserves R (body acc x)) → preserves R (for_each l acc body).
Proof.
  intros Hbody. revert acc. induction l as [|x l IH]; intros acc; simpl.
  - apply preserves_ret.
  - apply preserves_bind; [apply Hbody|]. intros acc'. apply IH.
Qed.

End Preserves.

Lemma preserves_info (m : logmsg) : preserves logs_only (logger_info m).
Proof. intros s r s'. munfold. intros [= <- <-]. apply logs_only_info. Qed.

Lemma preserves_timing (t : float) :
  preserves (row_effects 0) (modify (with_timingFstatMap t)).
Proof.
  intros s r s'. munfold. intros [= <- <-]. unfold row_effects. simpl.
  rewrite Nat.add_0_r. done.
Qed.

Lemma preserves_tcw_files (f : state → list (list float)) :
  preserves (row_effects 0) (modify (λ s, with_tcw_files (f s) s)).
Proof.
  intros s r s'. munfold. intros [= <- <-]. unfold row_effects. simpl.
  rewrite Nat.add_0_r. done.
Qed.

Ltac preserves_step :=
  first
    [ apply preserves_ret; apply _ | apply preserves_lift; apply _
    | apply preserves_raise; apply _ | apply preserves_getattr; apply _
    | apply preserves_get_state; apply _
    | apply preserves_timing | apply preserves_tcw_files | apply preserves_info
    | apply preserves_for_each; [apply _|intros ? ?]
    | apply preserves_bind; [apply _| |intros ?] ].

Ltac preserves_cases :=
  match goal with
  | |- preserves _ (if ?b then _ else _) => destruct b
  | |- preserves _ (match ?x with _ => _ end) => destruct x
  | |- preserves _ (let _ := _ in _) => cbv zeta
  end.

Ltac preserves_all := repeat first [preserves_step | preserves_cases].

Lemma preserves_set_per_detector (c : dict.t float) (names : list string)
    (key : string → string) (values : list float) :
  preserves (row_effects 0) (set_per_detector c names key values).
Proof. unfold set_per_detector. preserves_all. Qed.

Lemma preserves_store_candidate (self : search_object) (c : dict.t float)
    (d : sarray) (n : nat) :
  preserves (row_effects 0) (store_candidate self c d n).
Proof. unfold store_candidate. preserves_all. Qed.

Lemma evaluate_then (r : Z + outputs) {B} (k : outputs → M B) :
  (∀ out, preserves (row_effects 0) (k out)) →
  preserves (row_effects 1) (call_evaluator r ≫= k).
Proof.
  intros Hk s res s'. munfold.
  destruct (call_evaluator r s) as [[e|out] s1] eqn:Hcall;
    apply call_evaluator_inv in Hcall as [-> _].
  - intros [= <- <-]. unfold row_effects. simpl. split; [lia|done].
  - intros Hrest.
    apply (row_effects_trans 1 0 s
             (with_det_stat_calls (S (det_stat_calls s)) s) s');
      [|by eapply Hk].
    unfold row_effects. simpl. split; [lia|done].
Qed.

Lemma single_cand_results_effects (self : search_object) (d : sarray)
    (n : nat) (vals : list float) :
  preserves (row_effects 1) (_get_single_cand_results self d n vals).
Proof.
  unfold _get_single_cand_results.
  destruct (kind self).
  - unfold GridSearch_get_single_cand_results. cbv zeta.
    apply evaluate_then. intros out.
    apply preserves_bind; [apply _| |intros c; apply preserves_store_candidate].
    destruct (singleFstats _);
      [apply preserves_set_per_detector|apply preserves_ret; apply _].
  - unfold TransientGridSearch_get_single_cand_results. cbv zeta.
    apply evaluate_then. intros out.
    repeat first [ apply preserves_set_per_detector
                 | apply preserves_store_candidate
                 | preserves_step | preserves_cases ].
  - unfold TransientGridSearch_get_single_cand_results. cbv zeta.
    apply evaluate_then. intros out.
    repeat first [ apply preserves_set_per_detector
                 | apply preserves_store_candidate
                 | preserves_step | preserves_cases ].
  - unfold GridGlitchSearch_get_single_cand_results. cbv zeta.
    apply evaluate_then. intros out. preserves_all.
Qed.

Lemma check_old_data_logs_only (U : helpers) (self : search_object) :
  preserves logs_only (check_old_data_is_okay_to_use U self).
Proof.
  unfold check_old_data_is_okay_to_use, compare_with_old_data.
  preserves_all.
Qed.

Lemma for_each_counts {A B} (l : list A) (acc : B) (body : B → A → M B)
    (s : state) r s' :
  (∀ acc x, preserves (row_effects 1) (body acc x)) →
  for_each l acc body s = (r, s') →
  ∃ k, (k ≤ length l)%nat ∧ row_effects k s s'
       ∧ (∀ b, r = inr b → k = length l).
Proof.
  intros Hbody. revert acc s. induction l as [|x l IH]; intros acc s.
  - simpl. munfold. intros [= <- <-]. exists 0%nat.
    split; [done|]. split; [apply row_effects_refl|done].
  - rewrite for_each_cons.
    destruct (body acc x s) as [[e|acc'] s1] eqn:Hb; apply Hbody in Hb.
    + intros [= <- <-]. exists 1%nat. simpl. split; [lia|]. by split.
    + intros Hrest. destruct (IH _ _ Hrest) as (k & Hk & Heff & Hall).
      exists (1 + k)%nat. split; [simpl; lia|].
      split; [by apply (row_effects_trans 1 k s s1 s')|].
      intros b Hr. by rewrite (Hall b Hr).
Qed.

(** The accumulator of a loop keeps what every step keeps. *)
Lemma for_each_returns {A B} (I : B → Prop) (l : list A) (acc : B)
    (body : B → A → M B) (s : state) b s' :
  (∀ acc x s acc' s', I acc → body acc x s = (inr acc', s') → I acc') →
  I acc → for_each l acc body s = (inr b, s') → I b.
Proof.
  intros Hbody. revert acc s. induction l as [|x l IH]; intros acc s Hacc.
  - simpl. munfold. by intros [= <- <-].
  - rewrite for_each_cons.
    destruct (body acc x s) as [[e|acc'] s1] eqn:Hb; [done|].
    apply IH. by eapply Hbody.
Qed.

Lemma set_cell_shape (d d' : sarray) (key : string) (n : nat) (v : float) :
  sa.set_cell d key n v = inr d' →
  same_shape d d'.
Proof.
  intros (k & r & _ & _ & ->)%set_cell_inv. unfold same_shape, sa.len. simpl.
  by rewrite length_insert.
Qed.

Lemma store_candidate_shape (self : search_object) (c : dict.t float)
    (d : sarray) (n : nat) (s : state) d' s' :
  store_candidate self c d n s = (inr d', s') →
  same_shape d d'.
Proof.
  unfold store_candidate.
  apply (for_each_returns (same_shape d));
    [|done].
  intros acc key s1 acc' s1' [Hn Hl]. munfold.
  destruct (dict.mem c key); [|done].
  destruct (dict.getitem c key) as [e|v]; [done|].
  destruct (sa.set_cell acc key n v) as [e|a] eqn:Hset; [done|].
  intros [= <- <-]. apply set_cell_shape in Hset as [Hn' Hl'].
  split; congruence.
Qed.

Lemma bind_returns {A B} (P : B → Prop) (m : M A) (k : A → M B)
    (s : state) b s' :
  (∀ a s1, k a s1 = (inr b, s') → P b) → (m ≫= k) s = (inr b, s') → P b.
Proof. intros Hk (a & s1 & _ & Hka)%bind_inr. by eapply Hk. Qed.

Lemma single_cand_results_shape (self : search_object) (d : sarray)
    (n : nat) (vals : list float) (s : state) d' s' :
  _get_single_cand_results self d n vals s = (inr d', s') →
  same_shape d d'.
Proof.
  unfold _get_single_cand_results.
  destruct (kind self).
  - unfold GridSearch_get_single_cand_results. cbv zeta.
    repeat (apply bind_returns; intros ? ?).
    apply store_candidate_shape.
  - unfold TransientGridSearch_get_single_cand_results. cbv zeta.
    repeat (apply bind_returns; intros ? ?).
    apply store_candidate_shape.
  - unfold TransientGridSearch_get_single_cand_results. cbv zeta.
    repeat (apply bind_returns; intros ? ?).
    apply store_candidate_shape.
  - unfold GridGlitchSearch_get_single_cand_results. cbv zeta.
    apply bind_returns; intros out s1.
    apply (for_each_returns (same_shape d));
      [|done].
    intros acc key s2 acc' s2' [Hn Hl]. munfold.
    destruct (list_index _ _) as [e|v]; [done|].
    destruct (sa.set_cell acc key.2 n v) as [e|a] eqn:Hset; [done|].
    intros [= <- <-]. apply set_cell_shape in Hset as [Hn' Hl'].
  split; congruence.
Qed.

Lemma search_loop_effects (self : search_object) (it : iterable) (d : sarray)
    (s : state) r s' :
  search_loop self it d s = (r, s') →
  ∃ k, (k ≤ length (iter it))%nat ∧ row_effects k s s'
       ∧ (∀ d', r = inr d' →
            k = length (iter it)
            ∧ same_shape d d').
Proof.
  unfold search_loop. intros Hloop.
  destruct (for_each_counts _ _ _ _ _ _
              (λ acc x, single_cand_results_effects self acc x.1 x.2) Hloop)
    as (k & Hk & Heff & Hall).
  unfold enumerate in Hk, Hall. rewrite length_imap in Hk, Hall.
  exists k. split; [done|]. split; [done|].
  intros d' ->. split; [by eapply Hall|].
  revert Hloop.
  apply (for_each_returns (same_shape d));
    [|done].
  intros acc x s1 acc' s1' [Hn Hl] Hrow.
  apply single_cand_results_shape in Hrow as [Hn' Hl']. split; congruence.
Qed.

Lemma savetxt_rows_spec (U : helpers) (fmt : list string)
    (X : list (list float)) (written : list (list float)) :
  ∃ lines,
    (savetxt_rows U fmt X written).1 = written ++ lines
    ∧ match (savetxt_rows U fmt X written).2 with
      | None => read_back U fmt X lines
      | Some e => ∃ n, first_failing_row U fmt X n e lines
      end.
Proof.
  revert written. induction X as [|row X IH]; intros written; simpl.
  - exists []. split; [by rewrite app_nil_r|]. constructor.
  - destruct (savetxt_row U fmt row) as [e|line] eqn:Hrow; simpl.
    + exists []. split; [by rewrite app_nil_r|]. exists 0%nat.
      split; [constructor|]. by exists row.
    + destruct (IH (written ++ [line])) as (lines & Hw & Hres).
      exists (line :: lines). split; [by rewrite Hw, <- app_assoc|].
      destruct (savetxt_rows U fmt X (written ++ [line])).2 as [e|].
      * destruct Hres as (n & Hback & row' & Hn & He). exists (S n).
        split; [by constructor|]. by exists row'.
      * by constructor.
Qed.

Lemma read_back_length (U : helpers) (fmt : list string)
    (X lines : list (list float)) :
  read_back U fmt X lines → length lines = length X.
Proof. intros Hback. symmetry. by eapply Forall2_length. Qed.

Lemma save_array_to_disk_inv (U : helpers) (self : search_object)
    (s s' : state) :
  save_array_to_disk U self s = (inr tt, s') →
  ∃ d outfmt lines,
    data s = Some d
    ∧ _get_savetxt_fmt_list U self = inr outfmt
    ∧ length outfmt = sa.ncols d
    ∧ read_back U outfmt (rows d) lines
    ∧ s' = with_out_file
             (StoredFile (clock s) (output_file_header self) (output_keys self)
                lines)
             (with_log (λ l, l ++ [SavingData]) s).
Proof.
  unfold save_array_to_disk, savetxt, npset.nan_to_num. munfold. simpl.
  destruct (_get_savetxt_fmt_list U self) as [e|outfmt]; [done|].
  destruct (data s) as [d|]; [|done].
  destruct (length outfmt =? sa.ncols d)%nat eqn:Hlen; simpl; [|done].
  destruct (savetxt_rows_spec U outfmt (rows d) []) as (lines & Hw & Hres).
  destruct (savetxt_rows U outfmt (rows d) []).2; [done|].
  intros [= <-]. exists d, outfmt, lines. rewrite Hw.
  by apply Nat.eqb_eq in Hlen.
Qed.

Lemma lift_inr {A} (x : exn + A) (a : A) (s s' : state) :
  lift x s = (inr a, s') → x = inr a ∧ s' = s.
Proof. munfold. by intros [= <- <-]. Qed.

Lemma getattr_inr {A} (name : string) (proj : state → option A) (a : A)
    (s s' : state) :
  getattr name proj s = (inr a, s') → proj s = Some a ∧ s' = s.
Proof. munfold. destruct (proj s); [|done]. by intros [= <- <-]. Qed.

Lemma modify_inr (f : state → state) (u : unit) (s s' : state) :
  modify f s = (inr u, s') → s' = f s.
Proof. munfold. by intros [= <-]. Qed.

Lemma ret_inr {A} (a b : A) (s s' : state) :
  (mret a : M A) s = (inr b, s') → b = a ∧ s' = s.
Proof. munfold. by intros [= <- <-]. Qed.

(** X4. A call of [run] that returns has either reused a stored table, and
    then called the evaluator zero times and left the output file alone, or
    called the evaluator exactly once for every point of the input grid and
    built a table with the output keys as fields and one row per point.  In
    the second case, with [return_data] it returns that table and neither
    sets [self.data] nor writes the file; without, it sets [self.data] and
    writes the file, with the header of the search, the output keys as
    column names and one line per point.  [clean] is off in either case. *)
Theorem run_evaluates_each_point_once (U : helpers) (self : search_object)
    (return_data : bool) (s : state) (r : option sarray) (s' : state) :
  run U self return_data s = (inr r, s') →
  clean (args self) = false
  ∧ ∃ input,
      input_data s' = Some input
      ∧ ((r = None
          ∧ det_stat_calls s' = det_stat_calls s
          ∧ out_file s' = out_file s
          ∧ ∃ f, out_file s = Some f
                 ∧ data s' = Some (SArray (columns f) (table f)))
         ∨ (∃ d,
              det_stat_calls s' = (det_stat_calls s + sa.len input)%nat
              ∧ names d = output_keys self
              ∧ sa.len d = sa.len input
              ∧ if return_data
                then r = Some d ∧ out_file s' = out_file s ∧ data s' = data s
                else r = None ∧ data s' = Some d
                     ∧ ∃ f, out_file s' = Some f
                            ∧ mtime f = clock s
                            ∧ header f = output_file_header self
                            ∧ columns f = output_keys self
                            ∧ length (table f) = sa.len input)).
Proof.
  unfold run. intros Hrun.
  apply bind_inr in Hrun as ([] & s1 & Hgrid & Hrun).
  apply get_input_data_array_frame in Hgrid as Hframe.
  destruct Hframe as (Hcalls1 & _ & Hclock1 & Hout1 & Hdata1 & _).
  apply bind_inr in Hrun as (first & s2 & Hfirst & Hrun).
  destruct (clean (args self)) eqn:Hclean.
  { apply bind_inr in Hfirst as (cs & s3 & _ & [-> ->]%ret_inr).
    simpl in Hrun. by apply bind_inr in Hrun as (n & s4 & [=] & _). }
  split; [done|].
  apply bind_inr in Hfirst as (old_data & s3 & Hcheck & Hfirst).
  apply bind_inr in Hfirst
    as (input & s4 & [Hin3 ->]%getattr_inr & [-> ->]%ret_inr).
  pose proof (check_old_data_logs_only U self _ _ _ Hcheck) as [l Hs3].
  simpl in Hrun. destruct old_data as [old|].
  - apply check_reaches_compare in Hcheck as (_ & f & Hfile & _ & _ & Hcmp).
    apply compare_with_old_data_sound in Hcmp as (_ & -> & _).
    apply bind_inr in Hrun as ([] & s5 & ->%modify_inr & [<- ->]%ret_inr).
    exists input.
    split; [done|]. left. subst s3. simpl.
    rewrite Hcalls1, Hout1. repeat (split; [done|]).
    exists f. by rewrite <- Hout1.
  - apply bind_inr in Hrun as (n & s5 & [_ ->]%lift_inr & Hrun).
    apply bind_inr in Hrun as ([] & s6 & ->%modify_inr & Hrun).
    apply bind_inr in Hrun as (input2 & s7 & [Hin7 ->]%getattr_inr & Hrun).
    simpl in Hin7. rewrite Hin3 in Hin7. injection Hin7 as <-.
    apply bind_inr in Hrun as (d & s8 & Hloop & Hrun).
    apply search_loop_effects in Hloop as (k & _ & Heff & Hall).
    destruct (Hall d eq_refl) as (-> & Hnames & Hlen). clear Hall.
    destruct Heff as (Hc & Hl & Hso & Hcl & Hof & Hca & Hti & Hid & Hd).
    subst s3. simpl in *.
    assert (det_stat_calls s8 = (det_stat_calls s + sa.len input)%nat) as Hcount.
    { rewrite Hc. by rewrite Hcalls1. }
    unfold sa.len in Hlen at 2. simpl in Hlen. rewrite length_replicate in Hlen.
    destruct return_data.
    + apply ret_inr in Hrun as [-> ->]. exists input.
      split; [by rewrite Hid|]. right. exists d.
      repeat (split; [done|]).
      split; congruence.
    + apply bind_inr in Hrun as ([] & s9 & ->%modify_inr & Hrun).
      apply bind_inr in Hrun as ([] & s10 & Hsave & [-> ->]%ret_inr).
      apply save_array_to_disk_inv in Hsave
        as (d' & outfmt & lines & [= <-] & Hfmt & Hn & Hback & ->).
      exists input. simpl. split; [by rewrite Hid|]. right. exists d.
      repeat (split; [done|]).
      eexists. split; [done|]. simpl.
      rewrite (read_back_length _ _ _ _ Hback).
      split; [|done]. congruence.
Qed.

Lemma demo_first_run :
  run (demo.env 1) (demo.grid_search 1) false demo.initial_state
  = (inr None, demo.after_run 1).
Proof. vm_compute. reflexivity. Defined.

Lemma run_evaluates_each_point_once_witness :
  clean (args (demo.grid_search 1)) = false
  ∧ ∃ input,
      input_data (demo.after_run 1) = Some input
      ∧ (((None : option sarray) = None
          ∧ det_stat_calls (demo.after_run 1) = det_stat_calls demo.initial_state
          ∧ out_file (demo.after_run 1) = out_file demo.initial_state
          ∧ ∃ f, out_file demo.initial_state = Some f
                 ∧ data (demo.after_run 1) = Some (SArray (columns f) (table f)))
         ∨ (∃ d,
              det_stat_calls (demo.after_run 1)
              = (det_stat_calls demo.initial_state + sa.len input)%nat
              ∧ names d = output_keys (demo.grid_search 1)
              ∧ sa.len d = sa.len input
              ∧ (None : option sarray) = None ∧ data (demo.after_run 1) = Some d
              ∧ ∃ f, out_file (demo.after_run 1) = Some f
                     ∧ mtime f = clock demo.initial_state
                     ∧ header f = output_file_header (demo.grid_search 1)
                     ∧ columns f = output_keys (demo.grid_search 1)
                     ∧ length (table f) = sa.len input)).
Proof.
  exact (run_evaluates_each_point_once (demo.env 1) (demo.grid_search 1) false
           demo.initial_state None (demo.after_run 1) demo_first_run).
Defined.

(** ** A run that raises *)

#[local] Instance no_file_written_preorder : PreOrder no_file_written.
Proof.
  split; [by intros s|].
  intros s1 s2 s3 [? ?] [? ?]. split; congruence.
Qed.




Lemma preserves_fails {A} (R : state → state → Prop) (m : M A) :
  preserves R m → fails_within R m.
Proof. intros Hm s e s'. apply Hm. Qed.

Lemma fails_bind {A B} (R : state → state → Prop) `{!PreOrder R}
    (m : M A) (k : A → M B) :
  preserves R m → (∀ a, fails_within R (k a)) → fails_within R (m ≫= k).
Proof.
  intros Hm Hk s e s'. munfold. destruct (m s) as [[e1|a] s1] eqn:Hms.
  - intros [= <- <-]. by eapply Hm.
  - intros Hka. transitivity s1; [by eapply Hm|by eapply Hk].
Qed.

Lemma fails_then_ret {A B} (R : state → state → Prop) (m : M A) (b : B) :
  fails_within R m → fails_within R (m ;; mret b).
Proof.
  intros Hm s e s'. munfold. destruct (m s) as [[e1|a] s1] eqn:Hms; [|done].
  intros [= <- <-]. by eapply Hm.
Qed.












(** ** Translating parameter names to the lalpulsar convention *)

Lemma dict_get_keys {V} (d : dict.t V) (k : string) :
  k ∈ d.*1 ↔ is_Some (dict.get d k).
Proof.
  induction d as [|[k0 v0] d IH]; simpl.
  - split; [by intros ?%elem_of_nil|by intros [? ?]].
  - rewrite elem_of_cons. destruct (String.eqb_spec k0 k) as [->|Hne].
    + split; [by eexists|by left].
    + rewrite <- IH. split; [intros [->|?]; done|by right].
Qed.

Lemma dict_set_keys {V} (d : dict.t V) (k : string) (v : V) :
  (dict.set d k v).*1 = if bool_decide (k ∈ d.*1) then d.*1 else d.*1 ++ [k].
Proof.
  induction d as [|[k0 v0] d IH]; [done|]. cbn [dict.set].
  destruct (String.eqb_spec k0 k) as [->|Hne]; rewrite !fmap_cons; cbn [fst].
  - rewrite bool_decide_eq_true_2; [done|left].
  - rewrite IH. destruct (decide (k ∈ d.*1)) as [Hin|Hin].
    + rewrite !bool_decide_eq_true_2; [done|by right|done].
    + rewrite !bool_decide_eq_false_2; [done| |done].
      by intros [->|?]%elem_of_cons.
Qed.

Lemma dict_set_NoDup {V} (d : dict.t V) (k : string) (v : V) :
  NoDup d.*1 → NoDup (dict.set d k v).*1.
Proof.
  intros Hnd. rewrite dict_set_keys. case_bool_decide as Hin; [done|].
  apply NoDup_app. split; [done|]. split; [|apply NoDup_singleton].
  intros x Hx ->%list_elem_of_singleton. done.
Qed.

Lemma pop_returns {V} (d : dict.t V) (k : string) :
  is_Some (dict.get d k) → ∃ v d', pop d k = inr (v, d').
Proof.
  induction d as [|[k0 v0] d IH]; simpl; [by intros [? ?]|].
  destruct (String.eqb_spec k0 k) as [->|Hne]; [by eexists _, _|].
  intros (v & d' & ->)%IH. by eexists _, _.
Qed.

Lemma pop_spec {V} (d d' : dict.t V) (k : string) (v : V) :
  NoDup d.*1 → pop d k = inr (v, d') →
  dict.get d k = Some v ∧ dict.get d' k = None
  ∧ (∀ k', k' ≠ k → dict.get d' k' = dict.get d k')
  ∧ NoDup d'.*1.
Proof.
  revert d'. induction d as [|[k0 v0] d IH]; simpl; intros d' Hnd; [done|].
  apply NoDup_cons in Hnd as [Hk0 Hnd].
  destruct (String.eqb_spec k0 k) as [->|Hne].
  - intros [= <- <-]. split; [done|]. split.
    + destruct (dict.get d k) eqn:Hget; [|done].
      destruct Hk0. apply dict_get_keys. by eexists.
    + split; [|done]. intros k' Hk'. by destruct (String.eqb_spec k k').
  - destruct (pop d k) as [e|[w d'']] eqn:Hpop; [done|].
    intros [= <- <-]. destruct (IH d'' Hnd eq_refl) as (Hw & Hk & Hother & Hnd').
    split; [done|]. simpl. destruct (String.eqb_spec k0 k); [done|].
    split; [done|]. split.
    + intros k' Hk'. destruct (String.eqb_spec k0 k'); [done|by apply Hother].
    + apply NoDup_cons. split; [|done]. intros Hin. apply Hk0.
      apply dict_get_keys. apply dict_get_keys in Hin.
      by rewrite <- Hother.
Qed.

Section Translation.
Context {V : Type} (tr : dict.t string).
Hypothesis tr_fresh : ∀ k t, dict.get tr k = Some t → dict.get tr t = None.
Hypothesis tr_inj :
  ∀ k1 k2 t, dict.get tr k1 = Some t → dict.get tr k2 = Some t → k1 = k2.

Lemma translate_keys_spec (keys : list string) (cur : dict.t V) :
  NoDup keys → NoDup cur.*1 →
  (∀ k, k ∈ keys → is_Some (dict.get tr k) ∧ is_Some (dict.get cur k)) →
  ∃ d', translate_keys tr keys cur = inr d'
    ∧ NoDup d'.*1
    ∧ (∀ k, k ∈ keys → dict.get d' k = None)
    ∧ (∀ k t, k ∈ keys → dict.get tr k = Some t →
         dict.get d' t = dict.get cur k)
    ∧ (∀ x, x ∉ keys → (∀ k, k ∈ keys → dict.get tr k ≠ Some x) →
         dict.get d' x = dict.get cur x).
Proof.
  revert cur. induction keys as [|k keys IH]; intros cur Hkeys Hcur Hsrc.
  { exists cur. split; [done|]. split; [done|].
    split; [by intros k ?%elem_of_nil|].
    split; [by intros k t ?%elem_of_nil|done]. }
  apply NoDup_cons in Hkeys as [Hk Hkeys].
  destruct (Hsrc k ltac:(left)) as [[t Ht] Hcurk].
  destruct (pop_returns cur k Hcurk) as (v & c1 & Hpop).
  destruct (pop_spec cur c1 k v Hcur Hpop) as (Hv & Hgone & Hother & Hnd1).
  assert (dict.get tr t = None) as Htt by (by eapply tr_fresh).
  assert (t ≠ k) as Htk by (intros ->; congruence).
  assert (∀ k', k' ∈ keys → k' ≠ k ∧ k' ≠ t) as Hne.
  { intros k' Hk'. split; [by intros ->|]. intros ->.
    destruct (Hsrc t ltac:(by right)) as [[? ?] _]. congruence. }
  destruct (IH (dict.set c1 t v)) as (d' & Hrun & Hnd' & Hnone & Hmoved & Hkept).
  { done. }
  { by apply dict_set_NoDup. }
  { intros k' Hk'. destruct (Hne k' Hk') as [? ?].
    destruct (Hsrc k' ltac:(by right)) as [? ?]. split; [done|].
    rewrite dict_get_set_ne by done. by rewrite Hother. }
  exists d'. split.
  { simpl. rewrite Hpop. unfold dict.getitem. by rewrite Ht. }
  split; [done|]. split; [|split].
  - intros k' [->|Hk']%elem_of_cons; [|by apply Hnone].
    rewrite Hkept; [by rewrite dict_get_set_ne|done|].
    intros k' Hk' Hk't. rewrite (tr_fresh _ _ Hk't) in Ht. done.
  - intros k' t' [->|Hk']%elem_of_cons Ht'.
    + assert (t' = t) as -> by congruence.
      rewrite Hkept; [by rewrite dict_get_set_eq, Hv| |].
      * intros Hin. by destruct (Hne t Hin).
      * intros k' Hk' Hk't. destruct Hk. by rewrite <- (tr_inj _ _ _ Hk't Ht).
    + rewrite (Hmoved k' t' Hk' Ht'). destruct (Hne k' Hk') as [? ?].
      rewrite dict_get_set_ne by done. by apply Hother.
  - intros x Hx Hnot. apply not_elem_of_cons in Hx as [Hxk Hx].
    rewrite Hkept; [| done |intros k' Hk'; apply Hnot; by right].
    rewrite dict_get_set_ne; [by apply Hother|].
    intros <-. by destruct (Hnot k ltac:(left)).
Qed.

End Translation.

Lemma pretty_N_char_digit (x : N) : str.is_digit (pretty_N_char x) = true.
Proof. unfold pretty_N_char. by repeat case_match. Qed.

Lemma pretty_N_go_digit (x : N) (s : string) :
  (0 < x)%N → starts_with_digit (pretty_N_go x s).
Proof.
  revert s. induction (N.lt_wf_0 x) as [x _ IH]; intros s Hx.
  rewrite pretty_N_go_step by done.
  destruct (decide (x `div` 10 = 0)%N) as [->|Hdiv].
  - rewrite pretty_N_go_0. simpl. apply pretty_N_char_digit.
  - apply IH; [by apply N.div_lt|]. by apply N.neq_0_lt_0.
Qed.

Lemma pretty_nat_digit (n : nat) : starts_with_digit (pretty n).
Proof.
  unfold pretty, pretty_nat, pretty, pretty_N.
  case_decide as Hn; [done|]. apply pretty_N_go_digit. lia.
Qed.

Lemma dict_set_fresh {V} (d : dict.t V) (k : string) (v : V) :
  k ∉ d.*1 → dict.set d k v = d ++ [(k, v)].
Proof.
  induction d as [|[k0 v0] d IH]; [done|]. rewrite fmap_cons. cbn [fst dict.set].
  intros [Hne Hk]%not_elem_of_cons.
  destruct (String.eqb_spec k0 k) as [->|_]; [done|]. by rewrite IH.
Qed.

Lemma update_fresh {V} (d other : dict.t V) :
  NoDup (d ++ other).*1 → update d other = d ++ other.
Proof.
  unfold update. revert d. induction other as [|[k v] other IH]; intros d Hnd.
  - by rewrite app_nil_r.
  - simpl. rewrite dict_set_fresh.
    + rewrite IH; rewrite <- app_assoc; done.
    + rewrite fmap_app, fmap_cons in Hnd. apply NoDup_app in Hnd as (_ & Hd & _).
      intros Hk. apply (Hd k Hk). left.
Qed.

Lemma dict_get_elem_of {V} (d : dict.t V) (k : string) (v : V) :
  dict.get d k = Some v → (k, v) ∈ d.
Proof.
  induction d as [|[k0 v0] d IH]; simpl; [done|].
  destruct (String.eqb_spec k0 k) as [->|_].
  - intros [= ->]. left.
  - intros ?%IH. by right.
Qed.

Lemma string_length_app (s t : string) :
  String.length (s +:+ t) = (String.length s + String.length t)%nat.
Proof.
  induction s as [|a s IH]; [done|]. rewrite append_cons. simpl. by rewrite IH.
Qed.

Lemma string_app_inj_r (s1 s2 t : string) : s1 +:+ t = s2 +:+ t → s1 = s2.
Proof.
  revert s2. induction s1 as [|a s1 IH]; intros [|b s2] Heq.
  - done.
  - apply (f_equal String.length) in Heq. rewrite append_nil, append_cons in Heq.
    simpl in Heq. rewrite string_length_app in Heq. lia.
  - apply (f_equal String.length) in Heq. rewrite append_nil, append_cons in Heq.
    simpl in Heq. rewrite string_length_app in Heq. lia.
  - rewrite !append_cons in Heq. injection Heq as -> Heq. f_equal. by apply IH.
Qed.

Lemma spin_source_inj (i j : nat) : spin_source i = spin_source j → i = j.
Proof.
  unfold spin_source. rewrite !append_cons, !append_nil. intros [= Heq].
  apply (inj pretty) in Heq. lia.
Qed.

Lemma spin_target_inj (i j : nat) : spin_target i = spin_target j → i = j.
Proof.
  unfold spin_target. rewrite !append_cons, !append_nil. intros [= Heq].
  apply string_app_inj_r in Heq. apply (inj pretty) in Heq. lia.
Qed.

Lemma spin_source_head (j : nat) :
  ∃ c s, spin_source j = String "F" (String c s) ∧ str.is_digit c = true.
Proof.
  unfold spin_source. rewrite append_cons, append_nil.
  pose proof (pretty_nat_digit (j + 1)) as Hd.
  destruct (pretty (j + 1)%nat) as [|c s]; [done|]. by exists c, s.
Qed.

Lemma spin_target_head (j : nat) : ∃ s, spin_target j = String "f" s.
Proof. unfold spin_target. rewrite !append_cons, append_nil. by eexists. Qed.

Ltac fixed_cases H :=
  unfold fixed_translation in H;
  repeat (apply elem_of_cons in H as [H|H]; [simplify_eq|]);
  try (by apply elem_of_nil in H).

Lemma spin_source_other (j : nat) (c : ascii) (s : string) :
  c ≠ "F"%char → String c s ≠ spin_source j.
Proof.
  intros Hc. destruct (spin_source_head j) as (c' & s' & -> & _). congruence.
Qed.

Lemma spin_target_other (j : nat) (c : ascii) (s : string) :
  c ≠ "f"%char → String c s ≠ spin_target j.
Proof. intros Hc. destruct (spin_target_head j) as (s' & ->). congruence. Qed.

Lemma fixed_translation_sources (k t : string) :
  (k, t) ∈ fixed_translation →
  k ≠ "F0" ∧ (∀ j, k ≠ spin_source j) ∧ (∀ j, k ≠ spin_target j)
  ∧ t ≠ "Freq" ∧ (∀ j, t ≠ spin_target j)
  ∧ t ≠ "F0" ∧ (∀ j, t ≠ spin_source j)
  ∧ (∀ t', (t, t') ∉ fixed_translation)
  ∧ (∀ k', (k', t) ∈ fixed_translation → k' = k).
Proof.
  intros H.
  fixed_cases H;
    (split; [done|]; split; [intros j; by apply spin_source_other|];
     split; [intros j; by apply spin_target_other|];
     split; [done|]; split; [intros j; by apply spin_target_other|];
     split; [done|]; split; [intros j; by apply spin_source_other|];
     split; [intros t' H'; by fixed_cases H'|];
     intros k' H'; by fixed_cases H').
Qed.

Lemma lal_sources_NoDup (n : nat) :
  NoDup ((("F0", "Freq") :: map (λ j, (spin_source j, spin_target j))
                             (seq 0 (n - 1)) ++ fixed_translation).*1).
Proof.
  rewrite fmap_cons, fmap_app, <- list_fmap_compose. cbn [fst].
  apply NoDup_cons. split.
  - intros [Hin|Hin]%elem_of_app.
    + apply list_elem_of_fmap in Hin as (j & Heq & _). simpl in Heq.
      destruct (spin_source_head j) as (c & s & Hj & _).
      unfold spin_source in *. rewrite append_cons, append_nil in Heq.
      injection Heq as Heq. change "0" with (pretty 0%nat) in Heq.
      apply (inj pretty) in Heq. lia.
    + apply list_elem_of_fmap in Hin as ([k t] & Heq & Hin). simpl in Heq.
      subst k. by apply fixed_translation_sources in Hin as (? & _).
  - apply NoDup_app. split; [|split].
    + apply NoDup_fmap_2_strong; [|apply NoDup_seq].
      intros i j _ _ Heq. by apply spin_source_inj.
    + intros x (j & -> & _)%list_elem_of_fmap
        ([k t] & Heq & Hin)%list_elem_of_fmap. simpl in Heq.
      apply fixed_translation_sources in Hin as (_ & Hk & _).
      by apply (Hk j).
    + apply (bool_decide_unpack _). vm_compute. exact I.
Qed.

Lemma lal_translation_eq (n : nat) :
  lal_translation n
  = ("F0", "Freq") :: map (λ j, (spin_source j, spin_target j)) (seq 0 (n - 1))
      ++ fixed_translation.
Proof.
  pose proof (lal_sources_NoDup n) as Hnd.
  unfold lal_translation. cbv zeta.
  change (map (λ k, ("F" +:+ pretty (k + 1)%nat,
                     "f" +:+ pretty (k + 1)%nat +:+ "dot")) (seq 0 (n - 1)))
    with (map (λ j, (spin_source j, spin_target j)) (seq 0 (n - 1))).
  rewrite (update_fresh [("F0", "Freq")]).
  - rewrite update_fresh; [done|]. cbn [app]. exact Hnd.
  - cbn [app]. rewrite fmap_cons. rewrite fmap_cons, fmap_app in Hnd.
    apply NoDup_cons in Hnd as [Hf Hnd]. apply NoDup_cons. split.
    + intros Hin. apply Hf. apply elem_of_app. by left.
    + by apply NoDup_app in Hnd as (? & _).
Qed.

Lemma lal_translation_cases (n : nat) (k t : string) :
  dict.get (lal_translation n) k = Some t →
  (k = "F0" ∧ t = "Freq")
  ∨ (∃ j, k = spin_source j ∧ t = spin_target j)
  ∨ (k, t) ∈ fixed_translation.
Proof.
  intros Hget%dict_get_elem_of. rewrite lal_translation_eq in Hget.
  apply elem_of_cons in Hget as [[= -> ->]|Hget]; [by left|]. right.
  apply elem_of_app in Hget as [Hget|Hget]; [left|by right].
  apply list_elem_of_fmap in Hget as (j & [= -> ->] & _). by exists j.
Qed.

Lemma lal_translation_fresh (n : nat) (k t : string) :
  dict.get (lal_translation n) k = Some t →
  dict.get (lal_translation n) t = None.
Proof.
  intros Hk. destruct (dict.get (lal_translation n) t) as [t'|] eqn:Ht; [|done].
  exfalso.
  apply lal_translation_cases in Hk as [[-> ->]|[(j & -> & ->)|Hk]];
    apply lal_translation_cases in Ht as [[Ht ->]|[(j' & Ht & ->)|Ht]].
  - done.
  - destruct (spin_source_head j') as (c & s & Hj & Hc). rewrite Hj in Ht.
    injection Ht as <- _. done.
  - by fixed_cases Ht.
  - symmetry in Ht. by apply spin_target_other in Ht.
  - destruct (spin_source_head j') as (c & s & Hj & _). rewrite Hj in Ht.
    symmetry in Ht. by apply spin_target_other in Ht.
  - apply fixed_translation_sources in Ht as (_ & _ & Htgt & _).
    by apply (Htgt j).
  - by apply fixed_translation_sources in Hk as (_ & _ & _ & _ & _ & ? & _).
  - apply fixed_translation_sources in Hk as (_ & _ & _ & _ & _ & _ & Hsrc & _).
    by apply (Hsrc j').
  - apply fixed_translation_sources in Hk as (_ & _ & _ & _ & _ & _ & _ & Hno & _).
    by apply (Hno t').
Qed.

Lemma lal_translation_inj (n : nat) (k1 k2 t : string) :
  dict.get (lal_translation n) k1 = Some t →
  dict.get (lal_translation n) k2 = Some t → k1 = k2.
Proof.
  intros H1 H2.
  apply lal_translation_cases in H1 as [[-> ->]|[(j & -> & ->)|H1]];
    apply lal_translation_cases in H2 as [[-> H2]|[(j' & -> & H2)|H2]].
  - done.
  - by apply spin_target_other in H2.
  - by fixed_cases H2.
  - symmetry in H2. by apply spin_target_other in H2.
  - by rewrite (spin_target_inj _ _ H2).
  - apply fixed_translation_sources in H2 as (_ & _ & _ & _ & Htgt & _).
    by destruct (Htgt j).
  - by apply fixed_translation_sources in H1 as (_ & _ & _ & ? & _).
  - apply fixed_translation_sources in H1 as (_ & _ & _ & _ & Htgt & _).
    by destruct (Htgt j').
  - apply fixed_translation_sources in H1 as (_ & _ & _ & _ & _ & _ & _ & _ & Hinj).
    symmetry. by apply Hinj.
Qed.

(** X6. [translate_keys_to_lal] never raises on a dict (distinct keys).  In
    the dict it returns every key that has a lalpulsar name is gone and its
    value stands under that name, also when the dict already had an entry of
    that name, which is overwritten; an entry whose key has no lalpulsar name
    and is not the lalpulsar name of a key present is untouched; no PyFstat
    name that translates is left, so that translating a second time changes
    nothing.  This holds for every value of [PULSAR_MAX_SPINS]. *)
Theorem translate_keys_to_lal_moves_values (max_spins : nat) {V}
    (d : dict.t V) :
  NoDup d.*1 →
  ∃ d',
    translate_keys_to_lal max_spins d = inr d'
    ∧ NoDup d'.*1
    ∧ (∀ k t, dict.get (lal_translation max_spins) k = Some t → k ∈ d.*1 →
         dict.get d' t = dict.get d k)
    ∧ (∀ k, is_Some (dict.get (lal_translation max_spins) k) →
         dict.get d' k = None)
    ∧ (∀ x, dict.get (lal_translation max_spins) x = None →
         (∀ k, k ∈ d.*1 → dict.get (lal_translation max_spins) k ≠ Some x) →
         dict.get d' x = dict.get d x)
    ∧ translate_keys_to_lal max_spins d' = inr d'.
Proof.
  intros Hnd. unfold translate_keys_to_lal. cbv zeta.
  set (tr := lal_translation max_spins).
  set (keys := filter (λ key, dict.mem tr key = true) d.*1).
  assert (∀ k, k ∈ keys ↔ k ∈ d.*1 ∧ is_Some (dict.get tr k)) as Hkeys.
  { intros k. unfold keys. rewrite list_elem_of_filter. unfold dict.mem.
    split; intros [H1 H2].
    - split; [done|]. by destruct (dict.get tr k).
    - split; [|done]. by destruct H2 as [? ->]. }
  destruct (translate_keys_spec tr (lal_translation_fresh max_spins)
              (lal_translation_inj max_spins) keys d)
    as (d' & Hrun & Hnd' & Hnone & Hmoved & Hkept).
  { by apply NoDup_filter. }
  { done. }
  { intros k [Hk Htr]%Hkeys. split; [done|]. by apply dict_get_keys. }
  assert (∀ k, is_Some (dict.get tr k) → dict.get d' k = None) as Hgone.
  { intros k Hk. destruct (decide (k ∈ d.*1)) as [Hin|Hin].
    - apply Hnone. by apply Hkeys.
    - rewrite Hkept.
      + destruct (dict.get d k) eqn:Hget; [|done].
        destruct Hin. apply dict_get_keys. by eexists.
      + by intros [? _]%Hkeys.
      + intros k' _ Hk'. apply lal_translation_fresh in Hk'.
        destruct Hk as [? Hk]. fold tr in Hk'. congruence. }
  exists d'. split; [done|]. split; [done|]. split; [|split; [done|split]].
  - intros k t Ht Hin. apply Hmoved; [|done]. apply Hkeys. by split.
  - intros x Hx Hnot. apply Hkept.
    + intros [_ [? ?]]%Hkeys. congruence.
    + intros k [Hk _]%Hkeys. by apply Hnot.
  - replace (filter (λ key, dict.mem tr key = true) d'.*1) with (@nil string);
      [done|].
    symmetry. apply filter_eq_nil. intros x Hx Hmem. unfold dict.mem in Hmem.
    apply dict_get_keys in Hx as [v Hv].
    destruct (dict.get tr x) eqn:Hget; [|done].
    rewrite Hgone in Hv; [done|by eexists].
Qed.

Lemma translate_keys_to_lal_moves_values_witness :
  let d := [("F0", 100%Z); ("Alpha", 2%Z); ("F1", 3%Z); ("Freq", 4%Z);
            ("tref", 5%Z)] in
  ∃ d',
    translate_keys_to_lal 7 d = inr d'
    ∧ dict.get d' "Freq" = dict.get d "F0"
    ∧ dict.get d' "f1dot" = dict.get d "F1"
    ∧ dict.get d' "refTime" = dict.get d "tref"
    ∧ dict.get d' "F0" = None
    ∧ dict.get d' "Alpha" = dict.get d "Alpha"
    ∧ translate_keys_to_lal 7 d' = inr d'.
Proof.
  intros d.
  destruct (translate_keys_to_lal_moves_values 7 d)
    as (d' & Hrun & _ & Hmoved & Hgone & Hkept & Hidem).
  { apply (bool_decide_unpack _). vm_compute. exact I. }
  exists d'. split; [exact Hrun|].
  split.
  { apply Hmoved; [vm_compute; reflexivity|apply list_elem_of_here]. }
  split.
  { apply Hmoved; [vm_compute; reflexivity|].
    do 2 apply list_elem_of_further. apply list_elem_of_here. }
  split.
  { apply Hmoved; [vm_compute; reflexivity|].
    do 4 apply list_elem_of_further. apply list_elem_of_here. }
  split; [apply Hgone; eexists; vm_compute; reflexivity|].
  split; [|exact Hidem].
  apply Hkept; [vm_compute; reflexivity|].
  intros k Hk Heq.
  repeat (apply elem_of_cons in Hk as [->|Hk];
          [vm_compute in Heq; discriminate Heq|]).
  apply elem_of_nil in Hk. exact Hk.
Defined.

(** ** CFSv2 column names *)

Lemma cfsv2_fold_update (l : list nat) (d : dict.t string) :
  fold_left (λ d k, dict.set d ("f" +:+ pretty (S k) +:+ "dot")
                               ("F" +:+ pretty (S k))) l d
  = update d (map (λ j, (spin_target j, spin_source j)) l).
Proof.
  unfold update. revert d. induction l as [|k l IH]; intros d; [done|].
  simpl. rewrite IH. unfold spin_target, spin_source. by rewrite Nat.add_1_r.
Qed.

Lemma spin_target_digit (j : nat) :
  ∃ c s, spin_target j = String "f" (String c s) ∧ str.is_digit c = true.
Proof.
  unfold spin_target. rewrite append_cons, append_nil.
  pose proof (pretty_nat_digit (j + 1)) as Hd.
  destruct (pretty (j + 1)%nat) as [|c s]; [done|].
  rewrite append_cons. by eexists _, _.
Qed.

Lemma cfsv2_sources_NoDup (n : nat) :
  NoDup (([("freq", "F0"); ("alpha", "Alpha"); ("delta", "Delta")]
          ++ map (λ j, (spin_target j, spin_source j)) (seq 0 n)).*1).
Proof.
  rewrite fmap_app, <- list_fmap_compose. apply NoDup_app. split; [|split].
  - apply (bool_decide_unpack _). vm_compute. exact I.
  - intros x Hx (j & -> & _)%list_elem_of_fmap. simpl in Hx.
    destruct (spin_target_digit j) as (c & s & Hj & Hc). rewrite Hj in Hx.
    repeat (apply elem_of_cons in Hx as [Hx|Hx]; [by simplify_eq|]).
    by apply elem_of_nil in Hx.
  - apply NoDup_fmap_2_strong; [|apply NoDup_seq].
    intros i j _ _ Heq. by apply spin_target_inj.
Qed.

Lemma cfsv2_translation_eq (U : helpers) :
  cfsv2_translation U
  = [("freq", "F0"); ("alpha", "Alpha"); ("delta", "Delta")]
    ++ map (λ j, (spin_target j, spin_source j))
         (seq 0 (PULSAR_MAX_SPINS U - 1)).
Proof.
  unfold cfsv2_translation. rewrite cfsv2_fold_update.
  apply update_fresh. apply cfsv2_sources_NoDup.
Qed.

Lemma cfsv2_translation_cases (U : helpers) (k t : string) :
  dict.get (cfsv2_translation U) k = Some t →
  (k, t) ∈ [("freq", "F0"); ("alpha", "Alpha"); ("delta", "Delta")]
  ∨ ∃ j, k = spin_target j ∧ t = spin_source j.
Proof.
  intros Hget%dict_get_elem_of. rewrite cfsv2_translation_eq in Hget.
  apply elem_of_app in Hget as [Hget|Hget]; [by left|right].
  apply list_elem_of_fmap in Hget as (j & [= -> ->] & _). by exists j.
Qed.

Lemma cfsv2_translation_fresh (U : helpers) (k t : string) :
  dict.get (cfsv2_translation U) k = Some t →
  dict.get (cfsv2_translation U) t = None.
Proof.
  intros Hk. destruct (dict.get (cfsv2_translation U) t) as [t'|] eqn:Ht;
    [|done].
  exfalso.
  assert (∃ c s, t = String c s ∧ c ∈ ["F"; "A"; "D"]%char)
    as (c & s & -> & Hc).
  { apply cfsv2_translation_cases in Hk as [Hk|(j & -> & ->)].
    - repeat (apply elem_of_cons in Hk as [[= -> ->]|Hk];
              [eexists _, _; split; [done|];
               first [by left|by (right; left)|by (do 2 right; left)]|]).
      by apply elem_of_nil in Hk.
    - destruct (spin_source_head j) as (c & s & -> & _).
      eexists _, _. split; [done|]. left. }
  apply cfsv2_translation_cases in Ht as [Ht|(j & Ht & _)].
  - repeat (apply elem_of_cons in Ht as [Ht|Ht];
            [injection Ht as -> _ _;
             repeat (apply elem_of_cons in Hc as [Hc|Hc]; [done|]);
             by apply elem_of_nil in Hc|]).
    by apply elem_of_nil in Ht.
  - destruct (spin_target_head j) as (s' & Hj). rewrite Hj in Ht.
    injection Ht as -> _.
    repeat (apply elem_of_cons in Hc as [Hc|Hc]; [done|]).
    by apply elem_of_nil in Hc.
Qed.

Lemma cfsv2_translation_get (U : helpers) (key : string) :
  match dict.get (cfsv2_translation U) key with
  | Some t =>
      (key, t) ∈ [("freq", "F0"); ("alpha", "Alpha"); ("delta", "Delta")]
      ∨ ∃ j, (j < PULSAR_MAX_SPINS U - 1)%nat
             ∧ key = spin_target j ∧ t = spin_source j
  | None =>
      (key ∉ ["freq"; "alpha"; "delta"])
      ∧ ∀ j, (j < PULSAR_MAX_SPINS U - 1)%nat → key ≠ spin_target j
  end.
Proof.
  destruct (dict.get (cfsv2_translation U) key) as [t|] eqn:Hget.
  - apply dict_get_elem_of in Hget. rewrite cfsv2_translation_eq in Hget.
    apply elem_of_app in Hget as [Hget|Hget]; [by left|right].
    apply list_elem_of_fmap in Hget as (j & [= -> ->] & Hj).
    exists j. apply elem_of_seq in Hj. split; [lia|done].
  - assert (∀ t, (key, t) ∈ cfsv2_translation U → False) as Hout.
    { intros t Hin. apply dict_get_In in Hin; [congruence|].
      rewrite cfsv2_translation_eq. apply cfsv2_sources_NoDup. }
    split.
    + intros Hin. rewrite cfsv2_translation_eq in Hout.
      repeat (apply elem_of_cons in Hin as [->|Hin];
              [eapply Hout, elem_of_app; left;
               first [by left|by (right; left)|by (do 2 right; left)]|]).
      by apply elem_of_nil in Hin.
    + intros j Hj ->. apply (Hout (spin_source j)).
      rewrite cfsv2_translation_eq. apply elem_of_app. right.
      apply list_elem_of_fmap. exists j. split; [done|].
      apply elem_of_seq. lia.
Qed.

(** X7. [_translate_keys_from_cfsv2] keeps the number and the order of the
    keys: the key at each place of what it returns is the translation of the
    key at that place of what it is given, which is [F0], [Alpha], [Delta]
    for [freq], [alpha], [delta], the PyFstat name of the spin-down for the
    CFSv2 name of a spin-down of an order below [PULSAR_MAX_SPINS], and the
    key itself for any other.  What it returns holds no CFSv2 column name
    any more, so that translating twice is translating once.  On the
    spin-down of any order below [PULSAR_MAX_SPINS] it is the inverse of the
    translation to the lalpulsar convention; it is not on the frequency,
    which it reads as [freq] where the other writes [Freq]. *)
Theorem translate_keys_from_cfsv2_idempotent (U : helpers)
    (keylist : list string) :
  let translated := _translate_keys_from_cfsv2 U keylist in
  length translated = length keylist
  ∧ (∀ i key, keylist !! i = Some key →
       ∃ key', translated !! i = Some key'
         ∧ ((key, key')
              ∈ [("freq", "F0"); ("alpha", "Alpha"); ("delta", "Delta")]
            ∨ (∃ j, (j < PULSAR_MAX_SPINS U - 1)%nat
                    ∧ key = spin_target j ∧ key' = spin_source j)
            ∨ (key' = key
               ∧ (key ∉ ["freq"; "alpha"; "delta"])
               ∧ ∀ j, (j < PULSAR_MAX_SPINS U - 1)%nat →
                      key ≠ spin_target j)))
  ∧ (∀ key, key ∈ translated → dict.get (cfsv2_translation U) key = None)
  ∧ _translate_keys_from_cfsv2 U translated = translated
  ∧ (∀ j, (j < PULSAR_MAX_SPINS U - 1)%nat →
       _translate_keys_from_cfsv2 U [spin_target j] = [spin_source j]
       ∧ dict.get (lal_translation (PULSAR_MAX_SPINS U)) (spin_source j)
         = Some (spin_target j))
  ∧ _translate_keys_from_cfsv2 U ["freq"] = ["F0"]
  ∧ dict.get (lal_translation (PULSAR_MAX_SPINS U)) "F0" = Some "Freq".
Proof.
  intros translated.
  assert (∀ key, key ∈ translated → dict.get (cfsv2_translation U) key = None)
    as Hnone.
  { intros key (k & -> & _)%list_elem_of_fmap.
    destruct (dict.get (cfsv2_translation U) k) as [t|] eqn:Hk; simpl; [|done].
    by eapply cfsv2_translation_fresh. }
  split; [apply length_map|]. split.
  { intros i key Hi. unfold translated, _translate_keys_from_cfsv2.
    eexists. split; [by rewrite list_lookup_fmap, Hi|].
    pose proof (cfsv2_translation_get U key) as Hget.
    destruct (dict.get (cfsv2_translation U) key) as [t|]; simpl.
    - destruct Hget as [Hget|Hget]; [by left|by right; left].
    - right; right. by destruct Hget. }
  split; [done|]. split.
  { clear -Hnone. induction translated as [|key l IH]; [done|].
    unfold _translate_keys_from_cfsv2 in *. simpl.
    rewrite (Hnone key) by left. simpl. f_equal. apply IH.
    intros key' Hkey'. apply Hnone. by right. }
  split.
  - intros j Hj. split.
    + unfold _translate_keys_from_cfsv2. simpl.
      rewrite (dict_get_In _ (spin_target j) (spin_source j)); [done| |].
      * rewrite cfsv2_translation_eq. apply cfsv2_sources_NoDup.
      * rewrite cfsv2_translation_eq. apply elem_of_app. right.
        apply list_elem_of_fmap. exists j. split; [done|].
        apply elem_of_seq. lia.
    + apply dict_get_In; rewrite lal_translation_eq;
        [apply lal_sources_NoDup|].
      right. apply elem_of_app. left.
      apply list_elem_of_fmap. exists j. split; [done|].
      apply elem_of_seq. lia.
  - split.
    + unfold _translate_keys_from_cfsv2. simpl.
      by rewrite cfsv2_translation_eq.
    + by rewrite lal_translation_eq.
Qed.

(** ** The command line in an SFT comment *)

Lemma startswith_spec (p s : string) :
  sft.startswith p s = true ↔ ∃ q, s = p +:+ q.
Proof.
  revert s. induction p as [|a p IH]; intros s; simpl.
  - split; [intros _; by exists s|done].
  - destruct s as [|b s]; [split; [done|by intros [q Hq]]|].
    rewrite andb_true_iff, IH. split.
    + intros [Hab%Ascii.eqb_eq [q ->]]. subst. by exists q.
    + intros [q Hq]. rewrite append_cons in Hq. injection Hq as -> ->.
      split; [apply Ascii.eqb_refl|by exists q].
Qed.

Lemma contains_spec (sub s : string) :
  sft.contains sub s = true ↔ ∃ p q, s = p +:+ sub +:+ q.
Proof.
  induction s as [|c s IH].
  - simpl. rewrite orb_false_r, startswith_spec. split.
    + intros [q Hq]. by exists "", q.
    + intros (p & q & Hpq). destruct p as [|a p]; [by exists q|done].
  - cbn [sft.contains]. rewrite orb_true_iff, startswith_spec, IH. split.
    + intros [[q Hq]|(p & q & Hpq)]; [by exists "", q|].
      exists (String c p), q. by rewrite append_cons, Hpq.
    + intros (p & q & Hpq). destruct p as [|a p].
      * left. by exists q.
      * right. rewrite append_cons in Hpq. injection Hpq as -> ->.
        by exists p, q.
Qed.

Lemma join_lines_cons (line : string) (lines : list string) :
  lines ≠ [] →
  join_lines (line :: lines) = line +:+ String "010" (join_lines lines).
Proof. by destruct lines. Qed.

Lemma split_lines_join (s : string) :
  join_lines (sft.split_lines s) = s
  ∧ Forall one_line (sft.split_lines s)
  ∧ sft.split_lines s ≠ [].
Proof.
  induction s as [|c s (Hjoin & Hall & Hne)]; [by repeat constructor|].
  cbn [sft.split_lines]. destruct (Ascii.eqb_spec c "010"%char) as [->|Hc].
  - split; [|split; [by constructor|done]].
    by rewrite join_lines_cons, append_nil, Hjoin.
  - destruct (sft.split_lines s) as [|l ls]; [done|].
    split; [|split; [|done]].
    + destruct ls as [|l' ls]; [simpl in *; by rewrite Hjoin|].
      rewrite join_lines_cons in Hjoin by done.
      by rewrite join_lines_cons, append_cons, Hjoin.
    + apply Forall_cons in Hall as [Hl Hls]. by constructor.
Qed.

Lemma next_where_first (cond : string → bool) (lines : list string)
    (default : string) :
  (sft.next_where cond lines default = default
   ∧ ∀ line, line ∈ lines → cond line = false)
  ∨ ∃ before after,
      lines = before ++ sft.next_where cond lines default :: after
      ∧ cond (sft.next_where cond lines default) = true
      ∧ ∀ line, line ∈ before → cond line = false.
Proof.
  induction lines as [|l lines IH]; simpl.
  - left. split; [done|]. by intros line ?%elem_of_nil.
  - destruct (cond l) eqn:Hl.
    + right. exists [], lines. split; [done|]. split; [done|].
      by intros line ?%elem_of_nil.
    + destruct IH as [[Hd Hall]|(before & after & Heq & Hc & Hall)].
      * left. split; [done|]. by intros line [->|?]%elem_of_cons; [|apply Hall].
      * right. exists (l :: before), after. split; [by rewrite Heq at 1|].
        split; [done|]. by intros line [->|?]%elem_of_cons; [|apply Hall].
Qed.

Lemma names_executable_spec (line : string) :
  sft.names_executable line = true ↔ mentions_executable line.
Proof.
  unfold sft.names_executable, mentions_executable.
  rewrite orb_true_iff, !contains_spec. split.
  - intros [(p & q & H)|(p & q & H)]; exists p, q; [by left|by right].
  - intros (p & q & [H|H]); [left|right]; by exists p, q.
Qed.

(** X8. [get_commandline_from_SFTDescriptor] returns the empty string for a
    descriptor without comment.  Otherwise, with the comment cut into its
    lines at the line feeds, it returns the first line that has [lalpulsar]
    or [lalapps] in it, whole and without a line feed; it returns the empty
    string exactly when no line has. *)
Theorem command_line_is_first_matching_line (comment : option string) :
  let cmd := sft.get_commandline_from_SFTDescriptor comment in
  one_line cmd
  ∧ match comment with
    | None => cmd = ""
    | Some c =>
        ∃ lines,
          join_lines lines = c ∧ Forall one_line lines
          ∧ ((cmd = "" ∧ ∀ line, line ∈ lines → ¬ mentions_executable line)
             ∨ (mentions_executable cmd
                ∧ ∃ before after,
                    lines = before ++ cmd :: after
                    ∧ ∀ line, line ∈ before → ¬ mentions_executable line))
    end.
Proof.
  destruct comment as [c|]; simpl; [|done].
  destruct (split_lines_join c) as (Hjoin & Hall & _).
  assert (∀ line, sft.names_executable line = false ↔ ¬ mentions_executable line)
    as Hno.
  { intros line. rewrite <- names_executable_spec. by destruct (sft.names_executable line). }
  destruct (next_where_first sft.names_executable (sft.split_lines c) "")
    as [[Hd Hnone]|(before & after & Heq & Hc & Hnone)].
  - rewrite Hd. split; [done|]. exists (sft.split_lines c).
    split; [done|]. split; [done|]. left. split; [done|].
    intros line Hline. by apply Hno, Hnone.
  - split.
    + rewrite Forall_forall in Hall. apply Hall. rewrite Heq at 2.
      apply elem_of_app. right. left.
    + exists (sft.split_lines c). split; [done|]. split; [done|]. right.
      split; [by apply names_executable_spec|].
      exists before, after. split; [done|].
      intros line Hline. by apply Hno, Hnone.
Qed.

(** ** The covering band *)

Lemma leb_negb_ltb (x y : float) :
  PrimFloat.is_nan x = false → PrimFloat.is_nan y = false →
  (x <=? y)%float = negb (y <? x)%float.
Proof.
  intros Hx Hy. rewrite leb_lex3, ltb_lex3 by done.
  rewrite (lex3_antisym (rank (Prim2SF x))). by destruct (lex3 _ _).
Qed.

Lemma ltb_leb_trans (x y z : float) :
  PrimFloat.is_nan x = false → PrimFloat.is_nan y = false →
  PrimFloat.is_nan z = false →
  (x <? y)%float = true → (y <=? z)%float = true → (x <? z)%float = true.
Proof.
  intros Hx Hy Hz. rewrite !ltb_lex3, leb_lex3 by done.
  destruct (lex3 (rank (Prim2SF x)) (rank (Prim2SF y))) eqn:H1; try done.
  intros _.
  destruct (lex3 (rank (Prim2SF y)) (rank (Prim2SF z))) eqn:H2; try done;
    intros _.
  - apply (proj1 (lex3_Eq _ _)) in H2. by rewrite <- H2, H1.
  - rewrite (lex3_trans _ _ _ ltac:(by rewrite H1) H2). done.
Qed.

Lemma is_nan_zero : PrimFloat.is_nan 0 = false.
Proof. reflexivity. Qed.

(** X9. [get_covering_band] returns a pair exactly when lalpulsar returned
    it and neither frequency is NaN, the lower one is above zero and the
    upper one is not below the lower one; that the upper one is above zero
    follows.  Every other pair raises the error that names it, and a
    failure of lalpulsar is passed on. *)
Theorem covering_band_is_positive_and_ordered
    (CWSignalCoveringBand :
       Z → Z → runlalsuite.PulsarSpinRange → float → float → float
       → Z + float * float)
    (tref tstart tend : Z) (fkdot fkdotBand : list float)
    (maxOrbitAsini minOrbitPeriod maxOrbitEcc : float) :
  let library :=
    CWSignalCoveringBand tstart tend
      (runlalsuite.SpinRange fkdot fkdotBand tref)
      maxOrbitAsini minOrbitPeriod maxOrbitEcc in
  let result :=
    runlalsuite.get_covering_band CWSignalCoveringBand tref tstart tend fkdot
      fkdotBand maxOrbitAsini minOrbitPeriod maxOrbitEcc in
  (∀ lo hi,
     result = inr (lo, hi) ↔
     library = inr (lo, hi)
     ∧ PrimFloat.is_nan lo = false ∧ PrimFloat.is_nan hi = false
     ∧ (0 <? lo)%float = true ∧ (lo <=? hi)%float = true)
  ∧ (∀ lo hi, result = inr (lo, hi) → (0 <? hi)%float = true)
  ∧ (∀ e, result = inl e →
       match library with
       | inl code => e = runlalsuite.LibraryFailure code
       | inr (lo, hi) => e = runlalsuite.InvalidCoverFreqPair lo hi
       end).
Proof.
  intros library result.
  assert (∀ lo hi,
            result = inr (lo, hi) ↔
            library = inr (lo, hi)
            ∧ PrimFloat.is_nan lo = false ∧ PrimFloat.is_nan hi = false
            ∧ (0 <? lo)%float = true ∧ (lo <=? hi)%float = true) as Hiff.
  { intros lo hi. unfold result, runlalsuite.get_covering_band. cbv zeta.
    fold library. destruct library as [code|[lo' hi']]; [by split; [|intros []]|].
    destruct (PrimFloat.is_nan lo') eqn:Hlo; simpl.
    { split; [done|]. intros ([= -> ->] & ? & _). congruence. }
    destruct (PrimFloat.is_nan hi') eqn:Hhi; simpl.
    { split; [done|]. intros ([= -> ->] & ? & ? & _). congruence. }
    rewrite (leb_negb_ltb lo' 0), (leb_negb_ltb hi' 0) by done.
    destruct (0 <? lo')%float eqn:Hpos; simpl.
    2: { split; [done|]. intros ([= -> ->] & _ & _ & ? & _). congruence. }
    destruct (hi' <? lo')%float eqn:Hord.
    { rewrite orb_true_r. split; [done|].
      intros ([= -> ->] & _ & _ & _ & Hle).
      rewrite leb_negb_ltb in Hle by done. by rewrite Hord in Hle. }
    assert ((lo' <=? hi')%float = true) as Hle
      by (by rewrite leb_negb_ltb, Hord).
    assert ((0 <? hi')%float = true) as ->
      by (by apply (ltb_leb_trans 0 lo' hi')).
    simpl. split; [by intros [= <- <-]|by intros ([= <- <-] & _)]. }
  split; [done|]. split.
  - intros lo hi (_ & Hlo & Hhi & Hpos & Hle)%Hiff.
    by apply (ltb_leb_trans 0 lo hi).
  - intros e. unfold result, runlalsuite.get_covering_band. cbv zeta.
    fold library. destruct library as [code|[lo hi]]; [by intros [= <-]|].
    destruct (_ || _); by intros [= <-].
Qed.

(** ** The command line for the loudest candidate *)

Lemma update_get {V} (d other : dict.t V) (k : string) :
  NoDup other.*1 →
  dict.get (update d other) k
  = match dict.get other k with Some v => Some v | None => dict.get d k end.
Proof.
  unfold update. revert d. induction other as [|[k0 v0] other IH]; intros d Hnd.
  { done. }
  rewrite fmap_cons in Hnd. apply NoDup_cons in Hnd as [Hk0 Hnd].
  cbn [fold_left fst snd]. rewrite IH by done. cbn [dict.get].
  destruct (String.eqb_spec k0 k) as [->|Hne].
  - destruct (dict.get other k) eqn:Hget.
    + destruct Hk0. apply dict_get_keys. by eexists.
    + apply dict_get_set_eq.
  - destruct (dict.get other k); [done|]. by apply dict_get_set_ne.
Qed.

Lemma update_NoDup {V} (d other : dict.t V) :
  NoDup d.*1 → NoDup (update d other).*1.
Proof.
  unfold update. revert d. induction other as [|[k0 v0] other IH]; intros d Hnd.
  { done. }
  simpl. apply IH. by apply dict_set_NoDup.
Qed.

Lemma dict_get_filter {V} (P : string * V → bool) (d : list (string * V))
    (k : string) :
  NoDup d.*1 →
  dict.get (filter (λ kv, P kv = true) d) k
  = match dict.get d k with
    | Some v => if P (k, v) then Some v else None
    | None => None
    end
  ∧ NoDup (filter (λ kv, P kv = true) d).*1.
Proof.
  induction d as [|[k0 v0] d IH]; intros Hnd; [by split; [|constructor]|].
  rewrite fmap_cons in Hnd. apply NoDup_cons in Hnd as [Hk0 Hnd].
  destruct (IH Hnd) as [Hget Hnd']. cbn [dict.get].
  assert (∀ x, x ∈ (filter (λ kv, P kv = true) d).*1 → x ∈ d.*1) as Hsub.
  { intros x ([x' v] & -> & [_ Hin]%list_elem_of_filter)%list_elem_of_fmap.
    apply list_elem_of_fmap. by exists (x', v). }
  destruct (decide (P (k0, v0) = true)) as [HP|HP];
    [rewrite !filter_cons_True by done|rewrite !filter_cons_False by done].
  - split.
    + cbn [dict.get]. destruct (String.eqb_spec k0 k) as [->|_]; [|done].
      by rewrite HP.
    + rewrite fmap_cons. apply NoDup_cons. split; [|done].
      intros Hin. by apply Hk0, Hsub.
  - split; [|done]. rewrite Hget.
    destruct (String.eqb_spec k0 k) as [->|_]; [|done].
    destruct (dict.get d k) eqn:Hd.
    + destruct Hk0. apply dict_get_keys. by eexists.
    + by destruct (P (k, v0)).
Qed.

(** X10. [generate_loudest_file] refuses parameters of a glitch before it
    runs anything.  Otherwise it runs one command, [ComputeFstatistic_v2]
    with one option per entry of a dict in which no key occurs twice: an
    optional argument is passed only if it is true as a condition (so a
    start time of 0 or an empty string is dropped) and then overrides an
    entry of that name in [max_params], which in turn overrides the data
    files, the output file and the reference time the function sets itself.
    It warns about the transient window where one is given, and returns the
    name of the output file unless the command fails. *)
Theorem loudest_command_line
    (str_of : loudest.pyvalue → string) (path_join : string → string → string)
    (run_commandline : string → Z + unit)
    (max_params : dict.t loudest.pyvalue) (tref : loudest.pyvalue)
    (outdir label sftfilepattern : string)
    (minStartTime maxStartTime transientWindowType earth_ephem sun_ephem
       : loudest.pyvalue) :
  NoDup max_params.*1 →
  let result :=
    loudest.generate_loudest_file str_of path_join run_commandline max_params
      tref outdir label sftfilepattern minStartTime maxStartTime
      transientWindowType earth_ephem sun_ephem in
  let loudest_file := path_join outdir (label +:+ ".loudest") in
  let defaults :=
    [("DataFiles",
      loudest.PStr (loudest.quote +:+ sftfilepattern +:+ loudest.quote));
     ("outputLoudest", loudest.PStr loudest_file);
     ("refTime", tref)] in
  let optional :=
    [("minStartTime", minStartTime); ("maxStartTime", maxStartTime);
     ("transient-WindowType", transientWindowType);
     ("ephemEarth", earth_ephem); ("ephemSun", sun_ephem)] in
  ((∃ key, key ∈ ["delta_F0"; "delta_F1"; "tglitch"] ∧ key ∈ max_params.*1) →
   result = ([loudest.RunningCFSv2 max_params],
             inl runlalsuite.CannotDealWithGlitchParameters))
  ∧ ((∀ key, key ∈ ["delta_F0"; "delta_F1"; "tglitch"] → key ∉ max_params.*1) →
     ∃ opts cmd,
       NoDup opts.*1
       ∧ (∀ key, dict.get opts key
                 = loudest_option max_params defaults optional key)
       ∧ cmd = "lalpulsar_ComputeFstatistic_v2" +:+ " "
               +:+ loudest.join " "
                     (map (λ kv, "--" +:+ kv.1 +:+ "=" +:+ str_of kv.2) opts)
       ∧ result.1
         = [loudest.RunningCFSv2 max_params]
           ++ (if loudest.truth transientWindowType
               then [loudest.ReportsStandardTwoF] else [])
           ++ [loudest.Ran cmd]
       ∧ result.2
         = match run_commandline cmd with
           | inl code => inl (runlalsuite.LibraryFailure code)
           | inr _ => inr loudest_file
           end).
Proof.
  intros Hnd result loudest_file defaults optional.
  assert (existsb (λ key, dict.mem max_params key)
            ["delta_F0"; "delta_F1"; "tglitch"] = true
          ↔ ∃ key, key ∈ ["delta_F0"; "delta_F1"; "tglitch"]
                   ∧ key ∈ max_params.*1) as Hglitch.
  { rewrite existsb_exists. split; intros (key & Hin & Hmem); exists key.
    - split; [by apply list_elem_of_In|]. apply dict_get_keys.
      unfold dict.mem in Hmem. by destruct (dict.get max_params key).
    - split; [by apply list_elem_of_In|]. apply dict_get_keys in Hmem as [v Hv].
      unfold dict.mem. by rewrite Hv. }
  split.
  - intros Hkey%Hglitch. unfold result, loudest.generate_loudest_file.
    by rewrite Hkey.
  - intros Hnone.
    assert (existsb (λ key, dict.mem max_params key)
              ["delta_F0"; "delta_F1"; "tglitch"] = false) as Hno.
    { apply not_true_is_false. intros Hex.
      apply Hglitch in Hex as (key & Hin & Hmem). by destruct (Hnone key Hin). }
    unfold result, loudest.generate_loudest_file. rewrite Hno. cbv zeta.
    fold loudest_file. fold defaults. fold optional.
    set (opts := update (update defaults max_params)
                   (filter (λ kv, loudest.truth kv.2 = true) optional)).
    exists opts. eexists. split; [|split; [|split; [done|]]].
    + apply update_NoDup, update_NoDup.
      apply (bool_decide_unpack _). vm_compute. exact I.
    + intros key. unfold opts, loudest_option.
      assert (NoDup optional.*1) as Hopt
        by (apply (bool_decide_unpack _); vm_compute; exact I).
      destruct (dict_get_filter (λ kv, loudest.truth kv.2) optional key Hopt)
        as [Hget Hnd'].
      rewrite update_get by done. rewrite Hget. rewrite update_get by done.
      destruct (dict.get optional key) as [v|]; [|done]. simpl.
      by destruct (loudest.truth v).
    + destruct (run_commandline _); simpl;
        by destruct (loudest.truth transientWindowType).
Qed.

Lemma loudest_command_line_witness :
  let str_of := λ v, match v with
                     | loudest.PInt z => pretty z
                     | loudest.PStr s => s
                     | _ => "?"
                     end in
  let max_params := [("Freq", loudest.PFloat 10); ("Alpha", loudest.PFloat 0.5);
                     ("refTime", loudest.PInt 5)] in
  let result :=
    loudest.generate_loudest_file str_of (λ a b, a +:+ "/" +:+ b)
      (λ _, inr tt) max_params (loudest.PInt 1000) "out" "grid" "*.sft"
      (loudest.PInt 0) (loudest.PInt 2000) loudest.PNone loudest.PNone
      loudest.PNone in
  ∃ opts cmd,
    dict.get opts "minStartTime" = None
    ∧ dict.get opts "maxStartTime" = Some (loudest.PInt 2000)
    ∧ dict.get opts "refTime" = Some (loudest.PInt 5)
    ∧ result.1 = [loudest.RunningCFSv2 max_params; loudest.Ran cmd]
    ∧ result.2 = inr "out/grid.loudest".
Proof.
  intros str_of max_params result.
  assert (NoDup max_params.*1) as Hnd
    by (apply (bool_decide_unpack _); vm_compute; exact I).
  destruct (proj2 (loudest_command_line str_of (λ a b, a +:+ "/" +:+ b)
                     (λ _, inr tt) max_params (loudest.PInt 1000) "out" "grid"
                     "*.sft" (loudest.PInt 0) (loudest.PInt 2000) loudest.PNone
                     loudest.PNone loudest.PNone Hnd))
    as (opts & cmd & _ & Hget & _ & Hlog & Hres).
  { intros key Hkey Hin.
    repeat (apply elem_of_cons in Hkey as [Hkey|Hkey];
            [subst key; vm_compute in Hin;
             repeat (apply elem_of_cons in Hin as [Hin|Hin];
                     [discriminate Hin|]);
             apply elem_of_nil in Hin; exact Hin|]).
    apply elem_of_nil in Hkey. exact Hkey. }
  exists opts, cmd. rewrite !Hget.
  split; [reflexivity|]. split; [reflexivity|]. split; [reflexivity|].
  split; [exact Hlog|exact Hres].
Defined.

(** ** The parameters handed to [ComputeFstatistic_v2] *)

Lemma discard_spec {V} (d : dict.t V) (key : string) :
  NoDup d.*1 →
  ∃ d', discard d key = inr d' ∧ NoDup d'.*1
        ∧ dict.get d' key = None
        ∧ ∀ k, k ≠ key → dict.get d' k = dict.get d k.
Proof.
  intros Hnd. unfold discard, dict.mem.
  destruct (dict.get d key) as [v|] eqn:Hget.
  - destruct (pop_returns d key) as (v' & d' & Hpop); [by eexists|].
    rewrite Hpop. destruct (pop_spec d d' key v' Hnd Hpop) as (_ & ? & ? & ?).
    by exists d'.
  - by exists d.
Qed.

Lemma discard_all {V} (keys : list string) (d : dict.t V) (s : state) :
  NoDup d.*1 →
  ∃ d', for_each keys d (λ d key, lift (discard d key)) s = (inr d', s)
        ∧ NoDup d'.*1
        ∧ ∀ k, dict.get d' k = if bool_decide (k ∈ keys) then None
                               else dict.get d k.
Proof.
  revert d. induction keys as [|key keys IH]; intros d Hnd.
  { exists d. by repeat split. }
  destruct (discard_spec d key Hnd) as (d1 & Hd1 & Hnd1 & Hgone & Hkept).
  destruct (IH d1 Hnd1) as (d' & Hrun & Hnd' & Hget).
  exists d'. split; [|split; [done|]].
  - rewrite for_each_cons. unfold lift at 1. by rewrite Hd1.
  - intros k. rewrite Hget.
    destruct (decide (k = key)) as [->|Hne].
    + rewrite (bool_decide_eq_true_2 (key ∈ key :: keys)) by left.
      by case_bool_decide.
    + rewrite Hkept by done.
      destruct (decide (k ∈ keys)) as [Hin|Hin].
      * rewrite !bool_decide_eq_true_2; [done|by right|done].
      * rewrite !bool_decide_eq_false_2; [done| |done].
        by intros [?|?]%elem_of_cons.
Qed.

Lemma row_dict_NoDup (d : sarray) (idx : nat) (keys : list string)
    (acc m : dict.t float) :
  NoDup acc.*1 → row_dict d idx keys acc = inr m → NoDup m.*1.
Proof.
  revert acc. induction keys as [|k keys IH]; intros acc Hnd; simpl.
  - by intros [= <-].
  - destruct (sa.cell d k idx) as [e|v]; [done|].
    apply IH. by apply dict_set_NoDup.
Qed.

Lemma max_of_column_inv (self : search_object) (column : string) (s : state)
    (row : dict.t float) (s' : state) :
  max_of_column self column s = (inr row, s') →
  s' = s ∧ NoDup row.*1
  ∧ ∀ key, key ∈ output_keys self ↔ is_Some (dict.get row key).
Proof.
  unfold max_of_column. intros Hmax.
  apply bind_inr in Hmax as (d & s1 & [_ ->]%getattr_inr & Hmax).
  apply bind_inr in Hmax as (col & s2 & [_ ->]%lift_inr & Hmax).
  apply bind_inr in Hmax as (idx & s3 & [_ ->]%lift_inr & Hmax).
  apply lift_inr in Hmax as [Hrow ->]. split; [done|].
  split; [eapply row_dict_NoDup; [|done]; constructor|].
  destruct (row_dict_spec _ _ _ _ _ Hrow) as [Hin Hout].
  intros key. split.
  - intros (v & -> & _)%Hin. by eexists.
  - intros [v Hv]. destruct (decide (key ∈ output_keys self)); [done|].
    by rewrite Hout in Hv.
Qed.

(** X11. When [generate_loudest] returns, what it has handed on for
    translation is the row of the largest [twoF] without the columns [twoF],
    the detection statistic and the four transient estimates, and with every
    other column of the output table: the per-detector and the transient
    by-products of the statistic ([maxTwoF] whenever the detection statistic
    is another one) are still in it and so become options of the command. *)
Theorem generate_loudest_passes_other_columns
    (translate_keys_to_lal : dict.t float → exn + dict.t float)
    (generate_loudest_file : dict.t float → M string)
    (self : search_object) (s : state) (file : string) (s' : state) :
  generate_loudest translate_keys_to_lal generate_loudest_file self s
  = (inr file, s') →
  ∃ row params translated,
    get_max_twoF self s = (inr row, s)
    ∧ (∀ key, dict.get params key
              = if bool_decide (key ∈ not_passed_on self) then None
                else dict.get row key)
    ∧ (∀ key, key ∈ output_keys self → key ∉ not_passed_on self →
              is_Some (dict.get params key))
    ∧ translate_keys_to_lal params = inr translated
    ∧ generate_loudest_file translated s = (inr file, s').
Proof.
  unfold generate_loudest. intros Hrun.
  apply bind_inr in Hrun as (row & s1 & Hmax & Hrun).
  pose proof Hmax as (-> & Hnd & Hkeys)%max_of_column_inv.
  destruct (discard_spec row "twoF" Hnd) as (d1 & Hd1 & Hnd1 & Hgone & Hkept).
  apply bind_inr in Hrun as (d1' & s2 & [Hd1' ->]%lift_inr & Hrun).
  rewrite Hd1 in Hd1'. injection Hd1' as <-.
  apply bind_inr in Hrun as (params & s3 & Hloop & Hrun).
  destruct (discard_all [detstat self; "t0_ML"; "tau_ML"; "t0_MP"; "tau_MP"]
              d1 s Hnd1) as (d2 & Hd2 & Hnd2 & Hget).
  rewrite Hd2 in Hloop. injection Hloop as <- <-.
  apply bind_inr in Hrun as (translated & s4 & [Htr ->]%lift_inr & Hrun).
  assert (∀ key, dict.get d2 key
                 = if bool_decide (key ∈ not_passed_on self) then None
                   else dict.get row key) as Hparams.
  { intros key. rewrite Hget. unfold not_passed_on.
    destruct (decide (key = "twoF")) as [->|Hne].
    - rewrite (bool_decide_eq_true_2 ("twoF" ∈ "twoF" :: _)) by left.
      by case_bool_decide.
    - rewrite Hkept by done.
      destruct (decide (key ∈ [detstat self; "t0_ML"; "tau_ML"; "t0_MP"; "tau_MP"]))
        as [Hin|Hin].
      + rewrite !bool_decide_eq_true_2; [done|by right|done].
      + rewrite !bool_decide_eq_false_2; [done| |done].
        by intros [?|?]%elem_of_cons. }
  exists row, d2, translated. split; [done|]. split; [done|].
  split; [|done].
  intros key Hkey Hnot. rewrite Hparams, bool_decide_eq_false_2 by done.
  by apply Hkeys.
Qed.

Lemma generate_loudest_passes_other_columns_witness :
  let s := with_data
             (SArray (output_keys demo.transient_search)
                [[10; 0; 0; 0.5; 0; 5; 6; 7; 1030; 40; 1025; 42]%float])
             demo.transient_state in
  ∃ file s' params,
    generate_loudest (translate_keys_to_lal 7) (λ _, mret "grid.loudest")
      demo.transient_search s = (inr file, s')
    ∧ dict.get params "maxTwoF" = Some 6%float
    ∧ dict.get params "F0" = Some 10%float
    ∧ dict.get params "twoF" = None
    ∧ dict.get params "lnBtSG" = None
    ∧ ∃ translated, translate_keys_to_lal 7 params = inr translated.
Proof.
  intros s.
  destruct (generate_loudest (translate_keys_to_lal 7) (λ _, mret "grid.loudest")
              demo.transient_search s) as [[e|file] s'] eqn:Hrun;
    [vm_compute in Hrun; discriminate Hrun|].
  destruct (generate_loudest_passes_other_columns _ _ _ _ _ _ Hrun)
    as (row & params & translated & Hmax & Hget & _ & Htr & _).
  vm_compute in Hmax. injection Hmax as <-.
  exists file, s', params. split; [reflexivity|]. rewrite !Hget.
  split; [vm_compute; reflexivity|]. split; [vm_compute; reflexivity|].
  split; [vm_compute; reflexivity|]. split; [vm_compute; reflexivity|].
  exists translated. exact Htr.
Defined.

(** ** The input grid *)

Lemma length_product (arrays : list (list float)) :
  length (product arrays) = foldr (λ a n, (length a * n)%nat) 1%nat arrays.
Proof.
  induction arrays as [|a rest IH]; [done|]. cbn [product foldr].
  rewrite <- IH. clear IH. generalize (product rest). intros rs.
  induction a as [|x a IHa]; [done|]. cbn [mbind list_bind].
  change (x :: a ≫= λ x0, (λ r, x0 :: r) <$> rs)
    with (((λ r, x :: r) <$> rs) ++ (a ≫= λ x0, (λ r, x0 :: r) <$> rs)).
  rewrite length_app, length_fmap, IHa. simpl. lia.
Qed.

Lemma prod_lengths (arrays : list (list float)) (acc : Z) :
  fold_left Z.mul (map (λ ca, Z.of_nat (length ca)) arrays) acc
  = acc * Z.of_nat (foldr (λ a n, (length a * n)%nat) 1%nat arrays).
Proof.
  revert acc. induction arrays as [|a rest IH]; intros acc; simpl; [lia|].
  rewrite IH. lia.
Qed.

Lemma product_rows (arrays : list (list float)) (row : list float) :
  row ∈ product arrays ↔ Forall2 (λ x a, x ∈ a) row arrays.
Proof.
  revert row. induction arrays as [|a rest IH]; intros row.
  - cbn [product]. rewrite list_elem_of_singleton. split.
    + intros ->. constructor.
    + by intros ->%Forall2_nil_inv_r.
  - cbn [product]. rewrite list_elem_of_bind. split.
    + intros (x & (r & -> & Hr)%list_elem_of_fmap & Hx).
      constructor; [done|]. by apply IH.
    + intros (x & r & Hx & Hr & ->)%Forall2_cons_inv_r.
      exists x. split; [|done]. apply list_elem_of_fmap. exists r.
      split; [done|]. by apply IH.
Qed.

Lemma expand_axes_length (self : search_object) (s : state) cs s' :
  expand_axes self s = (inr cs, s') → length cs = length (search_keys self).
Proof.
  unfold expand_axes.
  assert (∀ keys acc s,
            for_each keys acc
              (λ acc sl,
                 x ← lift (match dict.get (axes self) sl with
                           | Some x => inr x
                           | None => inl (AttributeError sl)
                           end);
                 ca ← _get_array_from_tuple (input_arrays (args self)) x;
                 mret (acc ++ [ca])) s = (inr cs, s') →
            length cs = (length acc + length keys)%nat) as Hloop.
  { induction keys as [|k keys IH]; intros acc s1.
    - simpl. intros [-> _]%ret_inr. lia.
    - rewrite for_each_cons.
      match goal with
      | |- match ?body with _ => _ end = _ → _ =>
          destruct body as [[e|acc'] s2] eqn:Hbody; [done|]
      end.
      apply bind_inr in Hbody as (x & s3 & _ & Hbody).
      apply bind_inr in Hbody as (ca & s4 & _ & [-> ->]%ret_inr).
      intros ->%IH. rewrite length_app. simpl. lia. }
  intros Hrun. by rewrite (Hloop _ _ _ Hrun).
Qed.

(** X12. For the classes that build their grid from axes, a call of
    [_get_input_data_array] that returns with [clean] off leaves one
    coordinate array per search key and, as input data, the table with the
    search keys as fields whose rows are exactly the combinations of one
    value from each coordinate array, in the order of [itertools.product];
    [total_iterations] is the number of these rows. *)
Theorem input_grid_is_full_product (self : search_object) (s s' : state) :
  kind self ≠ SearchOverGridFile → clean (args self) = false →
  _get_input_data_array self s = (inr tt, s') →
  ∃ cs input,
    coord_arrays s' = Some cs ∧ input_data s' = Some input
    ∧ length cs = length (search_keys self)
    ∧ names input = search_keys self
    ∧ rows input = product cs
    ∧ (∀ row, row ∈ rows input ↔ Forall2 (λ x a, x ∈ a) row cs)
    ∧ well_formed input
    ∧ total_iterations s' = Some (Z.of_nat (sa.len input)).
Proof.
  intros Hkind Hclean Hrun.
  assert ((logger_info GeneratingInputDataArray;;
           coord_arrays ← expand_axes self;
           modify (with_coord_arrays coord_arrays);;
           modify (with_total_iterations
                     (fold_left Z.mul
                        (map (λ ca, Z.of_nat (length ca)) coord_arrays) 1));;
           if negb (clean (args self))
           then modify (with_input_data
                          (SArray (search_keys self) (product coord_arrays)))
           else mret tt) s = (inr tt, s')) as Hrun'.
  { revert Hrun. unfold _get_input_data_array. by destruct (kind self). }
  clear Hrun. rewrite Hclean in Hrun'. simpl in Hrun'.
  apply bind_inr in Hrun' as ([] & s1 & _ & Hrun).
  apply bind_inr in Hrun as (cs & s2 & Hcs & Hrun).
  apply bind_inr in Hrun as ([] & s3 & ->%modify_inr & Hrun).
  apply bind_inr in Hrun as ([] & s4 & ->%modify_inr & ->%modify_inr).
  exists cs, (SArray (search_keys self) (product cs)). simpl.
  split; [done|]. split; [done|].
  split; [by eapply expand_axes_length|]. split; [done|]. split; [done|].
  split; [intros row; apply product_rows|]. split.
  - unfold well_formed. simpl. apply Forall_forall. intros row Hrow%product_rows.
    apply Forall2_length in Hrow. rewrite Hrow. by eapply expand_axes_length.
  - unfold sa.len. simpl. rewrite prod_lengths, length_product. f_equal. lia.
Qed.

Lemma input_grid_is_full_product_witness :
  ∃ cs input,
    coord_arrays (demo.regridded 1) = Some cs
    ∧ input_data (demo.regridded 1) = Some input
    ∧ length cs = length (search_keys (demo.grid_search 1))
    ∧ names input = search_keys (demo.grid_search 1)
    ∧ rows input = product cs
    ∧ (∀ row, row ∈ rows input ↔ Forall2 (λ x a, x ∈ a) row cs)
    ∧ well_formed input
    ∧ total_iterations (demo.regridded 1) = Some (Z.of_nat (sa.len input)).
Proof.
  apply (input_grid_is_full_product (demo.grid_search 1) (demo.after_run 1)).
  - discriminate.
  - reflexivity.
  - exact demo_regridded.
Defined.

(** ** Output formats cover the output keys *)

Lemma is_Some_get_set {V} (d : dict.t V) (k k' : string) (v : V) :
  is_Some (dict.get (dict.set d k' v) k) ↔ k = k' ∨ is_Some (dict.get d k).
Proof.
  destruct (decide (k = k')) as [->|Hne].
  - rewrite dict_get_set_eq. split; [by left|by eexists].
  - rewrite dict_get_set_ne by done. split; [by right|by intros [?|?]].
Qed.

Lemma is_Some_get_set_keys (d : dict.t string) (keys : list string)
    (f k : string) :
  is_Some (dict.get (set_keys d keys f) k) ↔ k ∈ keys ∨ is_Some (dict.get d k).
Proof.
  unfold set_keys. revert d. induction keys as [|k0 keys IH]; intros d; simpl.
  - split; [by right|]. by intros [?%elem_of_nil|?].
  - rewrite IH, is_Some_get_set, elem_of_cons. tauto.
Qed.

Lemma getitems_returns {V} (d : dict.t V) (keys : list string) :
  (∀ k, k ∈ keys → is_Some (dict.get d k)) →
  ∃ l, dict.getitems d keys = inr l ∧ length l = length keys.
Proof.
  induction keys as [|k keys IH]; intros Hall; [by exists []|].
  destruct (Hall k ltac:(left)) as [v Hv].
  destruct IH as (l & Hl & Hlen); [intros k' ?; apply Hall; by right|].
  exists (v :: l). simpl. rewrite Hv, Hl. split; [done|]. by rewrite Hlen.
Qed.

Ltac cases_or H :=
  lazymatch type of H with
  | _ ∨ _ => destruct H as [H|H]; [cases_or H|cases_or H]
  | False => destruct H
  | _ => idtac
  end.

Ltac find_disjunct :=
  solve [repeat first [done | left; done | right]; auto].

Lemma transient_formats_cover (d : dict.t string) (keys tkeys akeys : list string)
    (windowed has_at btsg : bool) (stat f : string) :
  (∀ k, k ∈ keys → is_Some (dict.get d k)) →
  ∀ key,
    key ∈ keys ++ ["twoF"] ++ tkeys
            ++ (if windowed then ["maxTwoF"] else [])
            ++ (if has_at then akeys else [])
            ++ (if bool_decide (stat ∈ ["twoF"; "maxTwoF"]) then [] else [stat])
            ++ (if windowed
                then ["t0_ML"; "tau_ML"]
                       ++ (if btsg then ["t0_MP"; "tau_MP"] else [])
                else []) →
    is_Some
      (dict.get
         (let d := dict.set d "twoF" f in
          let d := set_keys d tkeys f in
          let d := dict.set d "maxTwoF" f in
          let d := if has_at then set_keys d akeys f else d in
          let d := if negb (String.eqb stat "maxTwoF")
                   then dict.set d stat f else d in
          let d := dict.set (dict.set d "t0_ML" "%d") "tau_ML" "%d" in
          if btsg then dict.set (dict.set d "t0_MP" "%d") "tau_MP" "%d" else d)
         key).
Proof.
  intros Hd key. cbv zeta.
  destruct windowed, has_at, btsg,
    (bool_decide (stat ∈ ["twoF"; "maxTwoF"])),
    (String.eqb_spec stat "maxTwoF");
    simpl;
    repeat (rewrite is_Some_get_set || rewrite is_Some_get_set_keys);
    repeat (rewrite elem_of_app || rewrite elem_of_cons
            || rewrite elem_of_nil);
    intros H; cases_or H; subst; find_disjunct.
Qed.

Lemma savetxt_fmt_dict_covers (U : helpers) (self : search_object) :
  kind self ≠ GridGlitchSearch → constructed self →
  doppler_formats_cover U self →
  ∀ key, key ∈ output_keys self →
    is_Some (dict.get (_get_savetxt_fmt_dict U self) key).
Proof.
  intros Hkind [Hkeys Hbsgl] Hcover key. rewrite Hkeys.
  unfold _set_output_keys, _get_savetxt_fmt_dict. cbv zeta.
  set (d := get_doppler_params_output_format U _ _).
  assert (∀ k, k ∈ search_keys self → is_Some (dict.get d k)) as Hd
    by (intros k Hk; by apply Hcover).
  clearbody d. clear Hcover Hkeys.
  destruct (kind self); [|idtac|idtac|done]; simpl.
  - destruct (BSGL (args self)); try specialize (Hbsgl eq_refl); simpl;
      repeat (rewrite is_Some_get_set || rewrite is_Some_get_set_keys);
      repeat (rewrite elem_of_app || rewrite elem_of_cons
              || rewrite elem_of_nil);
      intros H; cases_or H; subst; find_disjunct.
  - by apply transient_formats_cover.
  - by apply transient_formats_cover.
Qed.

Lemma savetxt_rows_read_back (U : helpers) (fmt : list string)
    (X lines written : list (list float)) :
  read_back U fmt X lines →
  savetxt_rows U fmt X written = (written ++ lines, None).
Proof.
  intros Hback. revert written.
  induction Hback as [|row line X lines Hrow _ IH]; intros written; simpl.
  - by rewrite app_nil_r.
  - by rewrite Hrow, IH, <- app_assoc.
Qed.

Lemma savetxt_rows_first_failing (U : helpers) (fmt : list string)
    (X : list (list float)) (n : nat) (e : exn)
    (lines written : list (list float)) :
  first_failing_row U fmt X n e lines →
  savetxt_rows U fmt X written = (written ++ lines, Some e).
Proof.
  revert X lines written.
  induction n as [|n IH]; intros X lines written (Hback & row & Hn & He).
  - destruct X as [|x X]; [done|]. injection Hn as ->.
    apply Forall2_nil_inv_l in Hback as ->. simpl.
    by rewrite He, app_nil_r.
  - destruct X as [|x X]; [done|]. simpl in Hback, Hn.
    apply Forall2_cons_inv_l in Hback as (line & lines' & Hx & Hback & ->).
    simpl. rewrite Hx. rewrite (IH X lines' (written ++ [line])).
    + by rewrite <- app_assoc.
    + split; [done|]. by exists row.
Qed.

(** X14. For a search of the classes [GridSearch], [TransientGridSearch]
    and [SearchOverGridFile] as its constructor leaves it, and a helper that
    gives every search key a format, the format dict has an entry for every
    output key, so that on a table with the output keys as fields
    [save_array_to_disk] passes its own checks and reaches [np.savetxt].
    What happens there is decided by the formatting of the rows, and one
    of the two cases is met: when every row can be formatted the method
    returns, having written the file with
    the header of the search, the output keys as column names and one line
    per row; when a row cannot, it raises what the formatting of the first
    such row raises, and the file holds only the rows before it. *)
Theorem save_array_to_disk_decided_by_formatting (U : helpers)
    (self : search_object) (s : state) (d : sarray) :
  kind self ≠ GridGlitchSearch → constructed self →
  doppler_formats_cover U self →
  data s = Some d → names d = output_keys self →
  (∀ key, key ∈ output_keys self →
     is_Some (dict.get (_get_savetxt_fmt_dict U self) key))
  ∧ ∃ outfmt,
      _get_savetxt_fmt_list U self = inr outfmt
      ∧ length outfmt = length (output_keys self)
      ∧ ((∃ lines, read_back U outfmt (rows d) lines)
         ∨ (∃ n e lines, first_failing_row U outfmt (rows d) n e lines))
      ∧ (∀ lines, read_back U outfmt (rows d) lines →
           length lines = sa.len d
           ∧ save_array_to_disk U self s
             = (inr tt,
                with_out_file
                  (StoredFile (clock s) (output_file_header self)
                     (output_keys self) lines)
                  (with_log (λ l, l ++ [SavingData]) s)))
      ∧ (∀ n e lines, first_failing_row U outfmt (rows d) n e lines →
           (length lines < sa.len d)%nat
           ∧ save_array_to_disk U self s
             = (inl e,
                with_out_file
                  (StoredFile (clock s) (output_file_header self)
                     (output_keys self) lines)
                  (with_log (λ l, l ++ [SavingData]) s))).
Proof.
  intros Hkind Hcons Hcover Hdata Hnames.
  pose proof (savetxt_fmt_dict_covers U self Hkind Hcons Hcover) as Hall.
  split; [done|].
  destruct (getitems_returns (_get_savetxt_fmt_dict U self) (output_keys self)
              Hall) as (outfmt & Hfmt & Hlen).
  exists outfmt. split; [done|]. split; [done|].
  assert (∀ w, savetxt_rows U outfmt (rows d) [] = w →
            save_array_to_disk U self s
            = (match w.2 with None => inr tt | Some e => inl e end,
               with_out_file
                 (StoredFile (clock s) (output_file_header self)
                    (output_keys self) w.1)
                 (with_log (λ l, l ++ [SavingData]) s))) as Hsave.
  { intros w <-. unfold save_array_to_disk, savetxt, npset.nan_to_num.
    munfold. simpl. unfold _get_savetxt_fmt_list. rewrite Hfmt, Hdata.
    unfold sa.ncols. rewrite Hnames, Hlen, Nat.eqb_refl. simpl.
    by destruct (savetxt_rows U outfmt (rows d) []).2. }
  split.
  { destruct (savetxt_rows_spec U outfmt (rows d) []) as (lines & _ & Hres).
    destruct (savetxt_rows U outfmt (rows d) []).2 as [e|].
    - right. destruct Hres as [n Hfirst]. by exists n, e, lines.
    - left. by exists lines. }
  split.
  - intros lines Hback. split; [by apply read_back_length in Hback|].
    by rewrite (Hsave _ (savetxt_rows_read_back U outfmt _ lines [] Hback)).
  - intros n e lines Hfirst. split.
    + destruct Hfirst as (Hback & row & Hn & _).
      apply read_back_length in Hback. rewrite length_take in Hback.
      apply lookup_lt_Some in Hn. unfold sa.len. lia.
    + by rewrite (Hsave _ (savetxt_rows_first_failing U outfmt _ n e lines []
                             Hfirst)).
Qed.

Lemma demo_constructed : constructed (demo.grid_search 1).
Proof. split; [reflexivity|discriminate]. Defined.

Lemma demo_doppler_formats_cover :
  doppler_formats_cover (demo.env 1) (demo.grid_search 1).
Proof.
  intros key Hkey.
  repeat (apply elem_of_cons in Hkey as [Hkey|Hkey];
          [subst key; vm_compute; eexists; reflexivity|]).
  apply elem_of_nil in Hkey. destruct Hkey.
Defined.

Lemma demo_table_names :
  names (demo.table 1) = output_keys (demo.grid_search 1).
Proof. vm_compute. reflexivity. Defined.

Lemma demo_table_read_back :
  read_back (demo.env 1) ["%.16g"; "%.16g"; "%.16g"; "%.16g"; "%.16g"; "%.9g"]
    (rows (demo.table 1)) (rows (demo.table 1)).
Proof. vm_compute. repeat constructor. Defined.

Lemma demo_nan_constructed : constructed (demo.grid_search nan).
Proof. split; [reflexivity|discriminate]. Defined.

Lemma demo_strict_formats_cover :
  doppler_formats_cover (demo.strict_env nan) (demo.grid_search nan).
Proof.
  intros key Hkey.
  repeat (apply elem_of_cons in Hkey as [Hkey|Hkey];
          [subst key; vm_compute; eexists; reflexivity|]).
  apply elem_of_nil in Hkey. destruct Hkey.
Defined.

Lemma demo_nan_table_computed :
  data (demo.after_run nan) = Some (demo.table nan).
Proof. vm_compute. reflexivity. Defined.

Lemma demo_nan_table_names :
  names (demo.table nan) = output_keys (demo.grid_search nan).
Proof. vm_compute. reflexivity. Defined.

Lemma demo_nan_first_row_fails :
  first_failing_row (demo.strict_env nan)
    ["%.16g"; "%.16g"; "%.16g"; "%.16g"; "%.16g"; "%.9g"]
    (rows (demo.table nan)) 0 (ValueError CannotConvertNaN) [].
Proof.
  split; [constructor|]. vm_compute. eexists. split; reflexivity.
Defined.

Lemma save_array_to_disk_decided_by_formatting_witness :
  (length (rows (demo.table 1)) = sa.len (demo.table 1)
   ∧ save_array_to_disk (demo.env 1) (demo.grid_search 1) (demo.after_run 1)
     = (inr tt,
        with_out_file
          (StoredFile (clock (demo.after_run 1))
             (output_file_header (demo.grid_search 1))
             (output_keys (demo.grid_search 1)) (rows (demo.table 1)))
          (with_log (λ l, l ++ [SavingData]) (demo.after_run 1))))
  ∧ ((length (@nil (list float)) < sa.len (demo.table nan))%nat
     ∧ save_array_to_disk (demo.strict_env nan) (demo.grid_search nan)
         (demo.after_run nan)
       = (inl (ValueError CannotConvertNaN),
          with_out_file
            (StoredFile (clock (demo.after_run nan))
               (output_file_header (demo.grid_search nan))
               (output_keys (demo.grid_search nan)) [])
            (with_log (λ l, l ++ [SavingData]) (demo.after_run nan)))).
Proof.
  split.
  - destruct (save_array_to_disk_decided_by_formatting (demo.env 1)
                (demo.grid_search 1) (demo.after_run 1) (demo.table 1))
      as (_ & outfmt & Hfmt & _ & _ & Hgood & _).
    + discriminate.
    + exact demo_constructed.
    + exact demo_doppler_formats_cover.
    + exact demo_table_computed.
    + exact demo_table_names.
    + vm_compute in Hfmt. injection Hfmt as <-.
      exact (Hgood _ demo_table_read_back).
  - destruct (save_array_to_disk_decided_by_formatting (demo.strict_env nan)
                (demo.grid_search nan) (demo.after_run nan) (demo.table nan))
      as (_ & outfmt & Hfmt & _ & _ & _ & Hbad).
    + discriminate.
    + exact demo_nan_constructed.
    + exact demo_strict_formats_cover.
    + exact demo_nan_table_computed.
    + exact demo_nan_table_names.
    + vm_compute in Hfmt. injection Hfmt as <-.
      exact (Hbad _ _ _ demo_nan_first_row_fails).
Defined.

(** ** A glitch search with single-detector statistics *)

Lemma getitems_first_missing {V} (d : dict.t V) (pre post : list string)
    (k0 : string) :
  (∀ k, k ∈ pre → is_Some (dict.get d k)) → dict.get d k0 = None →
  dict.getitems d (pre ++ k0 :: post) = inl (KeyError k0).
Proof.
  intros Hpre Hk0. induction pre as [|k pre IH]; simpl.
  - by rewrite Hk0.
  - destruct (Hpre k ltac:(left)) as [v ->].
    rewrite IH; [done|]. intros k' Hk'. apply Hpre. by right.
Qed.

Lemma twoF_detector_key (IFO : string) :
  IFO ≠ "" →
  "twoF" +:+ IFO ≠ "delta_F0" ∧ "twoF" +:+ IFO ≠ "delta_F1"
  ∧ "twoF" +:+ IFO ≠ "tglitch" ∧ "twoF" +:+ IFO ≠ "twoF".
Proof.
  intros Hne. rewrite !append_cons, append_nil.
  repeat split; try discriminate.
  intros [= ->]. done.
Qed.

(** X15. A [GridGlitchSearch] whose evaluator reports single-detector
    statistics has the columns [twoF<IFO>] among its output keys, but its
    format dict has no entry for them unless the helper for the Doppler
    parameters supplies one.  So, the search keys having formats,
    [save_array_to_disk] raises [KeyError] for the first detector, having
    written nothing, and [run] without [return_data] cannot return unless it
    reuses a stored table. *)
Theorem glitch_search_cannot_save_detector_columns (U : helpers)
    (self : search_object) (s : state) (IFO : string) (rest : list string) :
  kind self = GridGlitchSearch → constructed self → detstat self = "twoF" →
  singleFstats (search self) = true →
  detector_names (search self) = IFO :: rest → IFO ≠ "" →
  (∀ key, key ∈ search_keys self →
     is_Some (dict.get (_get_savetxt_fmt_dict U self) key)) →
  dict.get (get_doppler_params_output_format U (output_keys self)
              (fmt_doppler U)) ("twoF" +:+ IFO) = None →
  _get_savetxt_fmt_list U self = inl (KeyError ("twoF" +:+ IFO))
  ∧ save_array_to_disk U self s
    = (inl (KeyError ("twoF" +:+ IFO)), with_log (λ l, l ++ [SavingData]) s)
  ∧ ∀ r s', run U self false s = (inr r, s') →
            det_stat_calls s' = det_stat_calls s ∧ out_file s' = out_file s.
Proof.
  intros Hkind [Hkeys _] Hstat Hsingle Hnames HIFO Hcover Hnone.
  destruct (twoF_detector_key IFO HIFO) as (H1 & H2 & H3 & H4).
  assert (_get_savetxt_fmt_list U self = inl (KeyError ("twoF" +:+ IFO)))
    as Hlist.
  { unfold _get_savetxt_fmt_list. rewrite Hkeys at 1.
    unfold _set_output_keys. rewrite Hkind. simpl.
    unfold twoF_keys. rewrite Hsingle, Hnames. simpl.
    rewrite (cons_middle "twoF" (search_keys self)), app_assoc.
    apply getitems_first_missing.
    - intros k [Hk|Hk]%elem_of_app; [by apply Hcover|].
      apply list_elem_of_singleton in Hk as ->.
      unfold _get_savetxt_fmt_dict. rewrite Hkind. cbv zeta.
      rewrite !is_Some_get_set. by left.
    - unfold _get_savetxt_fmt_dict. rewrite Hkind. cbv zeta.
      rewrite Hstat. by rewrite !dict_get_set_ne. }
  split; [done|]. split.
  - unfold save_array_to_disk. munfold. simpl. by rewrite Hlist.
  - intros r s' Hrun. unfold run in Hrun.
    apply bind_inr in Hrun as ([] & s1 & Hgrid & Hrun).
    apply get_input_data_array_frame in Hgrid as (Hc1 & _ & _ & Ho1 & _).
    apply bind_inr in Hrun as (first & s2 & Hfirst & Hrun).
    destruct (clean (args self)).
    { apply bind_inr in Hfirst as (cs & s3 & _ & [-> ->]%ret_inr).
      simpl in Hrun. by apply bind_inr in Hrun as (n & s4 & [=] & _). }
    apply bind_inr in Hfirst as (old_data & s3 & Hcheck & Hfirst).
    apply bind_inr in Hfirst as (input & s4 & [_ ->]%getattr_inr & [-> ->]%ret_inr).
    pose proof (check_old_data_logs_only U self _ _ _ Hcheck) as [l ->].
    simpl in Hrun. destruct old_data as [old|].
    + apply bind_inr in Hrun as ([] & s5 & ->%modify_inr & [_ ->]%ret_inr).
      simpl. by rewrite Hc1, Ho1.
    + apply bind_inr in Hrun as (n & s5 & _ & Hrun).
      apply bind_inr in Hrun as ([] & s6 & _ & Hrun).
      apply bind_inr in Hrun as (input2 & s7 & _ & Hrun).
      apply bind_inr in Hrun as (d & s8 & _ & Hrun).
      apply bind_inr in Hrun as ([] & s9 & _ & Hrun).
      apply bind_inr in Hrun as ([] & s10 & Hsave & _).
      unfold save_array_to_disk in Hsave.
      apply bind_inr in Hsave as ([] & s11 & _ & Hsave).
      apply bind_inr in Hsave as (outfmt & s12 & [Hfmt _]%lift_inr & _).
      by rewrite Hlist in Hfmt.
Qed.

Lemma glitch_search_cannot_save_detector_columns_witness :
  _get_savetxt_fmt_list (demo.env 1) demo.glitch_search
  = inl (KeyError "twoFH1")
  ∧ save_array_to_disk (demo.env 1) demo.glitch_search demo.initial_state
    = (inl (KeyError "twoFH1"),
       with_log (λ l, l ++ [SavingData]) demo.initial_state)
  ∧ ∀ r s', run (demo.env 1) demo.glitch_search false demo.initial_state
            = (inr r, s') →
            det_stat_calls s' = det_stat_calls demo.initial_state
            ∧ out_file s' = out_file demo.initial_state.
Proof.
  refine (glitch_search_cannot_save_detector_columns (demo.env 1)
            demo.glitch_search demo.initial_state "H1" [] eq_refl _ eq_refl
            eq_refl eq_refl _ _ _).
  - split; [reflexivity|discriminate].
  - discriminate.
  - intros key Hkey.
    repeat (apply elem_of_cons in Hkey as [Hkey|Hkey];
            [subst key; vm_compute; eexists; reflexivity|]).
    apply elem_of_nil in Hkey. destruct Hkey.
  - vm_compute. reflexivity.
Defined.

(** ** What a row of the table holds *)

Lemma zip_keys_NoDup {V} (keys : list string) (vals : list V) :
  NoDup keys → NoDup (zip keys vals).*1.
Proof.
  revert vals. induction keys as [|k keys IH]; intros vals Hnd; [constructor|].
  destruct vals as [|v vals]; [constructor|].
  apply NoDup_cons in Hnd as [Hk Hnd]. simpl. apply NoDup_cons.
  split; [|by apply IH].
  intros ([k' v'] & -> & Hin)%list_elem_of_fmap. apply Hk.
  apply elem_of_zip_l in Hin. done.
Qed.

Lemma of_zip_get {V} (keys : list string) (vals : list V) (i : nat)
    (k : string) (v : V) :
  NoDup keys → keys !! i = Some k → vals !! i = Some v →
  dict.get (dict.of_zip keys vals) k = Some v.
Proof.
  intros Hnd Hk Hv.
  change (dict.of_zip keys vals) with (update [] (zip keys vals)).
  rewrite update_get by (by apply zip_keys_NoDup).
  rewrite (dict_get_In (zip keys vals) k v); [done|by apply zip_keys_NoDup|].
  apply list_elem_of_lookup. exists i. apply lookup_zip_with_Some.
  by exists k, v.
Qed.

Lemma set_per_detector_frame (c : dict.t float) (names : list string)
    (key : string → string) (values : list float) (s : state) c' s' :
  set_per_detector c names key values s = (inr c', s') →
  s' = s ∧ ∀ k, k ∉ key <$> names → dict.get c' k = dict.get c k.
Proof.
  unfold set_per_detector, enumerate.
  assert (∀ (g : nat → nat) c,
            for_each (imap (λ i a, (g i, a)) names) c
              (λ c XI, v ← lift (list_index values XI.1);
                       mret (dict.set c (key XI.2) v)) s = (inr c', s') →
            s' = s ∧ ∀ k, k ∉ key <$> names → dict.get c' k = dict.get c k)
    as Hgen; [|apply (Hgen (λ i, i))].
  clear c. induction names as [|name names IH]; intros g c.
  - simpl. by intros [-> ->]%ret_inr.
  - simpl imap. rewrite for_each_cons.
    match goal with
    | |- match ?body with _ => _ end = _ → _ =>
        destruct body as [[e|c1] s1] eqn:Hbody; [done|]
    end.
    apply bind_inr in Hbody as (v & s2 & [_ ->]%lift_inr & [-> ->]%ret_inr).
    intros (-> & Hget)%(IH (g ∘ S)). split; [done|].
    intros k [Hne Hk]%not_elem_of_cons. rewrite Hget by done. simpl.
    apply dict_get_set_ne. congruence.
Qed.

Lemma grid_row_evaluated (self : search_object) (d : sarray) (n : nat)
    (row : list float) (s : state) d' s' :
  grid_search_constructed self → NoDup (output_keys self) → well_formed d →
  GridSearch_get_single_cand_results self d n row s = (inr d', s') →
  row_evaluated self d' n row
  ∧ well_formed d'
  ∧ (∀ key n', n' ≠ n → sa.cell d' key n' = sa.cell d key n').
Proof.
  intros (Hkind & Hkeys & Hstat) Hnd Hwf Hrow.
  unfold GridSearch_get_single_cand_results in Hrow. cbv zeta in Hrow.
  apply bind_inr in Hrow as (out & s1 & Hcall & Hrow).
  apply call_evaluator_inv in Hcall as [-> Hout].
  destruct (get_det_stat (search self) _) as [code|out'] eqn:Hev; [done|].
  injection Hout as <-.
  apply bind_inr in Hrow as (c & s2 & Hdet & Hstore).
  set (c0 := dict.set (dict.of_zip (search_keys self) row) "twoF" (twoF out))
    in Hdet.
  assert (∀ k, k ∉ twoF_keys (search self) → dict.get c k = dict.get c0 k)
    as Hc.
  { unfold twoF_keys. destruct (singleFstats (search self)).
    - by apply set_per_detector_frame in Hdet as [_ Hget].
    - by apply ret_inr in Hdet as [-> _]. }
  rewrite store_candidate_place in Hstore.
  apply place_all in Hstore as (_ & _ & _ & Hwf' & Hother & Hcells).
  specialize (Hcells Hwf ltac:(intros x y _ _ Heq; by rewrite (Heq : x = y))).
  simpl in Hcells.
  rewrite Hkeys in Hnd. unfold _set_output_keys in Hnd, Hkeys. simpl in Hnd, Hkeys.
  apply NoDup_app in Hnd as (Hnd1 & Hdisj & Hnd2).
  apply NoDup_cons in Hnd2 as (Htwo & Hnd2).
  apply NoDup_app in Hnd2 as (_ & Hdisj2 & _).
  assert (∀ key v, key ∈ output_keys self →
            dict.get (if negb (detstat self =? "twoF")%string
                      then dict.set c (detstat self) (returned out) else c) key
            = Some v → sa.cell d' key n = inr v) as Hcell.
  { intros key v Hin Hget. destruct (Hcells key Hin) as (v' & Hv' & Hcv).
    rewrite (candidate_value_get _ _ _ Hget) in Hv'. by injection Hv' as <-. }
  split; [|split; [by apply Hwf'|]].
  - exists out. split; [done|]. split; [|split].
    + intros i key v Hkey Hv.
      assert (key ∈ search_keys self) as Hin by (by eapply list_elem_of_lookup_2).
      assert (key ≠ "twoF") as Hne by (intros ->; apply (Hdisj "twoF" Hin); left).
      apply Hcell.
      { rewrite Hkeys. apply elem_of_app. by left. }
      assert (dict.get c key = Some v) as Hget.
      { rewrite Hc.
        - unfold c0. rewrite dict_get_set_ne by done. by eapply of_zip_get.
        - intros Hk. apply (Hdisj key Hin). right. apply elem_of_app. by left. }
      destruct (negb _) eqn:Hneg; [|done].
      rewrite dict_get_set_ne; [done|]. intros Heq.
      rewrite Hstat in Heq, Hneg.
      destruct (BSGL (args self)); [|congruence].
      apply (Hdisj key Hin). right. apply elem_of_app. right.
      rewrite Hstat, <- Heq. left.
    + apply Hcell.
      { rewrite Hkeys. apply elem_of_app. right. left. }
      assert (dict.get c "twoF" = Some (twoF out)) as Hget.
      { rewrite Hc.
        - unfold c0. apply dict_get_set_eq.
        - intros Hk. apply Htwo, elem_of_app. by left. }
      destruct (negb _) eqn:Hneg; [|done].
      rewrite dict_get_set_ne; [done|]. intros Heq. by rewrite Heq in Hneg.
    + intros HB. apply Hcell.
      { rewrite Hkeys, HB. apply elem_of_app. right. right.
        apply elem_of_app. right. left. }
      rewrite Hstat, HB. simpl. apply dict_get_set_eq.
  - intros key n' Hne. apply Hother. by left.
Qed.

Lemma row_evaluated_ext (self : search_object) (d d' : sarray) (n : nat)
    (row : list float) :
  (∀ key, sa.cell d' key n = sa.cell d key n) →
  row_evaluated self d n row → row_evaluated self d' n row.
Proof.
  intros Hsame (out & Hev & Hkeys & Htwo & Hstat). exists out.
  split; [done|]. split; [|split].
  - intros i key v Hkey Hv. rewrite Hsame. by eapply Hkeys.
  - by rewrite Hsame.
  - intros HB. rewrite Hsame. by apply Hstat.
Qed.

Lemma zeros_well_formed (n : nat) (ns : list string) :
  well_formed (sa.zeros n ns).
Proof.
  unfold well_formed, sa.zeros. simpl. apply Forall_replicate.
  apply length_replicate.
Qed.

Lemma grid_rows_evaluated (self : search_object) (points : list (list float)) :
  grid_search_constructed self → NoDup (output_keys self) →
  ∀ (k : nat) (d : sarray) (s : state) d' s',
    well_formed d →
    for_each (imap (λ i a, ((k + i)%nat, a)) points) d
      (λ d nvals, _get_single_cand_results self d nvals.1 nvals.2) s
    = (inr d', s') →
    well_formed d'
    ∧ (∀ key n, (n < k)%nat → sa.cell d' key n = sa.cell d key n)
    ∧ (∀ i row, points !! i = Some row →
         row_evaluated self d' (k + i) row).
Proof.
  intros Hself Hnd.
  induction points as [|row points IH]; intros k d s d' s' Hwf.
  - simpl. intros [-> ->]%ret_inr. by repeat split.
  - rewrite imap_cons, for_each_cons. simpl.
    destruct (_get_single_cand_results self d (k + 0) row s)
      as [[e|d1] s1] eqn:Hrow; [done|].
    rewrite Nat.add_0_r in Hrow.
    unfold _get_single_cand_results in Hrow.
    destruct Hself as (Hkind & Hself). rewrite Hkind in Hrow.
    apply grid_row_evaluated in Hrow as (Hev & Hwf1 & Hother);
      [|done..].
    rewrite (imap_ext _ (λ i a, ((S k + i)%nat, a)))
      by (intros i x _; simpl; f_equal; lia).
    intros (Hwf' & Hbelow & Hrest)%IH; [|done].
    split; [done|]. split; [|intros [|i] row' Hi].
    + intros key n Hn. rewrite Hbelow by lia. apply Hother. lia.
    + injection Hi as <-. rewrite Nat.add_0_r.
      apply (row_evaluated_ext self d1); [|done].
      intros key. apply Hbelow. lia.
    + replace (k + S i)%nat with (S k + i)%nat by lia. by apply Hrest.
Qed.

(** X16. A call of [run] on a [GridSearch] whose output keys are pairwise
    distinct, when it returns, has either reused the stored table, or built
    a table in which row [n] holds point [n] of the input grid under the
    search keys, in column [twoF] the 2F value the evaluator returns for
    that point, and, when [BSGL] is on, in the column of the detection
    statistic the statistic it returns.  That table is the value returned
    with [return_data], and [self.data] without. *)
Theorem run_rows_hold_points_and_results (U : helpers) (self : search_object)
    (return_data : bool) (s : state) (r : option sarray) (s' : state) :
  grid_search_constructed self → NoDup (output_keys self) →
  run U self return_data s = (inr r, s') →
  ∃ input,
    input_data s' = Some input
    ∧ ((r = None
        ∧ ∃ f, out_file s = Some f
               ∧ data s' = Some (SArray (columns f) (table f)))
       ∨ (∃ d,
            (if return_data then r = Some d else data s' = Some d)
            ∧ ∀ n row, rows input !! n = Some row →
                row_evaluated self d n row)).
Proof.
  intros Hself Hnd. unfold run. intros Hrun.
  apply bind_inr in Hrun as ([] & s1 & Hgrid & Hrun).
  apply get_input_data_array_frame in Hgrid as Hframe.
  destruct Hframe as (_ & _ & _ & Hout1 & _).
  apply bind_inr in Hrun as (first & s2 & Hfirst & Hrun).
  destruct (clean (args self)) eqn:Hclean.
  { apply bind_inr in Hfirst as (cs & s3 & _ & [-> ->]%ret_inr).
    simpl in Hrun. by apply bind_inr in Hrun as (n & s4 & [=] & _). }
  apply bind_inr in Hfirst as (old_data & s3 & Hcheck & Hfirst).
  apply bind_inr in Hfirst
    as (input & s4 & [Hin3 ->]%getattr_inr & [-> ->]%ret_inr).
  pose proof (check_old_data_logs_only U self _ _ _ Hcheck) as [l Hs3].
  simpl in Hrun. destruct old_data as [old|].
  - apply check_reaches_compare in Hcheck as (_ & f & Hfile & _ & _ & Hcmp).
    apply compare_with_old_data_sound in Hcmp as (_ & -> & _).
    apply bind_inr in Hrun as ([] & s5 & ->%modify_inr & [<- ->]%ret_inr).
    exists input. split; [done|]. left. split; [done|].
    exists f. by rewrite <- Hout1.
  - apply bind_inr in Hrun as (n & s5 & [_ ->]%lift_inr & Hrun).
    apply bind_inr in Hrun as ([] & s6 & ->%modify_inr & Hrun).
    apply bind_inr in Hrun as (input2 & s7 & [Hin7 ->]%getattr_inr & Hrun).
    simpl in Hin7. rewrite Hin3 in Hin7. injection Hin7 as <-.
    apply bind_inr in Hrun as (d & s8 & Hloop & Hrun).
    pose proof (search_loop_effects _ _ _ _ _ _ Hloop) as (k & _ & Heff & _).
    destruct Heff as (_ & _ & _ & _ & _ & _ & _ & Hid & Hd).
    unfold search_loop, enumerate in Hloop. simpl in Hloop.
    apply (grid_rows_evaluated self (rows input) Hself Hnd 0) in Hloop
      as (_ & _ & Hrows); [|apply zeros_well_formed].
    subst s3. simpl in Hid, Hd.
    exists input. destruct return_data.
    + apply ret_inr in Hrun as [-> ->].
      split; [by rewrite Hid|]. right. by exists d.
    + apply bind_inr in Hrun as ([] & s9 & ->%modify_inr & Hrun).
      apply bind_inr in Hrun as ([] & s10 & Hsave & [-> ->]%ret_inr).
      apply save_array_to_disk_inv in Hsave
        as (d' & outfmt & lines & [= <-] & Hfmt & Hn & Hback & ->).
      simpl. split; [by rewrite Hid|]. right. by exists d.
Qed.

Lemma demo_grid_search_constructed :
  grid_search_constructed (demo.grid_search 1).
Proof. split; [reflexivity|]. split; reflexivity. Defined.

Lemma demo_output_keys_NoDup : NoDup (output_keys (demo.grid_search 1)).
Proof. apply (bool_decide_unpack _). vm_compute. exact I. Defined.

Lemma run_rows_hold_points_and_results_witness :
  ∃ input,
    input_data (demo.after_run 1) = Some input
    ∧ (((None : option sarray) = None
        ∧ ∃ f, out_file demo.initial_state = Some f
               ∧ data (demo.after_run 1) = Some (SArray (columns f) (table f)))
       ∨ (∃ d,
            data (demo.after_run 1) = Some d
            ∧ ∀ n row, rows input !! n = Some row →
                row_evaluated (demo.grid_search 1) d n row)).
Proof.
  exact (run_rows_hold_points_and_results (demo.env 1) (demo.grid_search 1)
           false demo.initial_state None (demo.after_run 1)
           demo_grid_search_constructed demo_output_keys_NoDup demo_first_run).
Defined.

(** ** The search ranges of a grid file *)

Lemma is_nan_Prim2SF (x : float) :
  PrimFloat.is_nan x = true → Prim2SF x = S754_nan.
Proof.
  unfold PrimFloat.is_nan. rewrite FloatAxioms.eqb_spec. unfold SFeqb.
  destruct (Prim2SF x) as [?|[]| |[] m e]; simpl; try done;
    rewrite Z.compare_refl, Pos.compare_cont_spec, Pos.compare_refl; done.
Qed.

Lemma leb_nan_r (x y : float) :
  PrimFloat.is_nan y = true → (x <=? y)%float = false.
Proof.
  intros Hy%is_nan_Prim2SF. rewrite FloatAxioms.leb_spec, Hy. unfold SFleb.
  by destruct (Prim2SF x) as [?|[]| |[] m e].
Qed.

Lemma leb_nan_l (x y : float) :
  PrimFloat.is_nan x = true → (x <=? y)%float = false.
Proof.
  intros Hx%is_nan_Prim2SF. by rewrite FloatAxioms.leb_spec, Hx.
Qed.

Lemma leb_trans (x y z : float) :
  PrimFloat.is_nan x = false → PrimFloat.is_nan y = false →
  PrimFloat.is_nan z = false →
  (x <=? y)%float = true → (y <=? z)%float = true → (x <=? z)%float = true.
Proof.
  intros Hx Hy Hz Hxy Hyz.
  destruct (x <=? z)%float eqn:Hxz; [done|].
  apply not_leb_ltb in Hxz; [|done..].
  pose proof (leb_ltb_trans y z x Hy Hz Hx Hyz Hxz) as Hyx.
  pose proof (leb_ltb_trans x y x Hx Hy Hx Hxy Hyx) as Hxx.
  by rewrite ltb_irrefl in Hxx.
Qed.

Lemma leb_total (x y : float) :
  PrimFloat.is_nan x = false → PrimFloat.is_nan y = false →
  (x <=? y)%float = false → (y <=? x)%float = true.
Proof. intros Hx Hy Hxy. apply ltb_leb; [done..|]. by apply not_leb_ltb. Qed.

(** The fold of [np.min] and of [np.max], over any order [le] of the doubles
    that are no NaN. *)
Section Extremum.

Variable le : float → float → bool.
Hypothesis le_refl : ∀ x, PrimFloat.is_nan x = false → le x x = true.
Hypothesis le_trans : ∀ x y z,
  PrimFloat.is_nan x = false → PrimFloat.is_nan y = false →
  PrimFloat.is_nan z = false →
  le x y = true → le y z = true → le x z = true.
Hypothesis le_total : ∀ x y,
  PrimFloat.is_nan x = false → PrimFloat.is_nan y = false →
  le x y = false → le y x = true.
Hypothesis le_nan : ∀ x y, PrimFloat.is_nan y = true → le x y = false.

Let pick (m y : float) : float :=
  if PrimFloat.is_nan m then m else if negb (le m y) then y else m.

Lemma fold_extremum (l : list float) (m : float) :
  PrimFloat.is_nan m = false → nan_free l →
  PrimFloat.is_nan (fold_left pick l m) = false
  ∧ fold_left pick l m ∈ m :: l
  ∧ ∀ v, v ∈ m :: l → le (fold_left pick l m) v = true.
Proof.
  revert m. induction l as [|y l IH]; intros m Hm Hl; simpl.
  - split; [done|]. split; [left|].
    intros v ->%list_elem_of_singleton. by apply le_refl.
  - apply Forall_cons in Hl as [Hy Hl].
    assert (PrimFloat.is_nan (pick m y) = false
            ∧ pick m y ∈ [m; y]
            ∧ le (pick m y) m = true ∧ le (pick m y) y = true)
      as (Hp & Hin & Hpm & Hpy).
    { unfold pick. rewrite Hm. destruct (le m y) eqn:Hle; simpl.
      - split; [done|]. split; [left|]. split; [by apply le_refl|done].
      - split; [done|]. split; [right; left|].
        split; [by apply le_total|by apply le_refl]. }
    destruct (IH (pick m y) Hp Hl) as (Hr & Hrin & Hle).
    split; [done|]. split.
    + apply elem_of_cons in Hrin as [->|Hrin].
      * apply elem_of_cons in Hin as [->|Hin]; [left|].
        apply list_elem_of_singleton in Hin as ->. right; left.
      * by do 2 right.
    + assert (∀ v, v ∈ l → PrimFloat.is_nan v = false) as Hnan.
      { intros v Hv. by eapply Forall_forall in Hl. }
      intros v [->|[->|Hv]%elem_of_cons]%elem_of_cons.
      * apply (le_trans _ (pick m y)); [done..| |done]. apply Hle. left.
      * apply (le_trans _ (pick m y)); [done..| |done]. apply Hle. left.
      * apply Hle. by right.
Qed.

Lemma fold_nan (l : list float) (m : float) :
  PrimFloat.is_nan m = true ∨ (∃ v, v ∈ l ∧ PrimFloat.is_nan v = true) →
  PrimFloat.is_nan (fold_left pick l m) = true.
Proof.
  revert m. induction l as [|y l IH]; intros m Hm; simpl.
  - destruct Hm as [Hm|(v & Hv & _)]; [done|]. by apply elem_of_nil in Hv.
  - apply IH. unfold pick.
    destruct (PrimFloat.is_nan m) eqn:Hnm; [by left|].
    destruct Hm as [Hm|(v & [->|Hv]%elem_of_cons & Hnv)]; [done| |].
    + left. by rewrite le_nan.
    + right. by exists v.
Qed.

End Extremum.

Lemma np_min_spec (col : list float) (lo : float) :
  np_min col = inr lo →
  (nan_free col →
     lo ∈ col ∧ ∀ v, v ∈ col → (lo <=? v)%float = true)
  ∧ (∀ v, v ∈ col → PrimFloat.is_nan v = true → PrimFloat.is_nan lo = true).
Proof.
  destruct col as [|x col]; [done|]. simpl. intros [= <-]. split.
  - intros [Hx Hcol]%Forall_cons.
    destruct (fold_extremum (λ m y, (m <=? y)%float) leb_refl leb_trans
                leb_total col x Hx Hcol)
      as (_ & Hin & Hle).
    by split.
  - intros v Hv Hnan.
    apply (fold_nan (λ m y, (m <=? y)%float) (λ x y, leb_nan_r x y)).
    apply elem_of_cons in Hv as [->|Hv]; [by left|right; by exists v].
Qed.

Lemma np_max_spec (col : list float) (hi : float) :
  np_max col = inr hi →
  (nan_free col →
     hi ∈ col ∧ ∀ v, v ∈ col → (v <=? hi)%float = true)
  ∧ (∀ v, v ∈ col → PrimFloat.is_nan v = true → PrimFloat.is_nan hi = true).
Proof.
  destruct col as [|x col]; [done|]. simpl. intros [= <-]. split.
  - intros [Hx Hcol]%Forall_cons.
    destruct (fold_extremum (λ m y, (y <=? m)%float) leb_refl
                (λ x y z Hx Hy Hz Hxy Hyz, leb_trans z y x Hz Hy Hx Hyz Hxy)
                (λ x y Hx Hy, leb_total y x Hy Hx) col x Hx Hcol)
      as (_ & Hin & Hle).
    by split.
  - intros v Hv Hnan.
    apply (fold_nan (λ m y, (y <=? m)%float) (λ x y, leb_nan_l y x)).
    apply elem_of_cons in Hv as [->|Hv]; [by left|right; by exists v].
Qed.

Lemma grid_spans_spec (g : sarray) (keys : list string)
    (d0 d : dict.t (list float)) :
  grid_spans g keys d0 = inr d →
  ∀ key,
    (key ∈ keys →
       ∃ col lo hi, sa.field g key = inr col ∧ np_min col = inr lo
                    ∧ np_max col = inr hi ∧ dict.get d key = Some [lo; hi])
    ∧ (key ∉ keys → dict.get d key = dict.get d0 key).
Proof.
  revert d0. induction keys as [|k keys IH]; intros d0; simpl.
  - intros [= <-] key. split; [by intros ?%elem_of_nil|done].
  - destruct (sa.field g k) as [e|col] eqn:Hcol; [done|].
    destruct (np_min col) as [e|lo] eqn:Hlo;
      [by destruct (np_max col)|].
    destruct (np_max col) as [e|hi] eqn:Hhi; [done|].
    intros Hrest key. destruct (IH _ Hrest key) as [Hin Hout]. split.
    + intros [->|Hkey]%elem_of_cons; [|by apply Hin].
      destruct (decide (k ∈ keys)) as [Hk|Hk]; [by apply Hin|].
      exists col, lo, hi. rewrite Hout by done.
      by rewrite dict_get_set_eq.
    + intros [Hne Hkey]%not_elem_of_cons. rewrite Hout by done.
      by apply dict_get_set_ne.
Qed.

(** X17. The search ranges [SearchOverGridFile._get_search_ranges] hands
    to the evaluator: a dictionary is returned only when [minCoverFreq] or
    [maxCoverFreq] is missing; it has one entry [[lo, hi]] per search key
    and no other entry.  For a column without NaN, [lo] and [hi] are values
    of the column and every value of the column lies between them; a single
    NaN in the column makes both [lo] and [hi] NaN. *)
Theorem grid_file_ranges_span_columns (a : init_args) (g : sarray)
    (keys : list string) (d : dict.t (list float)) :
  _get_search_ranges_from_grid a g keys = inr (Some d) →
  (minCoverFreq a = None ∨ maxCoverFreq a = None)
  ∧ (∀ key, key ∉ keys → dict.get d key = None)
  ∧ ∀ key, key ∈ keys →
      ∃ col lo hi,
        sa.field g key = inr col ∧ dict.get d key = Some [lo; hi]
        ∧ (nan_free col →
             lo ∈ col ∧ hi ∈ col
             ∧ ∀ v, v ∈ col →
                 (lo <=? v)%float = true ∧ (v <=? hi)%float = true)
        ∧ (∀ v, v ∈ col → PrimFloat.is_nan v = true →
             PrimFloat.is_nan lo = true ∧ PrimFloat.is_nan hi = true).
Proof.
  unfold _get_search_ranges_from_grid. intros Hranges.
  assert ((minCoverFreq a = None ∨ maxCoverFreq a = None)
          ∧ grid_spans g keys [] = inr d) as [Hcover Hspans].
  { destruct (minCoverFreq a), (maxCoverFreq a); try done;
      (destruct (grid_spans g keys []) as [e|d'] eqn:Hspans; [done|]);
      injection Hranges as ->; split; auto. }
  split; [done|]. split.
  - intros key Hkey. by destruct (grid_spans_spec g keys [] d Hspans key) as [_ ->].
  - intros key Hkey.
    destruct (grid_spans_spec g keys [] d Hspans key) as [Hin _].
    destruct (Hin Hkey) as (col & lo & hi & Hcol & Hlo & Hhi & Hget).
    exists col, lo, hi. split; [done|]. split; [done|].
    apply np_min_spec in Hlo as [Hlo Hlonan].
    apply np_max_spec in Hhi as [Hhi Hhinan].
    split.
    + intros Hfree. destruct (Hlo Hfree) as [? Hle], (Hhi Hfree) as [? Hge].
      split; [done|]. split; [done|]. intros v Hv. split; auto.
    + intros v Hv Hnan. split; eauto.
Qed.

Lemma demo_grid_ranges :
  _get_search_ranges_from_grid (demo.gridfile_args false false)
    (SArray ["F0"; "Alpha"] [[10%float; 0.5%float]; [11%float; 0.5%float]])
    ["F0"; "Alpha"]
  = inr (Some [("F0", [10%float; 11%float]); ("Alpha", [0.5%float; 0.5%float])]).
Proof. vm_compute. reflexivity. Defined.

Lemma grid_file_ranges_span_columns_witness :
  ∃ col lo hi,
    sa.field (SArray ["F0"; "Alpha"]
                [[10%float; 0.5%float]; [11%float; 0.5%float]]) "F0"
    = inr col
    ∧ dict.get [("F0", [10%float; 11%float]); ("Alpha", [0.5%float; 0.5%float])]
        "F0" = Some [lo; hi]
    ∧ (nan_free col →
         lo ∈ col ∧ hi ∈ col
         ∧ ∀ v, v ∈ col →
             (lo <=? v)%float = true ∧ (v <=? hi)%float = true)
    ∧ (∀ v, v ∈ col → PrimFloat.is_nan v = true →
         PrimFloat.is_nan lo = true ∧ PrimFloat.is_nan hi = true).
Proof.
  apply (proj2 (proj2 (grid_file_ranges_span_columns _ _ _ _ demo_grid_ranges))).
  apply list_elem_of_here.
Defined.

(** ** What the constructors establish *)

Lemma initiate_search_object_inv (U : helpers) (k : variant) (a : init_args)
    (ranges : exn + option (dict.t (list float))) (s : state)
    (built : evaluator * init_args) (s' : state) :
  _initiate_search_object U k a ranges s = (inr built, s') →
  (∃ r, ranges = inr r ∧ make_search U k a r = inr built.1)
  ∧ built.2 = match k with
              | GridGlitchSearch => a
              | _ => set_start_times a (search_minStartTime built.1)
                       (search_maxStartTime built.1)
              end
  ∧ search_objects s' = S (search_objects s)
  ∧ det_stat_calls s' = det_stat_calls s
  ∧ out_file s' = out_file s.
Proof.
  unfold _initiate_search_object. munfold. simpl.
  destruct ranges as [e|r]; [done|].
  destruct (make_search U k a r) as [code|ev'] eqn:Hmake; [done|].
  intros [= <- <-]. simpl. split; [by exists r|]. by destruct k.
Qed.

Lemma info_inr (m : logmsg) (u : unit) (s s' : state) :
  logger_info m s = (inr u, s') → s' = with_log (λ l, l ++ [m]) s.
Proof. munfold. by intros [= <-]. Qed.

(** X18. The object a constructor of the four search classes returns is of
    that class, has the output keys [_set_output_keys] computes from its own
    search keys, detection statistic and evaluator, and with [BSGL] the
    detection statistic [log10BSGL]; a [GridSearch] has the statistic [twoF]
    without [BSGL].  Its evaluator is built from the arguments as the
    constructor has them at that point: those it was given, with [nsegs = 1]
    for a [TransientGridSearch], and with [BSGL] and [input_arrays] off for
    a [GridGlitchSearch].  The object does not keep these arguments
    unchanged: but for a [GridGlitchSearch], its [minStartTime] and
    [maxStartTime] are the evaluator's, whatever was given; every other
    argument is kept.  It is the only evaluator the constructor builds; no
    detection statistic is computed and no output file written. *)
Theorem constructors_establish_schema (U : helpers) (k : variant)
    (a : init_args) (s : state) (self : search_object) (s' : state) :
  let passed := match k with
                | TransientGridSearch => set_nsegs a 1
                | GridGlitchSearch => clear_BSGL_input_arrays a
                | _ => a
                end in
  construct U k a s = (inr self, s') →
  kind self = k
  ∧ constructed self
  ∧ (k = GridSearch → grid_search_constructed self)
  ∧ args self = match k with
                | GridGlitchSearch => passed
                | _ => set_start_times passed
                         (search_minStartTime (search self))
                         (search_maxStartTime (search self))
                end
  ∧ (∃ ranges, make_search U k passed ranges = inr (search self))
  ∧ search_objects s' = S (search_objects s)
  ∧ det_stat_calls s' = det_stat_calls s
  ∧ out_file s' = out_file s.
Proof.
  destruct k; simpl; intros Hinit.
  - unfold GridSearch__init__ in Hinit. cbv zeta in Hinit.
    apply bind_inr in Hinit as (axes & s1 & [_ ->]%lift_inr & Hinit).
    apply bind_inr in Hinit as ([] & s2 & ->%info_inr & Hinit).
    apply bind_inr in Hinit as ([ev a'] & s3 & Hev & [-> ->]%ret_inr).
    apply initiate_search_object_inv in Hev
      as ((r & _ & Hmake) & Ha' & Hobj & Hcalls & Hfile).
    simpl in Ha', Hmake. subst a'.
    simpl in *. split; [done|]. split.
    { split; [done|]. simpl. by intros ->. }
    split; [by intros _|]. split; [done|]. by eauto.
  - unfold TransientGridSearch__init__ in Hinit. cbv zeta in Hinit.
    apply bind_inr in Hinit as (axes & s1 & [_ ->]%lift_inr & Hinit).
    destruct (BSGL _ && BtSG _) eqn:Hboth; [done|].
    apply bind_inr in Hinit as ([] & s2 & ->%info_inr & Hinit).
    apply bind_inr in Hinit as ([ev a'] & s3 & Hev & Hinit).
    apply initiate_search_object_inv in Hev
      as ((r & _ & Hmake) & Ha' & Hobj & Hcalls & Hfile).
    simpl in Ha', Hmake. subst a'.
    apply bind_inr in Hinit as ([] & s4 & Hlog & [-> ->]%ret_inr).
    assert (search_objects s4 = search_objects s3
            ∧ det_stat_calls s4 = det_stat_calls s3
            ∧ out_file s4 = out_file s3) as (Ho & Hc & Hf).
    { simpl in Hlog. destruct (outputTransientFstatMap _).
      - by apply info_inr in Hlog as ->.
      - by apply ret_inr in Hlog as [_ ->]. }
    simpl in *. split; [done|]. split.
    { split; [done|]. simpl. by intros ->. }
    split; [done|]. split; [done|]. split; [by eauto|]. split; [congruence|].
    split; congruence.
  - unfold SearchOverGridFile__init__ in Hinit. cbv zeta in Hinit.
    destruct (_ && _) eqn:Hsegs in Hinit; [done|].
    apply bind_inr in Hinit as (g & s1 & Hgrid & Hinit).
    assert (s1 = s) as ->.
    { destruct (String.eqb _ "numpy");
        [by apply lift_inr in Hgrid as [_ ->]|].
      destruct (String.eqb _ "pandas"); [|done].
      by apply lift_inr in Hgrid as [_ ->]. }
    destruct (BSGL a && BtSG a) eqn:Hboth; [done|].
    apply bind_inr in Hinit as ([] & s2 & ->%info_inr & Hinit).
    apply bind_inr in Hinit as ([ev a'] & s3 & Hev & Hinit).
    apply initiate_search_object_inv in Hev
      as ((r & _ & Hmake) & Ha' & Hobj & Hcalls & Hfile).
    simpl in Ha', Hmake. subst a'.
    apply bind_inr in Hinit as ([] & s4 & Hlog & [-> ->]%ret_inr).
    assert (search_objects s4 = search_objects s3
            ∧ det_stat_calls s4 = det_stat_calls s3
            ∧ out_file s4 = out_file s3) as (Ho & Hc & Hf).
    { simpl in Hlog. destruct (outputTransientFstatMap _).
      - by apply info_inr in Hlog as ->.
      - by apply ret_inr in Hlog as [_ ->]. }
    simpl in *. split; [done|]. split.
    { split; [done|]. simpl. by intros ->. }
    split; [done|]. split; [done|]. split; [by eauto|]. split; [congruence|].
    split; congruence.
  - unfold GridGlitchSearch__init__ in Hinit. cbv zeta in Hinit.
    destruct (tglitchs _); [|done].
    apply bind_inr in Hinit as (axes & s1 & [_ ->]%lift_inr & Hinit).
    apply bind_inr in Hinit as ([ev a'] & s3 & Hev & [-> ->]%ret_inr).
    apply initiate_search_object_inv in Hev
      as ((r & _ & Hmake) & Ha' & Hobj & Hcalls & Hfile).
    simpl in Ha', Hmake. subst a'.
    simpl in *. split; [done|]. split; [by split|].
    split; [done|]. split; [done|]. by eauto.
Qed.

Lemma demo_construct :
  construct (demo.timed_env 1) GridSearch (demo.grid_args false false false)
    demo.initial_state
  = (inr (demo.timed_search 1),
     (construct (demo.timed_env 1) GridSearch
        (demo.grid_args false false false) demo.initial_state).2).
Proof. vm_compute. reflexivity. Defined.

Lemma constructors_establish_schema_witness :
  kind (demo.timed_search 1) = GridSearch
  ∧ constructed (demo.timed_search 1)
  ∧ (GridSearch = GridSearch → grid_search_constructed (demo.timed_search 1))
  ∧ args (demo.timed_search 1)
    = set_start_times (demo.grid_args false false false)
        (search_minStartTime (search (demo.timed_search 1)))
        (search_maxStartTime (search (demo.timed_search 1)))
  ∧ (∃ ranges, make_search (demo.timed_env 1) GridSearch
                 (demo.grid_args false false false) ranges
               = inr (search (demo.timed_search 1)))
  ∧ search_objects
      (construct (demo.timed_env 1) GridSearch
         (demo.grid_args false false false) demo.initial_state).2
    = S (search_objects demo.initial_state)
  ∧ det_stat_calls
      (construct (demo.timed_env 1) GridSearch
         (demo.grid_args false false false) demo.initial_state).2
    = det_stat_calls demo.initial_state
  ∧ out_file
      (construct (demo.timed_env 1) GridSearch
         (demo.grid_args false false false) demo.initial_state).2
    = out_file demo.initial_state.
Proof.
  exact (constructors_establish_schema _ _ _ _ _ _ demo_construct).
Defined.

(** ** Cache validation: every valid table is reused *)

Lemma column_matches_complete (old input : sarray) (rtol atol : dict.t tolerance)
    (keys : list string) :
  (∀ key, key ∈ keys →
     ∃ oc nc r a,
       sa.field old key = inr oc ∧ sa.field input key = inr nc
       ∧ dict.getitem rtol key = inr r ∧ dict.getitem atol key = inr a
       ∧ npset.allclose oc nc (tolerance_value r) (tolerance_value a) = true) →
  ∃ ms, column_matches old input rtol atol keys = inr ms
        ∧ forallb id ms = true.
Proof.
  induction keys as [|k keys IH]; intros Hall; simpl.
  - by exists [].
  - destruct (Hall k ltac:(left)) as (oc & nc & r & a & -> & -> & -> & -> & Hk).
    destruct IH as (ms & -> & Hms).
    { intros key Hkey. apply Hall. by right. }
    eexists. split; [done|]. simpl. by rewrite Hk, Hms.
Qed.

(** X19. The validator accepts every table that passes the checks: with
    [clean] off, an output file that is not older than the oldest SFT file,
    whose header lines are, as a set, those of the current setup, whose
    table has as many rows as the current grid and no fewer columns and
    agrees with the grid on every search key within the tolerance of the
    key's output format, [check_old_data_is_okay_to_use] returns the stored
    table, without raising, and only adds four records to the log. *)
Theorem valid_table_is_reused (U : helpers) (self : search_object)
    (s : state) (f : stored_file) (input : sarray) :
  clean (args self) = false →
  out_file s = Some f →
  not_outdated U self f →
  (∀ x, x ∈ old_params_dict_str_list U f ↔ x ∈ new_params_dict_str_list U self) →
  input_data s = Some input →
  sa.len (SArray (columns f) (table f)) = sa.len input →
  (sa.ncols input ≤ sa.ncols (SArray (columns f) (table f)))%nat →
  columns_agree U self (SArray (columns f) (table f)) input →
  check_old_data_is_okay_to_use U self s
  = (inr (Some (SArray (columns f) (table f))),
     with_log (λ l, l ++ [CheckingHeader; HeaderMatches; LoadingOldData;
                          OldDataMatches
                            (sa.len (SArray (columns f) (table f)))
                            (sa.ncols (SArray (columns f) (table f)))]) s).
Proof.
  intros Hclean Hfile Hfresh Hxor Hin Hlen Hcols (tols & Htol & Hagree).
  rewrite (check_reaches_header U self s f Hclean Hfile Hfresh).
  apply setxor1d_nil in Hxor. rewrite Hxor. simpl.
  apply column_matches_complete in Hagree as (ms & Hcm & Hms).
  unfold compare_with_old_data. munfold. simpl. rewrite Hin.
  apply Nat.eqb_eq in Hlen. rewrite Hlen. simpl.
  apply Nat.ltb_ge in Hcols. rewrite Hcols. simpl.
  rewrite Htol, Hcm, Hms. simpl.
  destruct s. unfold after_header_check, with_log. simpl.
  by rewrite <- !app_assoc.
Qed.

Lemma valid_table_is_reused_witness :
  ∃ f, out_file (demo.regridded 1) = Some f
       ∧ check_old_data_is_okay_to_use (demo.env 1) (demo.grid_search 1)
           (demo.regridded 1)
         = (inr (Some (SArray (columns f) (table f))),
            with_log (λ l, l ++ [CheckingHeader; HeaderMatches; LoadingOldData;
                                 OldDataMatches
                                   (sa.len (SArray (columns f) (table f)))
                                   (sa.ncols (SArray (columns f) (table f)))])
              (demo.regridded 1)).
Proof.
  destruct (check_reaches_compare (demo.env 1) (demo.grid_search 1)
              (demo.regridded 1) (demo.table 1) (demo.revalidated 1)
              demo_revalidated)
    as (Hclean & f & Hfile & Hfresh & Hxor & Hcmp).
  destruct (compare_with_old_data_sound (demo.env 1) (demo.grid_search 1) f
              _ _ _ Hcmp)
    as (_ & Htable & input & Hin & Hlen & Hcols & Hagree).
  exists f. split; [exact Hfile|].
  rewrite Htable in Hlen, Hcols, Hagree.
  exact (valid_table_is_reused (demo.env 1) (demo.grid_search 1)
           (demo.regridded 1) f input Hclean Hfile Hfresh
           (proj1 (setxor1d_nil _ _) Hxor) Hin Hlen Hcols Hagree).
Defined.

(** ** Axis expansion: the edge cases *)

Lemma eqb_zero_Prim2SF (x : float) :
  (x =? 0)%float = true → ∃ sg, Prim2SF x = S754_zero sg.
Proof.
  rewrite FloatAxioms.eqb_spec. unfold SFeqb.
  change (Prim2SF 0) with (S754_zero false).
  destruct (Prim2SF x) as [sg|[]| |[] m e]; simpl; try done. by exists sg.
Qed.

Lemma int_of_quotient_by_zero (q x2 : float) :
  (x2 =? 0)%float = true →
  Binary64.int (q / x2)%float = inl OverflowError
  ∨ Binary64.int (q / x2)%float = inl (ValueError CannotConvertNaN).
Proof.
  intros [sg Hx2]%eqb_zero_Prim2SF. unfold Binary64.int.
  rewrite FloatAxioms.div_spec, Hx2. unfold SF64div, SFdiv.
  destruct (Prim2SF q) as [?|?| |? m e]; simpl; auto.
Qed.

(** X20. A [(min, max, step)] axis whose step compares equal to zero is
    never expanded: with [input_arrays] false, [_get_array_from_tuple]
    raises [OverflowError] or [ValueError], whatever [min] and [max] are,
    and leaves the state as it was. *)
Theorem zero_step_axis_raises (x0 x1 x2 : float) (s : state) :
  (x2 =? 0)%float = true →
  _get_array_from_tuple false [x0; x1; x2] s = (inl OverflowError, s)
  ∨ _get_array_from_tuple false [x0; x1; x2] s
    = (inl (ValueError CannotConvertNaN), s).
Proof.
  intros Hzero. unfold _get_array_from_tuple. simpl. munfold.
  destruct (int_of_quotient_by_zero (x1 - x0)%float x2 Hzero) as [-> | ->];
    auto.
Qed.

Lemma zero_step_axis_raises_witness :
  _get_array_from_tuple false [1%float; 2%float; (-0)%float] demo.initial_state
  = (inl OverflowError, demo.initial_state)
  ∨ _get_array_from_tuple false [1%float; 2%float; (-0)%float] demo.initial_state
    = (inl (ValueError CannotConvertNaN), demo.initial_state).
Proof.
  apply (zero_step_axis_raises 1 2 (-0) demo.initial_state). reflexivity.
Defined.

(** X21. What a [(min, max, step)] axis expands to, with [input_arrays]
    false, is decided by [n = int((max - min) / step)]: below [-1] the
    expansion raises [ValueError], at [-1] the axis is empty, and from [0]
    on it has [n + 1] points, the last of which is [max] itself as soon as
    [n] is at least [1].  The state is left as it was. *)
Theorem axis_expansion_by_quotient (x0 x1 x2 : float) (n : Z) (s : state) :
  Binary64.int ((x1 - x0) / x2)%float = inr n →
  (n < -1 →
     _get_array_from_tuple false [x0; x1; x2] s
     = (inl (ValueError NegativeNumberOfSamples), s))
  ∧ (n = -1 → _get_array_from_tuple false [x0; x1; x2] s = (inr [], s))
  ∧ (0 <= n →
       ∃ y, _get_array_from_tuple false [x0; x1; x2] s = (inr y, s)
            ∧ length y = Z.to_nat (n + 1)
            ∧ (1 <= n → last y = Some x1)).
Proof.
  intros Hn. split; [|split].
  - intros Hneg. unfold _get_array_from_tuple. simpl. munfold. rewrite Hn.
    unfold np.linspace. by destruct (Z.ltb_spec (n + 1) 0); [|lia].
  - intros ->. unfold _get_array_from_tuple. simpl. munfold. by rewrite Hn.
  - intros Hpos. by apply axis_count_is_truncated_quotient.
Qed.

Lemma axis_expansion_by_quotient_witness :
  (-1 < -1 →
     _get_array_from_tuple false [1%float; 0%float; 1%float] demo.initial_state
     = (inl (ValueError NegativeNumberOfSamples), demo.initial_state))
  ∧ (-1 = -1 →
     _get_array_from_tuple false [1%float; 0%float; 1%float] demo.initial_state
     = (inr [], demo.initial_state))
  ∧ (0 <= -1 →
       ∃ y, _get_array_from_tuple false [1%float; 0%float; 1%float]
              demo.initial_state = (inr y, demo.initial_state)
            ∧ length y = Z.to_nat (-1 + 1)
            ∧ (1 <= -1 → last y = Some 0%float)).
Proof.
  apply (axis_expansion_by_quotient 1 0 1 (-1) demo.initial_state).
  vm_compute. reflexivity.
Defined.

(** ** The round trip: a second run reuses the table of the first *)

Lemma index_of_lookup (key : string) (ns : list string) (i : nat) :
  NoDup ns → ns !! i = Some key → sa.index_of key ns = Some i.
Proof.
  intros Hnd Hi.
  destruct (index_of_elem_of key ns) as [k Hk];
    [by eapply list_elem_of_lookup_2|].
  apply index_of_Some in Hk as Hk'.
  by rewrite (NoDup_lookup ns i k key Hnd Hi Hk').
Qed.

Lemma with_log_app (l1 l2 : list logmsg) (s : state) :
  with_log (λ old, old ++ l2) (with_log (λ old, old ++ l1) s)
  = with_log (λ old, old ++ (l1 ++ l2)) s.
Proof. destruct s. unfold with_log. simpl. by rewrite app_assoc. Qed.

Lemma with_log_nil (s : state) : with_log (λ old, old ++ []) s = s.
Proof. destruct s. unfold with_log. simpl. by rewrite app_nil_r. Qed.

Lemma log_uniform_ret {A} (a : A) : log_uniform (mret a : M A).
Proof. exists (inr a), []. intros s. munfold. by rewrite with_log_nil. Qed.

Lemma log_uniform_lift {A} (x : exn + A) : log_uniform (lift x).
Proof. exists x, []. intros s. munfold. rewrite with_log_nil. by destruct x. Qed.

Lemma log_uniform_info (m : logmsg) : log_uniform (logger_info m).
Proof. by exists (inr tt), [m]. Qed.

Lemma log_uniform_bind {A B} (m : M A) (k : A → M B) :
  log_uniform m → (∀ a, log_uniform (k a)) → log_uniform (m ≫= k).
Proof.
  intros (r & l & Hm) Hk. destruct r as [e|a].
  - exists (inl e), l. intros s. munfold. by rewrite Hm.
  - destruct (Hk a) as (r' & l' & Hka). exists r', (l ++ l'). intros s.
    munfold. by rewrite Hm, Hka, with_log_app.
Qed.

Lemma log_uniform_for_each {A B} (l : list A) (acc : B) (body : B → A → M B) :
  (∀ acc x, log_uniform (body acc x)) → log_uniform (for_each l acc body).
Proof.
  intros Hbody. revert acc. induction l as [|x l IH]; intros acc.
  - apply log_uniform_ret.
  - destruct (Hbody acc x) as (r & lg & Hb). destruct r as [e|acc'].
    + exists (inl e), lg. intros s. by rewrite for_each_cons, Hb.
    + destruct (IH acc') as (r' & lg' & Hrest). exists r', (lg ++ lg').
      intros s. by rewrite for_each_cons, Hb, Hrest, with_log_app.
Qed.

Lemma get_array_from_tuple_uniform (ia : bool) (x : list float) :
  log_uniform (_get_array_from_tuple ia x).
Proof.
  unfold _get_array_from_tuple.
  destruct x as [|x0 [|x1 [|x2 [|x3 x]]]];
    try apply log_uniform_ret;
    try (apply log_uniform_bind; [apply log_uniform_info|intros ?];
         apply log_uniform_ret).
  destruct ia; simpl.
  - apply log_uniform_bind; [apply log_uniform_info|intros ?].
    apply log_uniform_ret.
  - apply log_uniform_bind; [apply log_uniform_lift|intros ?].
    apply log_uniform_lift.
Qed.

Lemma expand_axes_uniform (self : search_object) :
  log_uniform (expand_axes self).
Proof.
  apply log_uniform_for_each. intros acc sl.
  apply log_uniform_bind; [apply log_uniform_lift|intros x].
  apply log_uniform_bind; [apply get_array_from_tuple_uniform|intros ca].
  apply log_uniform_ret.
Qed.

(** Setting up the grid a second time gives the same input data. *)
Lemma get_input_data_array_again (self : search_object) (s s' t : state)
    (input : sarray) :
  kind self = GridSearch → clean (args self) = false →
  _get_input_data_array self s = (inr tt, s') →
  input_data s' = Some input →
  names input = search_keys self
  ∧ (∀ row, row ∈ rows input → length row = length (search_keys self))
  ∧ ∃ t', _get_input_data_array self t = (inr tt, t')
          ∧ input_data t' = Some input
          ∧ out_file t' = out_file t
          ∧ det_stat_calls t' = det_stat_calls t
          ∧ clock t' = clock t.
Proof.
  intros Hkind Hclean. unfold _get_input_data_array. rewrite Hkind, Hclean.
  destruct (expand_axes_uniform self) as (r & l & Hu).
  munfold. rewrite !Hu. destruct r as [e|cs]; [done|]. simpl.
  intros [= <-]. simpl. intros [= <-]. simpl.
  split; [done|]. split.
  - intros row Hrow%product_rows. apply Forall2_length in Hrow.
    rewrite Hrow. eapply (expand_axes_length self s). apply Hu.
  - eexists. split; [done|]. by destruct t.
Qed.

(** What a first run without an earlier output file leaves behind. *)
Lemma first_run_inv (U : helpers) (self : search_object) (s : state)
    (r : option sarray) (s1 : state) :
  grid_search_constructed self → NoDup (output_keys self) →
  out_file s = None →
  run U self false s = (inr r, s1) →
  clean (args self) = false
  ∧ ∃ sA input d outfmt lines,
      _get_input_data_array self s = (inr tt, sA)
      ∧ input_data sA = Some input
      ∧ input_data s1 = Some input
      ∧ data s1 = Some d
      ∧ names d = output_keys self
      ∧ sa.len d = sa.len input
      ∧ well_formed d
      ∧ (∀ n row, rows input !! n = Some row → row_evaluated self d n row)
      ∧ _get_savetxt_fmt_list U self = inr outfmt
      ∧ read_back U outfmt (rows d) lines
      ∧ out_file s1
        = Some (StoredFile (clock s) (output_file_header self)
                  (output_keys self) lines).
Proof.
  intros Hself Hnd Hnone. unfold run. intros Hrun.
  apply bind_inr in Hrun as ([] & sA & Hgrid & Hrun).
  apply get_input_data_array_frame in Hgrid as Hframe.
  destruct Hframe as (_ & _ & Hclock1 & Hout1 & _).
  apply bind_inr in Hrun as (first & s2 & Hfirst & Hrun).
  destruct (clean (args self)) eqn:Hclean.
  { apply bind_inr in Hfirst as (cs & s3 & _ & [-> ->]%ret_inr).
    simpl in Hrun. by apply bind_inr in Hrun as (n & s4 & [=] & _). }
  split; [done|].
  apply bind_inr in Hfirst as (old_data & s3 & Hcheck & Hfirst).
  apply bind_inr in Hfirst
    as (input & s4 & [Hin3 ->]%getattr_inr & [-> ->]%ret_inr).
  pose proof (check_old_data_logs_only U self _ _ _ Hcheck) as [l Hs3].
  simpl in Hrun. destruct old_data as [old|].
  { apply check_reaches_compare in Hcheck as (_ & f & Hfile & _).
    congruence. }
  apply bind_inr in Hrun as (n & s5 & [_ ->]%lift_inr & Hrun).
  apply bind_inr in Hrun as ([] & s6 & ->%modify_inr & Hrun).
  apply bind_inr in Hrun as (input2 & s7 & [Hin7 ->]%getattr_inr & Hrun).
  simpl in Hin7. rewrite Hin3 in Hin7. injection Hin7 as <-.
  apply bind_inr in Hrun as (d & s8 & Hloop & Hrun).
  pose proof (search_loop_effects _ _ _ _ _ _ Hloop) as (k & _ & Heff & Hall).
  destruct (Hall d eq_refl) as (_ & Hnames & Hlen).
  destruct Heff as (_ & _ & _ & Hcl & Hof & _ & _ & Hid & Hd).
  unfold search_loop, enumerate in Hloop. simpl in Hloop.
  apply (grid_rows_evaluated self (rows input) Hself Hnd 0) in Hloop
    as (Hwf & _ & Hrows); [|apply zeros_well_formed].
  apply bind_inr in Hrun as ([] & s9 & ->%modify_inr & Hrun).
  apply bind_inr in Hrun as ([] & s10 & Hsave & [_ ->]%ret_inr).
  apply save_array_to_disk_inv in Hsave
    as (d' & outfmt & lines & [= <-] & Hfmt & Hn & Hback & ->).
  subst s3. simpl in *.
  exists sA, input, d, outfmt, lines.
  split; [done|]. split; [done|]. split; [congruence|]. split; [done|].
  split; [done|]. split.
  { unfold sa.len in Hlen at 2. simpl in Hlen.
    by rewrite length_replicate in Hlen. }
  split; [done|]. split; [done|]. split; [done|]. split; [done|].
  by rewrite Hcl, Hclock1.
Qed.

(** A row of the table extends the point of the grid it was computed
    for. *)
Lemma table_row_extends_point (self : search_object) (input d : sarray)
    (rest : list string) (n : nat) (rd row : list float) :
  NoDup (output_keys self) →
  output_keys self = search_keys self ++ rest →
  (∀ row, row ∈ rows input → length row = length (search_keys self)) →
  names d = output_keys self →
  well_formed d →
  (∀ n row, rows input !! n = Some row → row_evaluated self d n row) →
  rows d !! n = Some rd → rows input !! n = Some row →
  rd = row ++ drop (length row) rd.
Proof.
  intros Hnd Hkeys Hrowlen Hdnames Hwf Hrows Hrd Hrow.
  rewrite <- (take_drop (length row) rd) at 1. f_equal.
  assert (length row = length (search_keys self)) as Hlen.
  { apply Hrowlen. by eapply list_elem_of_lookup_2. }
  assert (length rd = length (output_keys self)) as Hrdlen.
  { unfold well_formed in Hwf. rewrite Forall_forall in Hwf.
    rewrite (Hwf rd) by (by eapply list_elem_of_lookup_2). by rewrite Hdnames. }
  apply list_eq. intros i.
  destruct (decide (i < length row)%nat) as [Hi|Hi].
  - rewrite lookup_take_lt by done.
    destruct (lookup_lt_is_Some_2 row i Hi) as [v Hv].
    destruct (lookup_lt_is_Some_2 (search_keys self) i) as [key Hkey];
      [lia|].
    destruct (Hrows n row Hrow) as (out & _ & Hcells & _).
    specialize (Hcells i key v Hkey Hv).
    assert (sa.index_of key (output_keys self) = Some i) as Hio.
    { apply index_of_lookup; [done|]. rewrite Hkeys.
      by apply lookup_app_l_Some. }
    unfold sa.cell, sa.field in Hcells. rewrite Hdnames, Hio in Hcells.
    rewrite list_lookup_fmap, Hrd in Hcells. simpl in Hcells.
    destruct (lookup_lt_is_Some_2 rd i) as [w Hw].
    { rewrite Hrdlen, Hkeys, length_app. lia. }
    rewrite Hw in Hcells. simpl in Hcells. injection Hcells as ->.
    by rewrite Hv.
  - rewrite lookup_take_ge by lia. symmetry. apply lookup_ge_None. lia.
Qed.

(** The column a search key has in the file, against its column in the
    grid. *)
Lemma stored_column_close (U : helpers) (self : search_object)
    (input d : sarray) (outfmt : list string) (lines : list (list float))
    (rest : list string) (i : nat) (key : string) (r a : float) :
  NoDup (output_keys self) →
  output_keys self = search_keys self ++ rest →
  search_keys self !! i = Some key →
  names input = search_keys self →
  (∀ row, row ∈ rows input → length row = length (search_keys self)) →
  names d = output_keys self →
  well_formed d →
  (∀ n row, rows input !! n = Some row → row_evaluated self d n row) →
  read_back U outfmt (rows d) lines →
  (∀ point rest line v,
     point ∈ rows input → point !! i = Some v →
     savetxt_row U outfmt (point ++ rest) = inr line →
     ∃ x, line !! i = Some x ∧ npset.isclose r a x v = true) →
  ∃ oc nc,
    sa.field (SArray (output_keys self) lines) key = inr oc
    ∧ sa.field input key = inr nc
    ∧ npset.allclose oc nc r a = true.
Proof.
  intros Hnd Hkeys Hi Hnames Hrowlen Hdnames Hwf Hrows Hback Hclose.
  assert (sa.index_of key (output_keys self) = Some i) as Hio.
  { apply index_of_lookup; [done|]. rewrite Hkeys. by apply lookup_app_l_Some. }
  assert (sa.index_of key (names input) = Some i) as Hii.
  { apply index_of_lookup; [|by rewrite Hnames].
    rewrite Hnames. rewrite Hkeys in Hnd. by apply NoDup_app in Hnd as [? _]. }
  unfold sa.field. simpl. rewrite Hio, Hii.
  eexists _, _. split; [done|]. split; [done|].
  unfold npset.allclose. apply forallb_forall. intros [x y] Hin.
  apply list_elem_of_In, list_elem_of_lookup in Hin as [n Hn].
  apply lookup_zip_with_Some in Hn as (x' & y' & [= <- <-] & Hx & Hy).
  rewrite list_lookup_fmap in Hx. rewrite list_lookup_fmap in Hy.
  destruct (lines !! n) as [line|] eqn:Hline; [|done].
  destruct (rows input !! n) as [row|] eqn:Hrow; [|done].
  simpl in Hx, Hy. injection Hx as <-. injection Hy as <-.
  destruct (Forall2_lookup_r _ _ _ n line Hback Hline) as (rd & Hrd & Hsaved).
  assert (row ∈ rows input) as Hrin by (by eapply list_elem_of_lookup_2).
  destruct (lookup_lt_is_Some_2 row i) as [v Hv].
  { rewrite (Hrowlen row Hrin). by eapply lookup_lt_Some. }
  rewrite (table_row_extends_point self input d rest n rd row) in Hsaved
    by done.
  destruct (Hclose row _ line v Hrin Hv Hsaved) as (x & -> & Hx).
  by rewrite Hv.
Qed.

(** X22. The round trip through the output file.  Take a [GridSearch] as
    its constructor leaves it, with pairwise distinct output keys, and a
    first [run] that finds no output file and saves its table.  If the
    header read back gives the parameter lines of the search, no SFT file is
    newer than the saved file, and the lines written are read back with, in
    the column of every search key, a value within the column's tolerance of
    the grid value, then a second [run], with or without [return_data],
    reuses the file: it returns [None] without calling the evaluator or
    touching the file, and [self.data] becomes the stored table, which holds
    for every row of the table of the first run what a reader gets back of
    the line written for it. *)
Theorem second_run_reuses_first_table (U : helpers) (self : search_object)
    (return_data : bool) (s s1 : state) (r : option sarray) (input : sarray) :
  grid_search_constructed self → NoDup (output_keys self) →
  out_file s = None →
  run U self false s = (inr r, s1) →
  input_data s1 = Some input →
  header_round_trips U self →
  sfts_not_newer_than U self (clock s) →
  grid_survives_file U self input →
  ∃ d outfmt lines s2,
    data s1 = Some d
    ∧ _get_savetxt_fmt_list U self = inr outfmt
    ∧ read_back U outfmt (rows d) lines
    ∧ run U self return_data s1 = (inr None, s2)
    ∧ det_stat_calls s2 = det_stat_calls s1
    ∧ out_file s2 = out_file s1
    ∧ data s2 = Some (SArray (output_keys self) lines).
Proof.
  intros Hself Hnd Hnone Hrun Hinput Hheader Hsft
    (tols & outfmt' & Htol & Hfmt' & Hsurv).
  destruct (first_run_inv U self s r s1 Hself Hnd Hnone Hrun)
    as (Hclean & sA & input' & d & outfmt & lines & Hgrid & HinA & Hin1 & Hd
        & Hdnames & Hlen & Hwf & Hrows & Hfmt & Hback & Hfile).
  rewrite Hinput in Hin1. injection Hin1 as <-.
  rewrite Hfmt in Hfmt'. injection Hfmt' as <-.
  destruct Hself as (Hkind & Hkeys & Hstat).
  destruct (get_input_data_array_again self s sA s1 input Hkind Hclean Hgrid HinA)
    as (Hnames & Hrowlen & t' & Hregrid & Hin' & Hfile' & Hcalls' & Hclock').
  set (f := StoredFile (clock s) (output_file_header self) (output_keys self)
              lines) in *.
  rewrite Hfile in Hfile'.
  assert (∃ ms, column_matches (SArray (columns f) (table f)) input
                  tols.1 tols.2 (search_keys self) = inr ms
                ∧ forallb id ms = true) as (ms & Hcm & Hms).
  { apply column_matches_complete. intros key [i Hi]%list_elem_of_lookup.
    destruct (Hsurv i key Hi) as (rk & ak & Hrk & Hak & Hclose).
    destruct (stored_column_close U self input d outfmt lines
                (["twoF"] ++ twoF_keys (search self)
                   ++ (if BSGL (args self) then [detstat self] else []))
                i key (tolerance_value rk) (tolerance_value ak))
      as (oc & nc & Hoc & Hnc & Hall); try done.
    by exists oc, nc, rk, ak. }
  assert (check_old_data_is_okay_to_use U self t'
          = (inr (Some (SArray (columns f) (table f))),
             with_log (λ l, l ++ [OldDataMatches
                                    (sa.len (SArray (columns f) (table f)))
                                    (sa.ncols (SArray (columns f) (table f)))])
               (with_log (λ l, l ++ [LoadingOldData])
                  (after_header_check HeaderMatches t')))) as Hcheck.
  { rewrite (check_reaches_header U self t' f Hclean Hfile').
    2: { unfold not_outdated. unfold sfts_not_newer_than in Hsft.
         by destruct (sftfilepattern (args self)). }
    assert (npset.setxor1d (old_params_dict_str_list U f)
              (new_params_dict_str_list U self) = []) as ->.
    { by apply setxor1d_nil. }
    simpl. unfold compare_with_old_data. munfold. simpl. rewrite Hin'.
    assert ((length lines =? sa.len input)%nat = true) as Hl.
    { apply Nat.eqb_eq. rewrite (read_back_length _ _ _ _ Hback). exact Hlen. }
    unfold sa.len at 1. simpl. rewrite Hl. simpl.
    assert ((length (output_keys self) <? sa.ncols input)%nat = false) as Hc.
    { apply Nat.ltb_ge. unfold sa.ncols. rewrite Hnames, Hkeys.
      unfold _set_output_keys. simpl. rewrite length_app. lia. }
    unfold sa.ncols at 1. simpl. rewrite Hc. simpl.
    rewrite Htol. fold f in Hcm. simpl in Hcm. rewrite Hcm, Hms. simpl.
    done. }
  exists d, outfmt, lines. eexists. split; [done|]. split; [done|].
  split; [done|]. split.
  { unfold run. munfold. rewrite Hregrid, Hclean, Hcheck. simpl.
    rewrite Hin'. reflexivity. }
  simpl. split; [done|]. split; [by rewrite Hfile|done].
Qed.

Lemma demo_input : input_data (demo.after_run 1) = Some (demo.input 1).
Proof. vm_compute. reflexivity. Defined.

Lemma demo_header_round_trips :
  header_round_trips (demo.env 1) (demo.grid_search 1).
Proof.
  intros x.
  replace (read_parameters_dict_lines_from_file_header (demo.env 1)
             (output_file_header (demo.grid_search 1)))
    with (new_params_dict_str_list (demo.env 1) (demo.grid_search 1))
    by (vm_compute; reflexivity).
  reflexivity.
Defined.

Lemma demo_sfts_not_newer :
  sfts_not_newer_than (demo.env 1) (demo.grid_search 1)
    (clock demo.initial_state).
Proof. exists 50. split; [reflexivity|]. vm_compute. discriminate. Defined.

Lemma demo_isclose_refl (r a v : float) :
  (v =? v)%float = true → npset.isclose r a v v = true.
Proof. intros Hv. unfold npset.isclose. rewrite Hv. apply orb_true_r. Defined.

Lemma demo_grid_survives_file :
  grid_survives_file (demo.env 1) (demo.grid_search 1) (demo.input 1).
Proof.
  eexists _, _. split; [vm_compute; reflexivity|].
  split; [vm_compute; reflexivity|].
  intros i key Hi.
  do 5 (destruct i as [|i];
        [injection Hi as <-; eexists _, _;
         split; [vm_compute; reflexivity|];
         split; [vm_compute; reflexivity|];
         intros point rest line v Hpoint Hv [= <-];
         repeat (apply elem_of_cons in Hpoint as [Hpoint|Hpoint];
                 [subst point; injection Hv as <-;
                  eexists; split; [reflexivity|];
                  apply demo_isclose_refl; reflexivity|]);
         apply elem_of_nil in Hpoint; destruct Hpoint|]).
  discriminate Hi.
Defined.

Lemma second_run_reuses_first_table_witness :
  ∃ d outfmt lines s2,
    data (demo.after_run 1) = Some d
    ∧ _get_savetxt_fmt_list (demo.env 1) (demo.grid_search 1) = inr outfmt
    ∧ read_back (demo.env 1) outfmt (rows d) lines
    ∧ run (demo.env 1) (demo.grid_search 1) true (demo.after_run 1)
      = (inr None, s2)
    ∧ det_stat_calls s2 = det_stat_calls (demo.after_run 1)
    ∧ out_file s2 = out_file (demo.after_run 1)
    ∧ data s2 = Some (SArray (output_keys (demo.grid_search 1)) lines).
Proof.
  exact (second_run_reuses_first_table (demo.env 1) (demo.grid_search 1) true
           demo.initial_state (demo.after_run 1) None (demo.input 1)
           demo_grid_search_constructed demo_output_keys_NoDup eq_refl
           demo_first_run demo_input demo_header_round_trips
           demo_sfts_not_newer demo_grid_survives_file).
Defined.

(** ** The F-statistic map files of a transient search *)

Lemma of_zip_keys {V} (keys : list string) (vals : list V) (k : string) :
  is_Some (dict.get (dict.of_zip keys vals) k) → k ∈ keys.
Proof.
  unfold dict.of_zip. intros Hget.
  assert (∀ (l : list (string * V)) d,
            is_Some (dict.get (fold_left (λ d kv, dict.set d kv.1 kv.2) l d) k) →
            is_Some (dict.get d k) ∨ k ∈ l.*1) as Hfold.
  { induction l as [|[k0 v0] l IH]; intros d Hd; [by left|].
    simpl in Hd. apply IH in Hd as [Hd|Hd].
    - destruct (decide (k0 = k)) as [->|Hne]; [right; left|].
      left. by rewrite dict_get_set_ne in Hd.
    - right. by right. }
  apply Hfold in Hget as [[? [=]]|Hin].
  apply list_elem_of_fmap in Hin as ([k' v'] & -> & Hin).
  by apply elem_of_zip_l in Hin.
Qed.

Lemma getitems_ext {V} (d d' : dict.t V) (keys : list string) :
  (∀ k, k ∈ keys → dict.get d k = dict.get d' k) →
  dict.getitems d keys = dict.getitems d' keys.
Proof.
  induction keys as [|k keys IH]; intros Hall; [done|].
  simpl. rewrite (Hall k) by left. rewrite IH; [done|].
  intros k' Hk'. apply Hall. by right.
Qed.

Lemma getitems_inr_keys {V} (d : dict.t V) (keys : list string) (l : list V) :
  dict.getitems d keys = inr l → ∀ k, k ∈ keys → is_Some (dict.get d k).
Proof.
  revert l. induction keys as [|k keys IH]; intros l Hl k' Hk'.
  { by apply elem_of_nil in Hk'. }
  simpl in Hl. destruct (dict.get d k) as [v|] eqn:Hv; [|done].
  destruct (dict.getitems d keys) as [e|l'] eqn:Hrest; [done|].
  apply elem_of_cons in Hk' as [->|Hk']; [by rewrite Hv|by eapply IH].
Qed.

Lemma fstat_map_key_head (k : string) :
  k ∈ fstat_map_keys →
  k ≠ "twoF" ∧ k ≠ "maxTwoF" ∧ ∀ rest, k ≠ "twoF" +:+ rest.
Proof.
  intros Hk. unfold fstat_map_keys in Hk.
  repeat (apply elem_of_cons in Hk as [->|Hk];
          [split; [done|]; split; [done|];
           intros rest; rewrite !append_cons; discriminate|]).
  by apply elem_of_nil in Hk.
Qed.

Lemma set_per_detector_other (c : dict.t float) (names : list string)
    (key : string → string) (values : list float) (s : state) c' s' (k : string) :
  set_per_detector c names key values s = (inr c', s') →
  (∀ IFO, k ≠ key IFO) →
  s' = s ∧ dict.get c' k = dict.get c k.
Proof.
  intros [-> Hget]%set_per_detector_frame Hk. split; [done|].
  apply Hget. intros (IFO & -> & _)%list_elem_of_fmap. by apply (Hk IFO).
Qed.

(** X23. A row of a transient search with a transient window that is
    evaluated and stored has called the evaluator once.  With
    [outputTransientFstatMap] it has recorded exactly one F-statistic map
    file, named by the values the grid point has under [F0], [Alpha],
    [Delta], [F1] and [F2], so all five are search keys: over a grid that
    lacks one of them no row is ever stored.  Without
    [outputTransientFstatMap] no such file is recorded. *)
Theorem transient_row_writes_one_map_file (self : search_object)
    (data : sarray) (n : nat) (vals : list float) (s : state) data' s' :
  truthy (transientWindowType (args self)) = true →
  detstat self ∉ fstat_map_keys →
  TransientGridSearch_get_single_cand_results self data n vals s = (inr data', s') →
  det_stat_calls s' = S (det_stat_calls s)
  ∧ if outputTransientFstatMap (args self)
    then ∃ name,
           tcw_files s' = tcw_files s ++ [name]
           ∧ dict.getitems (dict.of_zip (search_keys self) vals) fstat_map_keys
             = inr name
           ∧ ∀ key, key ∈ fstat_map_keys → key ∈ search_keys self
    else tcw_files s' = tcw_files s.
Proof.
  intros Htruthy Hstat Hres.
  unfold TransientGridSearch_get_single_cand_results in Hres.
  cbv zeta in Hres.
  apply bind_inr in Hres as (out & s1 & Hcall & Hres).
  apply call_evaluator_inv in Hcall as [-> _].
  apply bind_inr in Hres as (t & s2 & [_ ->]%getattr_inr & Hres).
  apply bind_inr in Hres as ([] & s3 & Hs3%modify_inr & Hres).
  apply bind_inr in Hres as (c1 & s4 & Hc1 & Hres).
  apply bind_inr in Hres as (c2 & s5 & Hc2 & Hres).
  apply bind_inr in Hres as (c3 & s6 & Hc3 & Hres).
  rewrite store_candidate_place in Hres.
  apply place_all in Hres as (-> & _).
  rewrite Htruthy in Hc3.
  set (c0 := dict.of_zip (search_keys self) vals) in *.
  assert (s4 = s3 ∧ ∀ k, k ∈ fstat_map_keys → dict.get c1 k = dict.get c0 k)
    as [-> Hget1].
  { destruct (singleFstats (search self)).
    - split; [by apply set_per_detector_frame in Hc1 as [-> _]|].
      intros k (Hk1 & Hk2 & Hk3)%fstat_map_key_head.
      apply (set_per_detector_other _ _ _ _ _ _ _ k) in Hc1 as [_ ->];
        [|done]. by apply dict_get_set_ne.
    - apply ret_inr in Hc1 as [-> ->]. split; [done|].
      intros k (Hk1 & _)%fstat_map_key_head. by apply dict_get_set_ne. }
  assert (s5 = s3 ∧ ∀ k, k ∈ fstat_map_keys → dict.get c2 k = dict.get c0 k)
    as [-> Hget2].
  { destruct (windowRange out).
    - destruct (has_twoFXatMaxTwoF (search self)).
      + split; [by apply set_per_detector_frame in Hc2 as [-> _]|].
        intros k Hk. pose proof Hk as (Hk1 & Hk2 & Hk3)%fstat_map_key_head.
        apply (set_per_detector_other _ _ _ _ _ _ _ k) in Hc2 as [_ ->].
        * rewrite dict_get_set_ne by done. by apply Hget1.
        * intros IFO. cbv beta. first [apply Hk3|rewrite <- string_app_assoc; apply Hk3].
      + apply ret_inr in Hc2 as [-> ->]. split; [done|].
        intros k Hk. pose proof Hk as (Hk1 & Hk2 & Hk3)%fstat_map_key_head.
        rewrite dict_get_set_ne by done. by apply Hget1.
    - by apply ret_inr in Hc2 as [-> ->]. }
  destruct (FstatMap out) as [fmap|]; [|done].
  apply bind_inr in Hc3 as ([] & s7 & Hfile & Hc3).
  assert (s6 = s7) as ->.
  { destruct (windowRange out); [|done]. by apply ret_inr in Hc3 as [_ ->]. }
  destruct (outputTransientFstatMap (args self)).
  - apply bind_inr in Hfile as (name & s8 & [Hname ->]%lift_inr & ->%modify_inr).
    subst s3. simpl. split; [done|]. exists name. split; [done|].
    unfold get_transient_fstat_map_filename in Hname.
    assert (dict.getitems c0 fstat_map_keys = inr name) as Hname0.
    { rewrite <- Hname. symmetry. apply getitems_ext. intros k Hk.
      destruct (bool_decide _); [by apply Hget2|].
      rewrite dict_get_set_ne; [by apply Hget2|]. by intros <-. }
    split; [done|]. intros key Hkey.
    eapply of_zip_keys, getitems_inr_keys; done.
  - apply ret_inr in Hfile as [_ ->]. by subst s3.
Qed.

Lemma demo_map_row :
  ∃ data' s',
    TransientGridSearch_get_single_cand_results demo.map_search
      (sa.zeros 1 (output_keys demo.map_search)) 0
      [10%float; 0%float; 0%float; 0.5%float; 0%float] demo.transient_state
    = (inr data', s').
Proof. vm_compute. eexists _, _. reflexivity. Defined.

Lemma demo_map_detstat : detstat demo.map_search ∉ fstat_map_keys.
Proof.
  intros Hin. unfold fstat_map_keys in Hin.
  repeat (apply elem_of_cons in Hin as [Hin|Hin]; [discriminate Hin|]).
  apply elem_of_nil in Hin. destruct Hin.
Defined.

Lemma transient_row_writes_one_map_file_witness :
  ∃ data' s',
    TransientGridSearch_get_single_cand_results demo.map_search
      (sa.zeros 1 (output_keys demo.map_search)) 0
      [10%float; 0%float; 0%float; 0.5%float; 0%float] demo.transient_state
    = (inr data', s')
    ∧ det_stat_calls s' = 1%nat
    ∧ tcw_files s' = [[10%float; 0.5%float; 0%float; 0%float; 0%float]].
Proof.
  destruct demo_map_row as (data' & s' & Hrow).
  exists data', s'. split; [exact Hrow|].
  destruct (transient_row_writes_one_map_file demo.map_search _ _ _ _ _ _
              eq_refl demo_map_detstat Hrow)
    as (Hcalls & name & Hfiles & Hname & _).
  split; [exact Hcalls|].
  vm_compute in Hname. injection Hname as <-. exact Hfiles.
Defined.

(** ** The maximum over a column with NaN *)

Lemma argmax_from_nan (mp : float) (best i : nat) (l : list float) :
  PrimFloat.is_nan mp = true → npset.argmax_from mp best i l = best.
Proof. intros Hnan. destruct l; simpl; [done|]. by rewrite Hnan. Qed.

Lemma argmax_from_first_nan (l : list float) :
  ∀ (mp : float) (best i j : nat) (x : float),
    PrimFloat.is_nan mp = false →
    l !! j = Some x → PrimFloat.is_nan x = true →
    (∀ k w, (k < j)%nat → l !! k = Some w → PrimFloat.is_nan w = false) →
    npset.argmax_from mp best i l = (i + j)%nat.
Proof.
  induction l as [|y l IH]; intros mp best i j x Hmp Hj Hx Hbefore; [done|].
  simpl. rewrite Hmp. destruct j as [|j].
  - injection Hj as ->. rewrite leb_nan_l by done. simpl.
    rewrite argmax_from_nan by done. lia.
  - assert (PrimFloat.is_nan y = false) as Hy.
    { apply (Hbefore 0%nat); [lia|done]. }
    assert (∀ k w, (k < j)%nat → l !! k = Some w → PrimFloat.is_nan w = false)
      as Hbefore'.
    { intros k w Hk Hw. apply (Hbefore (S k)); [lia|done]. }
    destruct (negb _).
    + rewrite (IH y i (S i) j x); [lia|done..].
    + rewrite (IH mp best (S i) j x); [lia|done..].
Qed.

Lemma argmax_first_nan (col : list float) (j : nat) (x : float) :
  col !! j = Some x → PrimFloat.is_nan x = true →
  (∀ k w, (k < j)%nat → col !! k = Some w → PrimFloat.is_nan w = false) →
  npset.argmax col = inr j.
Proof.
  intros Hj Hx Hbefore. destruct col as [|y col]; [done|].
  unfold npset.argmax. f_equal. destruct j as [|j].
  - injection Hj as ->. by apply argmax_from_nan.
  - rewrite (argmax_from_first_nan col y 0 1 j x); [done| |done..|].
    + apply (Hbefore 0%nat); [lia|done].
    + intros k w Hk Hw. apply (Hbefore (S k)); [lia|done].
Qed.

(** X24. A NaN counts as the largest value: when the column of the
    detection statistic holds a NaN, [get_max_det_stat] returns the cells,
    under the output keys, of the first row whose statistic is NaN, whatever
    the other rows hold, and leaves the state as it was. *)
Theorem get_max_returns_first_nan_row (self : search_object) (s : state)
    (d : sarray) (col : list float) (j : nat) (x : float) :
  data s = Some d → output_keys self ⊆ names d →
  sa.field d (detstat self) = inr col →
  col !! j = Some x → PrimFloat.is_nan x = true →
  (∀ k w, (k < j)%nat → col !! k = Some w → PrimFloat.is_nan w = false) →
  ∃ m, get_max_det_stat self s = (inr m, s) ∧ row_at self d j m.
Proof.
  intros Hdata Hkeys Hcol Hj Hx Hbefore.
  pose proof (argmax_first_nan col j x Hj Hx Hbefore) as Harg.
  assert (j < sa.len d)%nat as Hlt.
  { apply lookup_lt_Some in Hj. by rewrite <- (field_length _ _ _ Hcol). }
  destruct (row_dict_returns d j (output_keys self) [] Hkeys Hlt) as [m Hm].
  exists m. split.
  - unfold get_max_det_stat, max_of_column, getattr. munfold.
    by rewrite Hdata, Hcol, Harg, Hm.
  - destruct (row_dict_spec _ _ _ _ _ Hm) as [Hin Hout].
    split; [done|]. intros key Hkey. by rewrite (Hout _ Hkey).
Qed.

Lemma demo_nan_table :
  data (demo.after_run nan) = Some (demo.table nan).
Proof. vm_compute. reflexivity. Defined.

Lemma demo_nan_keys :
  output_keys (demo.grid_search nan) ⊆ names (demo.table nan).
Proof. apply (bool_decide_unpack _). vm_compute. exact I. Defined.

Lemma demo_nan_statistic :
  sa.field (demo.table nan) (detstat (demo.grid_search nan))
  = inr [nan; nan; nan].
Proof. vm_compute. reflexivity. Defined.

Lemma get_max_returns_first_nan_row_witness :
  ∃ m, get_max_det_stat (demo.grid_search nan) (demo.after_run nan)
       = (inr m, demo.after_run nan)
       ∧ row_at (demo.grid_search nan) (demo.table nan) 0 m.
Proof.
  apply (get_max_returns_first_nan_row (demo.grid_search nan)
           (demo.after_run nan) (demo.table nan) [nan; nan; nan] 0 nan
           demo_nan_table demo_nan_keys demo_nan_statistic eq_refl eq_refl).
  intros k w Hk. apply Nat.nlt_0_r in Hk. destruct Hk.
Defined.
